(** * cordova-lib: restore and removal flows

    A shallow embedding of
    - [src/cordova/restore-util.js]  (platform and plugin restore),
    - [src/cordova/plugin/remove.js] (plugin removal),
    - the two revisions of [src/cordova/platform/remove.js],
    and the properties of these flows that the design document states.

    Promises are settled values: every chain in these files is awaited
    one link after the other, so a promise-returning function is a state
    transformer that ends fulfilled or rejected. *)

From Stdlib Require Import Ascii String.
From Equations Require Import Equations.
From Equations.Prop Require Import Logic.
From stdpp Require Import gmap strings list fin_maps.

Local Open Scope string_scope.
Local Open Scope list_scope.

(** ** JavaScript values used by the flows *)

Module JS.

(** A string read from a document may be missing ([undefined]); the
    code tests such values for truthiness: a missing value and the
    empty string are falsy. *)
Definition truthy (v : option string) : bool :=
  match v with
  | Some s => negb (String.eqb s EmptyString)
  | None => false
  end.

(** The string of a truthy value. *)
Definition when_truthy (v : option string) : option string :=
  if truthy v then v else None.

(** [a || b] on possibly missing strings. *)
Definition or_else (a b : option string) : option string :=
  if truthy a then a else b.

(** [Array.prototype.includes] / [indexOf(x) >= 0] on arrays of strings. *)
Definition includes (x : string) (l : list string) : bool :=
  bool_decide (x ∈ l).

(** The double quote inside a message. *)
Definition dq : string := String (Ascii.ascii_of_nat 34) EmptyString.

(** [hay.indexOf(needle) >= 0] on strings. *)
Definition str_includes (needle hay : string) : bool :=
  match String.index 0 needle hay with
  | Some _ => true
  | None => false
  end.

(** [s.startsWith(p)]. *)
Definition startsWith (p s : string) : bool := String.prefix p s.

(** [s.split('@')[0]]: the text before the first ['@'], the whole string
    when there is none. *)
Fixpoint before_at (s : string) : string :=
  match s with
  | EmptyString => EmptyString
  | String c rest =>
      if Ascii.eqb c "@"%char then EmptyString else String c (before_at rest)
  end.

(** [k in obj] and [obj[k]] for an object used as a string map. Keys
    inherited from [Object.prototype] are not part of the model. *)
Definition has_key {V} (k : string) (m : gmap string V) : bool :=
  bool_decide (is_Some (m !! k)).

(** [Object.assign({}, a, b)]: the entries of [b] win. *)
Definition assign {V} (a b : gmap string V) : gmap string V := b ∪ a.

(** An object whose key order matters ([Object.keys]) is kept as an
    association list in insertion order with distinct keys. *)
Definition obj (V : Type) := list (string * V).

Definition keys {V} (o : obj V) : list string := o.*1.

Fixpoint get {V} (k : string) (o : obj V) : option V :=
  match o with
  | [] => None
  | (k', v) :: rest => if String.eqb k k' then Some v else get k rest
  end.

(** [{...o, [k]: v}]: an existing key keeps its place, a new one goes
    last. *)
Fixpoint set {V} (k : string) (v : V) (o : obj V) : obj V :=
  match o with
  | [] => [(k, v)]
  | (k', v') :: rest =>
      if String.eqb k k' then (k, v) :: rest else (k', v') :: set k v rest
  end.

(** [const { [k]: _, ...rest } = o]. *)
Definition without {V} (k : string) (o : obj V) : obj V :=
  filter (λ kv, kv.1 ≠ k) o.

End JS.

(** ** Settled promises and the sequencing of asynchronous steps *)

(** How a promise settles. An error is kept as the text it prints as. *)
Inductive outcome (A : Type) : Type :=
| Fulfilled (a : A)
| Rejected (e : string).
Arguments Fulfilled {A} a.
Arguments Rejected {A} e.

Definition is_rejected {A} (r : outcome A) : bool :=
  match r with Rejected _ => true | Fulfilled _ => false end.

(** An asynchronous computation over a state [S]. *)
Definition async (S A : Type) : Type := S → outcome A * S.

Module Async.
Section ops.
Context {S : Type}.

(** [Promise.resolve(a)] *)
Definition resolve {A} (a : A) : async S A := λ s, (Fulfilled a, s).

(** [Promise.reject(e)], or [throw e] inside a handler. *)
Definition reject {A} (e : string) : async S A := λ s, (Rejected e, s).

(** [p.then(f)]: a rejection of [p] passes [f] by. *)
Definition and_then {A B} (p : async S A) (f : A → async S B) : async S B :=
  λ s, match p s with
       | (Fulfilled a, s') => f a s'
       | (Rejected e, s') => (Rejected e, s')
       end.

(** [p.then(f, g)]: exactly one of the two handlers runs, chosen by
    how [p] itself settled; a rejection raised by [f] is not seen by
    [g]. *)
Definition then2 {A B} (p : async S A) (f : A → async S B)
    (g : string → async S B) : async S B :=
  λ s, match p s with
       | (Fulfilled a, s') => f a s'
       | (Rejected e, s') => g e s'
       end.

(** A synchronous step on the state. *)
Definition modify (f : S → S) : async S unit := λ s, (Fulfilled (), f s).

Definition gets {A} (f : S → A) : async S A := λ s, (Fulfilled (f s), s).

(** [arr.forEach(f)] with a callback that may throw. *)
Fixpoint forEach {A} (f : A → async S unit) (l : list A) : async S unit :=
  match l with
  | [] => resolve ()
  | x :: rest => and_then (f x) (λ _, forEach f rest)
  end.
End ops.
End Async.

Declare Scope async_scope.
Delimit Scope async_scope with async.
Notation "x <- p ;; q" := (Async.and_then p (λ x, q))
  (at level 100, p at next level, right associativity) : async_scope.
Notation "p ;; q" := (Async.and_then p (λ _, q))
  (at level 100, right associativity) : async_scope.

(** ** util/promise-util.js *)

Module PromiseUtil.

(** Modelled from the spec: [util/promise-util.js], which defines
    [Q_chainmap], is not among the sources. The design document
    describes the fold the removal flows run their targets through as a
    serial fold with isolation (4.7), one item at a time, each settled
    before the next starts (4.6, 5), written as a loop that awaits each
    operation, catches its failure into a result list, and proceeds
    (9). The promise it returns is fulfilled with that result list. *)
Fixpoint Q_chainmap {S A B} (args : list A) (func : A → async S B)
    : async S (list (outcome B)) :=
  match args with
  | [] => Async.resolve []
  | arg :: rest =>
      λ s, let '(r, s1) := func arg s in
           let '(rs, s2) := Q_chainmap rest func s1 in
           match rs with
           | Fulfilled l => (Fulfilled (r :: l), s2)
           | Rejected e => (Rejected e, s2)
           end
  end.

End PromiseUtil.

(** ** plugin/remove.js: [validatePluginId] *)

Module PluginId.

Definition prefix : string := "cordova-plugin-".

Lemma prefix_append (p s : string) : String.prefix p (p +:+ s) = true.
Proof.
  induction p as [|c p IH]; simpl.
  - by destruct s.
  - destruct (Ascii.ascii_dec c c); [apply IH | done].
Qed.

Lemma str_includes_append (p s : string) :
  JS.str_includes p (p +:+ s) = true.
Proof.
  unfold JS.str_includes.
  pose proof (prefix_append p s) as H.
  destruct (p +:+ s) as [|c r].
  - by destruct p.
  - change (String.index 0 p (String c r))
      with (if String.prefix p (String c r) then Some 0
            else match String.index 0 p r with
                 | Some n => Some (S n)
                 | None => None
                 end).
    by rewrite H.
Qed.

(** The recursion of the source is on a longer string; what goes down
    is whether the id still lacks the prefix. *)
Definition retries_left (pluginId : string) : nat :=
  if JS.str_includes prefix pluginId then 0 else 1.

Equations? validatePluginId (pluginId : string) (installedPlugins : list string)
  : option string by wf (retries_left pluginId) lt :=
  validatePluginId pluginId installedPlugins
    with inspect (JS.includes pluginId installedPlugins) => {
    | exist _ true _ := Some pluginId;
    | exist _ false _ with inspect (JS.str_includes prefix pluginId) => {
      | exist _ false Hno := validatePluginId (prefix +:+ pluginId) installedPlugins;
      | exist _ true _ := None } }.
Proof.
  unfold retries_left. rewrite Hno, str_includes_append. lia.
Qed.

End PluginId.

(** ** The two declarative stores *)

(** [config.xml] as [ConfigParser] presents it. *)
Record Engine := mkEngine {
  engine_name : string;
  engine_spec : option string }.

Record CfgPlugin := mkCfgPlugin {
  plugin_id : string;
  plugin_spec : option string;
  plugin_variables : gmap string string }.

Record ConfigXml := mkConfigXml {
  cfg_packageName : option string;      (* [cfg.packageName()] *)
  cfg_version : option string;          (* [cfg.version()] *)
  cfg_name : option string;             (* [cfg.name()] *)
  cfg_engines : list Engine;            (* [cfg.getEngines()] *)
  cfg_plugins : list CfgPlugin }.

Definition getPluginIdList (cfg : ConfigXml) : list string :=
  plugin_id <$> cfg_plugins cfg.

(** [cfg.getPlugin(id)]: the first plugin element with that id. *)
Definition getPlugin (cfg : ConfigXml) (id : string) : option CfgPlugin :=
  List.find (λ p, String.eqb id (plugin_id p)) (cfg_plugins cfg).

(** [package.json], with the [cordova] section that [loadPackageJson]
    hands out. A missing dependency object reads as an empty one in
    every use the flows make of it. *)
Record Cordova := mkCordova {
  cordova_platforms : list string;
  cordova_plugins : JS.obj (gmap string string) }.

Record Manifest := mkManifest {
  pkg_name : option string;
  pkg_version : option string;
  pkg_displayName : option string;
  dependencies : gmap string string;
  devDependencies : gmap string string;
  cordova : Cordova }.

(** The argument of [pkgJson.update]: the top-level keys it carries. *)
Record Partial := mkPartial {
  set_name : option string;
  set_version : option string;
  set_displayName : option string;
  set_devDependencies : option (gmap string string);
  set_cordova : option Cordova }.

Definition no_keys : Partial := mkPartial None None None None None.

(** [pkgJson.update(partial)]: every key of the argument replaces the
    value under the same top-level key of the working copy; nothing is
    written to disk. *)
Definition update (p : Partial) (m : Manifest) : Manifest :=
  mkManifest
    (match set_name p with Some v => Some v | None => pkg_name m end)
    (match set_version p with Some v => Some v | None => pkg_version m end)
    (match set_displayName p with Some v => Some v | None => pkg_displayName m end)
    (dependencies m)
    (default (devDependencies m) (set_devDependencies p))
    (default (cordova m) (set_cordova p)).

(** ** restore-util.js *)

Module Restore.

(** The project on disk, as far as restore reads and writes it. *)
Record World := mkWorld {
  config_xml : ConfigXml;
  package_json : Manifest;
  paths : list string }.               (* the paths that exist *)

Definition existsSync (p : string) (w : World) : bool := JS.includes p (paths w).

(** The options [installPluginsFromConfigXML] builds for [plugin add]. *)
Record AddOptions := mkAddOptions {
  cli_variables : gmap string string;
  searchpath : option string;
  save : bool }.

(** The argument of [installPluginsFromConfigXML]. *)
Record Args := mkArgs {
  args_searchpath : option string;
  args_save : option bool }.

(** What restore needs from outside this file: node's [path] and
    string functions, [semver], [cordova_util.getProjectRoot] and the
    two install primitives, [require('./platform')('add', ...)] and
    [require('./plugin')('add', ...)], which may change anything on
    disk and may fail. [Opts] is the option bag of platform restore,
    handed on untouched. *)
Class Host := {
  Opts : Type;
  getProjectRoot : string;
  path_join : string → string → string;
  validRange : string → bool → option string;
  toLowerCase : string → string;
  platform_add : string → Opts → World → outcome unit * World;
  plugin_add : string → AddOptions → World → outcome unit * World }.

Section flows.
Context `{Host}.

Inductive call : Type :=
| PlatformAdd (installFrom : string) (opts : Opts)
| PluginAdd (installFrom : string) (options : AddOptions).

(** What a run leaves behind, oldest first. *)
Inductive event : Type :=
| Emit (level msg : string)            (* [events.emit(level, msg)] *)
| Save (content : Manifest)            (* [pkgJson.save()] *)
| Invoke (c : call)                    (* an install primitive is called *)
| Settle (c : call) (r : outcome unit). (* and its promise settles *)

(** The state of one run: the process and the two variables that the
    callbacks share, the working copy [pkgJson.content] and the name
    that [restoreCallback] leaves for [errCallback]. *)
Record Run := mkRun {
  world : World;
  exitCode : nat;                      (* [process.exitCode], 0 while unset *)
  trace : list event;
  pkgJson : Manifest;
  itemName : string }.

Definition log (ev : event) (s : Run) : Run :=
  mkRun (world s) (exitCode s) (trace s ++ [ev]) (pkgJson s) (itemName s).
Definition set_world (w : World) (s : Run) : Run :=
  mkRun w (exitCode s) (trace s) (pkgJson s) (itemName s).
Definition set_exitCode (n : nat) (s : Run) : Run :=
  mkRun (world s) n (trace s) (pkgJson s) (itemName s).
Definition set_pkgJson (m : Manifest) (s : Run) : Run :=
  mkRun (world s) (exitCode s) (trace s) m (itemName s).
Definition set_itemName (n : string) (s : Run) : Run :=
  mkRun (world s) (exitCode s) (trace s) (pkgJson s) n.

Local Open Scope async_scope.

Definition emit (level msg : string) : async Run unit :=
  Async.modify (log (Emit level msg)).

(** [await cordova_util.loadPackageJson(projectRoot)] *)
Definition loadPackageJson : async Run unit :=
  Async.modify (λ s, set_pkgJson (package_json (world s)) s).

Definition pkgJson_update (p : Partial) : async Run unit :=
  Async.modify (λ s, set_pkgJson (update p (pkgJson s)) s).

(** [await pkgJson.save()]: the working copy becomes the file. *)
Definition pkgJson_save : async Run unit :=
  Async.modify (λ s,
    log (Save (pkgJson s))
      (set_world (mkWorld (config_xml (world s)) (pkgJson s) (paths (world s))) s)).

(** Calling an install primitive and waiting for it. *)
Definition perform (c : call) (w : World) : outcome unit * World :=
  match c with
  | PlatformAdd src o => platform_add src o w
  | PluginAdd src o => plugin_add src o w
  end.

Definition invoke (c : call) : async Run unit := λ s,
  let s1 := log (Invoke c) s in
  let '(r, w) := perform c (world s1) in
  (r, log (Settle c r) (set_world w s1)).

(** Lines 111-118 and 215-221: where to install an item from. *)
Definition installFrom (name : string) (spec : option string) : string :=
  let installFrom := default name (JS.when_truthy spec) in
  match JS.when_truthy spec with
  | Some s => if JS.truthy (validRange s true) then name +:+ "@" +:+ s
              else installFrom
  | None => installFrom
  end.

(** *** Platforms *)

Record PlatformInfo := mkPlatformInfo {
  platform_name : string;
  platform_spec : option string }.

Definition platformModule (engine : Engine) : string :=
  if JS.startsWith "cordova-" (engine_name engine) then engine_name engine
  else "cordova-" +:+ engine_name engine.

(** Lines 43-53. *)
Definition configToPkgJson (cfg : ConfigXml) : Partial :=
  mkPartial
    (toLowerCase <$> JS.when_truthy (cfg_packageName cfg))
    (JS.when_truthy (cfg_version cfg))
    (JS.when_truthy (cfg_name cfg))
    None None.

(** Lines 61-89: the body of [cfgPlatforms.forEach]. *)
Definition migrateEngine (pkgPlatforms : list string)
    (pkgSpecs : gmap string string) (engine : Engine) : async Run unit :=
  let missing_spec :=
    match JS.when_truthy (engine_spec engine) with
    | Some spec => if JS.has_key (platformModule engine) pkgSpecs then None else Some spec
    | None => None
    end in
  if negb (JS.includes (engine_name engine) pkgPlatforms) || bool_decide (is_Some missing_spec)
  then
    emit "info" ("Platform '" +:+ engine_name engine +:+
                 "' found in config.xml... Migrating it to package.json") ;;
    match missing_spec with
    | Some spec =>
        content <- Async.gets pkgJson ;;
        pkgJson_update
          (mkPartial None None None
             (Some (<[platformModule engine := spec]> (devDependencies content))) None)
    | None => Async.resolve ()
    end ;;
    if negb (JS.includes (engine_name engine) pkgPlatforms)
    then
      content <- Async.gets pkgJson ;;
      pkgJson_update
        (mkPartial None None None None
           (Some (mkCordova (cordova_platforms (cordova content) ++ [engine_name engine])
                            (cordova_plugins (cordova content)))))
    else Async.resolve ()
  else Async.resolve ().

(** Lines 92-97. *)
Definition platformInfo (content : Manifest) : list PlatformInfo :=
  let specs := JS.assign (dependencies content) (devDependencies content) in
  (λ plID, mkPlatformInfo plID
             (JS.or_else (specs !! ("cordova-" +:+ plID)) (specs !! plID)))
    <$> cordova_platforms (cordova content).

Definition installAllPlatforms (targets : option (list string)) : bool :=
  match targets with
  | None => true
  | Some l => bool_decide (length l = 0)
  end.

Definition platformRoot : string := path_join getProjectRoot "platforms".

(** Whether [restoreCallback] leaves a platform alone (line 104). *)
Definition platform_skipped (targets : option (list string))
    (platformName : string) (w : World) : bool :=
  existsSync (path_join platformRoot platformName) w
  || (negb (installAllPlatforms targets)
      && negb (JS.includes platformName (default [] targets))).

Definition platform_restoreCallback (targets : option (list string))
    (opts : Opts) (platform : PlatformInfo) : async Run unit :=
  Async.modify (set_itemName (platform_name platform)) ;;
  platformName <- Async.gets itemName ;;
  w <- Async.gets world ;;
  if platform_skipped targets platformName w
  then Async.resolve ()
  else
    emit "log" ("Discovered platform " +:+ JS.dq +:+ platformName +:+ JS.dq +:+
                ". Adding it to the project") ;;
    invoke (PlatformAdd (installFrom platformName (platform_spec platform)) opts).

Definition platform_warning (platformName error : string) : string :=
  "Failed to restore platform " +:+ JS.dq +:+ platformName +:+ JS.dq +:+
  ". You might need to try adding it again. Error: " +:+ error.

Definition platform_errCallback (error : string) : async Run unit :=
  platformName <- Async.gets itemName ;;
  Async.modify (set_exitCode 1) ;;
  emit "warn" (platform_warning platformName error) ;;
  Async.reject error.

(** Lines 141-143: the chain that [reduce] builds. *)
Definition platform_chain (targets : option (list string)) (opts : Opts)
    (items : list PlatformInfo) : async Run unit :=
  fold_left
    (λ soFar platform,
       Async.then2 soFar (λ _, platform_restoreCallback targets opts platform)
         platform_errCallback)
    items (Async.resolve ()).

(** Lines 31-97 and 133-136: everything before the chain. *)
Definition reconcilePlatforms : async Run (list PlatformInfo) :=
  emit "verbose" "Checking for saved platforms that haven't been added to the project" ;;
  cfg <- Async.gets (λ s, config_xml (world s)) ;;
  loadPackageJson ;;
  pkgJson_update (configToPkgJson cfg) ;;
  content <- Async.gets pkgJson ;;
  let pkgPlatforms := cordova_platforms (cordova content) in
  let pkgSpecs := JS.assign (dependencies content) (devDependencies content) in
  Async.forEach (migrateEngine pkgPlatforms pkgSpecs) (cfg_engines cfg) ;;
  content <- Async.gets pkgJson ;;
  let platformIDs := cordova_platforms (cordova content) in
  (if bool_decide (length platformIDs ≠ length pkgPlatforms)
   then pkgJson_save else Async.resolve ()) ;;
  Async.resolve (platformInfo content).

Definition installPlatformsFromConfigXML (targets : option (list string))
    (opts : Opts) : async Run unit :=
  Async.modify (set_itemName EmptyString) ;;
  items <- reconcilePlatforms ;;
  platform_chain targets opts items.

(** *** Plugins *)

Record PluginConfig := mkPluginConfig {
  pluginConfig_name : string;
  pluginConfig_spec : option string;
  pluginConfig_variables : gmap string string }.

(** Lines 162-191: the body of [cfgPluginIDs.forEach]. Reading
    [.spec] of a plugin that [getPlugin] does not find throws. *)
Definition migratePlugin (cfg : ConfigXml) (pkgPluginIDs : list string)
    (pkgSpecs : gmap string string) (plID : string) : async Run unit :=
  if negb (JS.includes plID pkgPluginIDs)
  then
    emit "info" ("Plugin '" +:+ plID +:+
                 "' found in config.xml... Migrating it to package.json") ;;
    match getPlugin cfg plID with
    | None => Async.reject "TypeError: Cannot read properties of undefined (reading 'spec')"
    | Some cfgPlugin =>
        match JS.when_truthy (plugin_spec cfgPlugin) with
        | Some spec =>
            if JS.has_key plID pkgSpecs then Async.resolve ()
            else
              content <- Async.gets pkgJson ;;
              pkgJson_update
                (mkPartial None None None
                   (Some (<[plID := spec]> (devDependencies content))) None)
        | None => Async.resolve ()
        end ;;
        content <- Async.gets pkgJson ;;
        pkgJson_update
          (mkPartial None None None None
             (Some (mkCordova (cordova_platforms (cordova content))
                      (JS.set plID (plugin_variables cfgPlugin)
                         (cordova_plugins (cordova content))))))
    end
  else Async.resolve ().

(** Lines 194-200. *)
Definition pluginConfigs (content : Manifest) : list PluginConfig :=
  let specs := JS.assign (dependencies content) (devDependencies content) in
  (λ plID, mkPluginConfig plID (specs !! plID)
             (default ∅ (JS.get plID (cordova_plugins (cordova content)))))
    <$> JS.keys (cordova_plugins (cordova content)).

Definition pluginsRoot : string := path_join getProjectRoot "plugins".

Definition plugin_options (args : Args) (pluginConfig : PluginConfig) : AddOptions :=
  mkAddOptions (pluginConfig_variables pluginConfig) (args_searchpath args)
    (default false (args_save args)).

Definition plugin_restoreCallback (args : Args) (pluginConfig : PluginConfig)
    : async Run unit :=
  Async.modify (set_itemName (pluginConfig_name pluginConfig)) ;;
  pluginName <- Async.gets itemName ;;
  w <- Async.gets world ;;
  if existsSync (path_join pluginsRoot pluginName) w
  then Async.resolve ()
  else
    emit "log" ("Discovered plugin " +:+ JS.dq +:+ pluginName +:+ JS.dq +:+
                ". Adding it to the project") ;;
    invoke (PluginAdd (installFrom pluginName (pluginConfig_spec pluginConfig))
              (plugin_options args pluginConfig)).

Definition plugin_warning (pluginName error : string) : string :=
  "Failed to restore plugin " +:+ JS.dq +:+ pluginName +:+ JS.dq +:+
  ". You might need to try adding it again. Error: " +:+ error.

Definition plugin_errCallback (error : string) : async Run unit :=
  pluginName <- Async.gets itemName ;;
  Async.modify (set_exitCode 1) ;;
  emit "warn" (plugin_warning pluginName error).

(** Lines 250-252. *)
Definition plugin_chain (args : Args) (items : list PluginConfig)
    : async Run unit :=
  fold_left
    (λ soFar plugin,
       Async.then2 soFar (λ _, plugin_restoreCallback args plugin)
         plugin_errCallback)
    items (Async.resolve ()).

(** Lines 147-200 and 241-244. *)
Definition reconcilePlugins : async Run (list PluginConfig) :=
  emit "verbose" "Checking for saved plugins that haven't been added to the project" ;;
  loadPackageJson ;;
  content <- Async.gets pkgJson ;;
  let pkgPluginIDs := JS.keys (cordova_plugins (cordova content)) in
  let pkgSpecs := JS.assign (dependencies content) (devDependencies content) in
  cfg <- Async.gets (λ s, config_xml (world s)) ;;
  Async.forEach (migratePlugin cfg pkgPluginIDs pkgSpecs) (getPluginIdList cfg) ;;
  content <- Async.gets pkgJson ;;
  let pluginIDs := JS.keys (cordova_plugins (cordova content)) in
  (if bool_decide (length pluginIDs ≠ length pkgPluginIDs)
   then pkgJson_save else Async.resolve ()) ;;
  Async.resolve (pluginConfigs content).

Definition installPluginsFromConfigXML (args : Args) : async Run unit :=
  Async.modify (set_itemName EmptyString) ;;
  items <- reconcilePlugins ;;
  plugin_chain args items.

End flows.
End Restore.

(** ** plugin/remove.js *)

Module PluginRemove.
Import PromiseUtil.

(** The option bag of [plugin rm], as far as this file reads and writes
    it. *)
Record Opts := mkOpts {
  opts_plugins : list string;
  opts_save : bool;
  opts_force : bool;
  opts_cli_variables : gmap string string;
  opts_cordova : list string }.         (* [opts.cordova.plugins] *)

(** What the removal needs from outside this file: [cordova_util],
    [plugin_util], [plugman], the metadata ledger, the hooks runner and
    the prepare step, over a project [World] of their own. Everything
    that touches the disk or a subprocess may fail. *)
Class Host := {
  World : Type;
  PluginInfo : Type;
  binname : string;
  path_join : list string → string;
  projectConfig : string → string;
  findPlugins : string → World → list string;
  listPlatforms : string → World → list string;
  existsSync : string → World → bool;
  parseConfig : string → World → ConfigXml;            (* [new ConfigParser(path)] *)
  writeConfig : string → ConfigXml → World → outcome unit * World;
  loadPackageJson : string → World → outcome Manifest;
  savePackageJson : string → Manifest → World → outcome unit * World;
  fire : string → Opts → World → outcome unit * World;
  getPluginInfo : string → World → outcome PluginInfo; (* [new PluginInfoProvider().get(dir)] *)
  mergeVariables : PluginInfo → ConfigXml → Opts → outcome (gmap string string);
  uninstallPlatform :
    string → string → string → string → Opts → World → outcome bool * World;
  uninstallPlugin : string → string → Opts → World → outcome unit * World;
  preparePlatforms : list string → string → Opts → World → outcome unit * World;
  remove_fetch_metadata : string → string → World → outcome unit * World }.

(** The primitives a removal calls. *)
Inductive call : Type :=
| Fire (hook : string)
| GetPluginInfo (directory : string)
| MergeVariables
| UninstallPlatform (platform platformRoot target pluginPath : string)
    (cli_variables : gmap string string)
| UninstallPlugin (target pluginPath : string)
| WriteConfig (cfg : ConfigXml)
| LoadPackageJson
| SavePackageJson (content : Manifest)
| RemoveFetchMetadata (pluginPath target : string)
| PreparePlatforms (platformList : list string).

Inductive event : Type :=
| Emit (level msg : string)
| Invoke (c : call)
| Settle (c : call) (failure : option string).

Definition failure_of {A} (r : outcome A) : option string :=
  match r with Fulfilled _ => None | Rejected e => Some e end.

Section flows.
Context `{Host}.

(** A run: the project, the shared [opts] object, the flag that the
    callbacks of [remove] share, and what was emitted and called. *)
Record Run := mkRun {
  world : World;
  opts : Opts;
  shouldRunPrepare : bool;
  trace : list event }.

Definition log (ev : event) (s : Run) : Run :=
  mkRun (world s) (opts s) (shouldRunPrepare s) (trace s ++ [ev]).
Definition set_world (w : World) (s : Run) : Run :=
  mkRun w (opts s) (shouldRunPrepare s) (trace s).
Definition set_opts (o : Opts) (s : Run) : Run :=
  mkRun (world s) o (shouldRunPrepare s) (trace s).
Definition set_shouldRunPrepare (b : bool) (s : Run) : Run :=
  mkRun (world s) (opts s) b (trace s).

Local Open Scope async_scope.

Definition emit (level msg : string) : async Run unit :=
  Async.modify (log (Emit level msg)).

(** Calling a primitive that works on the project and waiting for it. *)
Definition invoke {A} (c : call) (prim : World → outcome A * World)
    : async Run A := λ s,
  let s1 := log (Invoke c) s in
  let '(r, w) := prim (world s1) in
  (r, log (Settle c (failure_of r)) (set_world w s1)).

Definition set_opts_cordova (l : list string) (o : Opts) : Opts :=
  mkOpts (opts_plugins o) (opts_save o) (opts_force o) (opts_cli_variables o) l.
Definition set_cli_variables (v : gmap string string) (o : Opts) : Opts :=
  mkOpts (opts_plugins o) (opts_save o) (opts_force o) v (opts_cordova o).

Definition not_present (target : string) : string :=
  "Plugin " +:+ JS.dq +:+ target +:+ JS.dq +:+
  " is not present in the project. See `" +:+ binname +:+ " plugin list`.".

Section remove.
Variables (projectRoot : string).
(* the constants that [remove] computes before the chain starts *)
Variables (pluginPath : string) (plugins platformList : list string)
          (cfg : ConfigXml).

(** Lines 92-116. [opts.force = opts.force || false] leaves a boolean
    [force] as it is. *)
Definition removePluginFromPlatform (target platform : string)
    : async Run unit :=
  let platformRoot := path_join [projectRoot; "platforms"; platform] in
  let directory := path_join [pluginPath; target] in
  pluginInfo <- invoke (GetPluginInfo directory) (λ w, (getPluginInfo directory w, w)) ;;
  emit "verbose" ("Calling plugman.uninstall on plugin " +:+ JS.dq +:+ target +:+
                  JS.dq +:+ " for platform " +:+ JS.dq +:+ platform +:+ JS.dq) ;;
  o <- Async.gets opts ;;
  variables <- invoke MergeVariables (λ w, (mergeVariables pluginInfo cfg o, w)) ;;
  let platformOpts := set_cli_variables variables o in
  didPrepare <-
    invoke (UninstallPlatform platform platformRoot target pluginPath variables)
      (uninstallPlatform platform platformRoot target pluginPath platformOpts) ;;
  if didPrepare then Async.resolve ()
  else Async.modify (set_shouldRunPrepare true).

(** Lines 118-129. *)
Definition persistRemovalToCfg (target : string) : async Run unit :=
  let configPath := projectConfig projectRoot in
  w <- Async.gets world ;;
  if existsSync configPath w then
    let configXml := parseConfig configPath w in
    match getPlugin configXml target with
    | Some _ =>
        emit "log" ("Removing plugin " +:+ target +:+ " from config.xml file...") ;;
        let configXml' :=
          mkConfigXml (cfg_packageName configXml) (cfg_version configXml)
            (cfg_name configXml) (cfg_engines configXml)
            (filter (λ p, plugin_id p ≠ target) (cfg_plugins configXml)) in
        invoke (WriteConfig configXml') (writeConfig configPath configXml')
    | None => Async.resolve ()
    end
  else Async.resolve ().

(** Lines 131-150. *)
Definition persistRemovalToPkg (target : string) : async Run unit :=
  content <- invoke LoadPackageJson (λ w, (loadPackageJson projectRoot w, w)) ;;
  match JS.get target (cordova_plugins (cordova content)) with
  | Some _ =>
      emit "log" ("Removing plugin " +:+ JS.dq +:+ target +:+ JS.dq +:+
                  " from package.json") ;;
      let updatedPlugins := JS.without target (cordova_plugins (cordova content)) in
      let cordova' := mkCordova (cordova_platforms (cordova content)) updatedPlugins in
      let content' := update (mkPartial None None None None (Some cordova')) content in
      invoke (SavePackageJson content') (savePackageJson projectRoot content')
  | None => Async.resolve ()
  end.

(** Lines 62-90. The five [then] callbacks, in order. *)
Definition removePlugin (target : string) : async Run unit :=
  target <-
    match JS.when_truthy (PluginId.validatePluginId target plugins) with
    | None => Async.reject (not_present target)
    | Some validatedPluginId => Async.resolve validatedPluginId
    end ;;
  Q_chainmap platformList (removePluginFromPlatform target) ;;
  o <- Async.gets opts ;;
  invoke (UninstallPlugin target pluginPath) (uninstallPlugin target pluginPath o) ;;
  (o <- Async.gets opts ;;
   if opts_save o then
     persistRemovalToCfg target ;;
     persistRemovalToPkg target
   else Async.resolve ()) ;;
  emit "verbose" ("Removing plugin " +:+ target +:+ " from fetch.json") ;;
  invoke (RemoveFetchMetadata pluginPath target)
    (remove_fetch_metadata pluginPath target).
End remove.

Definition no_plugin_specified : string :=
  "No plugin specified. Please specify a plugin to remove. See: " +:+ binname +:+
  " plugin list.".

(** Lines 36-60. *)
Definition remove (projectRoot : string) (targets : option (list string))
    : async Run unit :=
  if bool_decide (length (default [] targets) = 0)
  then Async.reject no_plugin_specified
  else
    let pluginPath := path_join [projectRoot; "plugins"] in
    w <- Async.gets world ;;
    let plugins := findPlugins pluginPath w in
    let platformList := listPlatforms projectRoot w in
    Async.modify (set_shouldRunPrepare false) ;;
    let cfg := parseConfig (projectConfig projectRoot) w in
    Async.modify (λ s, set_opts (set_opts_cordova (findPlugins pluginPath w) (opts s)) s) ;;
    o <- Async.gets opts ;;
    invoke (Fire "before_plugin_rm") (fire "before_plugin_rm" o) ;;
    o <- Async.gets opts ;;
    Q_chainmap (opts_plugins o)
      (removePlugin projectRoot pluginPath plugins platformList cfg) ;;
    (b <- Async.gets shouldRunPrepare ;;
     if b then
       o <- Async.gets opts ;;
       invoke (PreparePlatforms platformList) (preparePlatforms platformList projectRoot o)
     else Async.resolve ()) ;;
    w <- Async.gets world ;;
    Async.modify (λ s, set_opts (set_opts_cordova (findPlugins pluginPath w) (opts s)) s) ;;
    o <- Async.gets opts ;;
    invoke (Fire "after_plugin_rm") (fire "after_plugin_rm" o).

End flows.
End PluginRemove.

(** ** platform/remove.js

    The sources hold two revisions of this file. [Rev1] reads
    [package.json] through [@npmcli/package-json] and edits it target by
    target; [Rev2] goes through [cordova_util.loadPackageJson] and edits
    it once for all targets. *)

Module PlatformRemove.
Import PromiseUtil.

Record Opts := mkOpts { opts_save : bool }.

(** [package.json] as [PackageJson.load] returns it, where the
    [cordova] section and its platform list may be missing. *)
Record RawCordova := mkRawCordova {
  raw_platforms : option (list string);
  raw_plugins : option (JS.obj (gmap string string)) }.

Record RawManifest := mkRawManifest { raw_cordova : option RawCordova }.

(** What platform removal needs from outside this file; [known] is the
    test [target in platforms] on the table of [platforms/platforms]. *)
Class Host := {
  World : Type;
  binname : string;
  path_join : list string → string;
  projectConfig : string → string;
  known : string → bool;
  parseConfig : string → World → ConfigXml;
  writeConfig : string → ConfigXml → World → outcome unit * World;
  fire : string → Opts → World → outcome unit * World;
  rmSync : string → World → outcome unit * World;
  removePlatformPluginsJson : string → string → World → outcome unit * World;
  PackageJson_load : string → World → outcome RawManifest;
  PackageJson_save : string → RawManifest → World → outcome unit * World;
  loadPackageJson : string → World → outcome Manifest;
  savePackageJson : string → Manifest → World → outcome unit * World;
  npmUninstall : string → string → Opts → World → outcome unit * World }.

Inductive call : Type :=
| Fire (hook : string)
| RmSync (path : string)
| RemovePlatformPluginsJson (projectRoot target : string)
| RemoveEngine (platformName : string)   (* [cfg.removeEngine(..); cfg.write()] *)
| LoadPackageJson
| SaveRaw (content : RawManifest)
| Save (content : Manifest)
| NpmUninstall (name projectRoot : string).

Inductive event : Type :=
| Emit (level msg : string)
| Invoke (c : call)
| Settle (c : call) (failure : option string).

Definition failure_of {A} (r : outcome A) : option string :=
  match r with Fulfilled _ => None | Rejected e => Some e end.

Section common.
Context `{Host}.

Record Run := mkRun {
  world : World;
  trace : list event }.

Definition log (ev : event) (s : Run) : Run := mkRun (world s) (trace s ++ [ev]).

Definition emit (level msg : string) : async Run unit :=
  Async.modify (log (Emit level msg)).

Definition invoke {A} (c : call) (prim : World → outcome A * World)
    : async Run A := λ s,
  let s1 := log (Invoke c) s in
  let '(r, w) := prim (world s1) in
  (r, mkRun w (trace s1 ++ [Settle c (failure_of r)])).

Definition no_platform_specified : string :=
  "No platform(s) specified. Please specify platform(s) to remove. See `" +:+
  binname +:+ " platform list`.".

Local Open Scope async_scope.

(** Lines 37-40 and 127-130. *)
Definition deleteFromDisk (projectRoot : string) (targets : list string)
    : async Run unit :=
  Async.forEach
    (λ target,
       invoke (RmSync (path_join [projectRoot; "platforms"; target]))
         (rmSync (path_join [projectRoot; "platforms"; target])) ;;
       invoke (RemovePlatformPluginsJson projectRoot target)
         (removePlatformPluginsJson projectRoot target))
    targets.

(** [cfg.getEngines().some(e => e.name === platformName)], then
    [cfg.removeEngine(platformName); cfg.write()]. *)
Definition removeEngineFromConfig (projectRoot platformName : string)
    (message : string) : async Run unit :=
  let xml := projectConfig projectRoot in
  w <- Async.gets world ;;
  let cfg := parseConfig xml w in
  if JS.includes platformName (engine_name <$> cfg_engines cfg) then
    emit "log" message ;;
    let cfg' :=
      mkConfigXml (cfg_packageName cfg) (cfg_version cfg) (cfg_name cfg)
        (filter (λ e, engine_name e ≠ platformName) (cfg_engines cfg))
        (cfg_plugins cfg) in
    invoke (RemoveEngine platformName) (writeConfig xml cfg')
  else Async.resolve ().

(** Lines 76-78 and 163-165. *)
Definition announce (targets : list string) : async Run unit :=
  Async.forEach
    (λ target, emit "verbose" ("Removing platform " +:+ target +:+
                               " from platforms.json file..."))
    targets.

(** Lines 81-87 and 168-174. *)
Definition uninstallName (target : string) : string :=
  if known target then "cordova-" +:+ target else target.

Definition uninstallFromNodeModules (projectRoot : string)
    (targets : list string) (opts : Opts) : async Run (list (outcome unit)) :=
  Q_chainmap targets
    (λ target,
       invoke (NpmUninstall (uninstallName target) projectRoot)
         (npmUninstall (uninstallName target) projectRoot opts)).
End common.

Module Rev1.
Section flow.
Context `{Host}.
Local Open Scope async_scope.

(** The state of the [async] callback of lines 41-74: the working
    copy and the flag [hasUpdatedPackage]. *)
Definition persistTarget (projectRoot target : string)
    (acc : RawManifest * bool) : async Run (RawManifest * bool) :=
  let platformName := JS.before_at target in
  removeEngineFromConfig projectRoot platformName
    ("Removing platform " +:+ target +:+ " from config.xml file...") ;;
  match raw_cordova acc.1 ≫= raw_platforms with
  | Some l =>
      if JS.includes platformName l then
        emit "log" ("Removing " +:+ platformName +:+
                    " from cordova.platforms array in package.json") ;;
        Async.resolve
          (mkRawManifest
             (Some (mkRawCordova (Some (filter (λ p, p ≠ platformName) l)) None)),
           true)
      else Async.resolve acc
  | None => Async.resolve acc
  end.

Fixpoint persistTargets (projectRoot : string) (targets : list string)
    (acc : RawManifest * bool) : async Run (RawManifest * bool) :=
  match targets with
  | [] => Async.resolve acc
  | target :: rest =>
      acc' <- persistTarget projectRoot target acc ;;
      persistTargets projectRoot rest acc'
  end.

(** Lines 41-74. *)
Definition persist (projectRoot : string) (targets : list string) (opts : Opts)
    : async Run unit :=
  pkgJson <- invoke LoadPackageJson (λ w, (PackageJson_load projectRoot w, w)) ;;
  if opts_save opts then
    acc <- persistTargets projectRoot targets (pkgJson, false) ;;
    if acc.2 then invoke (SaveRaw acc.1) (PackageJson_save projectRoot acc.1)
    else Async.resolve ()
  else Async.resolve ().

Definition remove (projectRoot : string) (targets : option (list string))
    (opts : Opts) : async Run unit :=
  if bool_decide (length (default [] targets) = 0)
  then Async.reject no_platform_specified
  else
    let targets := default [] targets in
    invoke (Fire "before_platform_rm") (fire "before_platform_rm" opts) ;;
    deleteFromDisk projectRoot targets ;;
    persist projectRoot targets opts ;;
    announce targets ;;
    uninstallFromNodeModules projectRoot targets opts ;;
    invoke (Fire "after_platform_rm") (fire "after_platform_rm" opts).
End flow.
End Rev1.

Module Rev2.
Section flow.
Context `{Host}.
Local Open Scope async_scope.

Fixpoint join_names (names : list string) : string :=
  match names with
  | [] => EmptyString
  | [n] => n
  | n :: rest => n +:+ ", " +:+ join_names rest
  end.

(** Lines 131-161. *)
Definition persist (projectRoot : string) (targets : list string) (opts : Opts)
    : async Run unit :=
  if opts_save opts then
    content <- invoke LoadPackageJson (λ w, (loadPackageJson projectRoot w, w)) ;;
    let platformNames := JS.before_at <$> targets in
    let updatedPlatforms :=
      filter (λ platform, JS.includes platform platformNames = false)
        (cordova_platforms (cordova content)) in
    let cordova' := mkCordova updatedPlatforms (cordova_plugins (cordova content)) in
    let content' := update (mkPartial None None None None (Some cordova')) content in
    invoke (Save content') (savePackageJson projectRoot content') ;;
    emit "log" ("Removing the following platform(s) " +:+ JS.dq +:+
                join_names platformNames +:+ JS.dq +:+
                " from cordova.platforms array in package.json") ;;
    Async.forEach
      (λ platformName,
         removeEngineFromConfig projectRoot platformName
           ("Removing platform " +:+ JS.dq +:+ platformName +:+ JS.dq +:+
            " from config.xml file..."))
      platformNames
  else Async.resolve ().

Definition remove (projectRoot : string) (targets : option (list string))
    (opts : Opts) : async Run unit :=
  if bool_decide (length (default [] targets) = 0)
  then Async.reject no_platform_specified
  else
    let targets := default [] targets in
    invoke (Fire "before_platform_rm") (fire "before_platform_rm" opts) ;;
    deleteFromDisk projectRoot targets ;;
    persist projectRoot targets opts ;;
    announce targets ;;
    uninstallFromNodeModules projectRoot targets opts ;;
    invoke (Fire "after_platform_rm") (fire "after_platform_rm" opts).
End flow.
End Rev2.

End PlatformRemove.

(** ** What an asynchronous step adds to a trace *)

Section extends.
Context {S E : Type} (tr : S → list E).

(** [m] only adds to the trace, and how it settles and what it adds are
    related by [P]. *)
Definition extends {A} (m : async S A) (P : outcome A → list E → Prop) : Prop :=
  ∀ s, ∃ new, tr (m s).2 = tr s ++ new ∧ P (m s).1 new.

End extends.

(** Every run of [m] ends in a state that [R] relates to the one it
    started in. *)
Definition keeps {S A : Type} (R : S → S → Prop) (m : async S A) : Prop :=
  ∀ s, R s (m s).2.

(** * What the flows are checked against *)

(** ** Readings of a restore run *)

Module RestoreSpec.
Import Restore.

Section readings.
Context `{Host}.

(** A run that starts on project [w] with nothing emitted yet. *)
Definition start (w : World) : Run :=
  mkRun w 0 [] (package_json w) EmptyString.

(** The install primitives called, in order. *)
Definition invocations (tr : list event) : list call :=
  omap (λ ev, match ev with Invoke c => Some c | _ => None end) tr.

(** The installs that failed, with their errors. *)
Definition failures (tr : list event) : list (call * string) :=
  omap (λ ev, match ev with Settle c (Rejected e) => Some (c, e) | _ => None end) tr.

(** The warnings sent to the event sink. *)
Definition warnings (tr : list event) : list string :=
  omap (λ ev, match ev with
              | Emit level msg => if String.eqb level "warn" then Some msg else None
              | _ => None
              end) tr.

(** How often [package.json] was written. *)
Definition saves (tr : list event) : nat :=
  length (omap (λ ev, match ev with Save m => Some m | _ => None end) tr).

(** The working copy that migration arrives at, written without the
    event sink: lines 43-89 as a function of the two stores. *)
Definition migratedEngine (pkgPlatforms : list string) (pkgSpecs : gmap string string)
    (m : Manifest) (engine : Engine) : Manifest :=
  let m1 :=
    match JS.when_truthy (engine_spec engine) with
    | Some spec =>
        if JS.has_key (platformModule engine) pkgSpecs then m
        else update (mkPartial None None None
                       (Some (<[platformModule engine := spec]> (devDependencies m))) None) m
    | None => m
    end in
  if JS.includes (engine_name engine) pkgPlatforms then m1
  else update (mkPartial None None None None
                 (Some (mkCordova (cordova_platforms (cordova m1) ++ [engine_name engine])
                                  (cordova_plugins (cordova m1))))) m1.

Definition migratedPlatforms (w : World) : Manifest :=
  let m0 := update (configToPkgJson (config_xml w)) (package_json w) in
  fold_left
    (migratedEngine (cordova_platforms (cordova m0))
       (JS.assign (dependencies m0) (devDependencies m0)))
    (cfg_engines (config_xml w)) m0.

(** Lines 162-191 in the same way. *)
Definition migratedPlugin (cfg : ConfigXml) (pkgPluginIDs : list string)
    (pkgSpecs : gmap string string) (m : Manifest) (plID : string) : Manifest :=
  if JS.includes plID pkgPluginIDs then m
  else
    match getPlugin cfg plID with
    | None => m
    | Some cfgPlugin =>
        let m1 :=
          match JS.when_truthy (plugin_spec cfgPlugin) with
          | Some spec =>
              if JS.has_key plID pkgSpecs then m
              else update (mkPartial None None None
                             (Some (<[plID := spec]> (devDependencies m))) None) m
          | None => m
          end in
        update (mkPartial None None None None
                  (Some (mkCordova (cordova_platforms (cordova m1))
                           (JS.set plID (plugin_variables cfgPlugin)
                              (cordova_plugins (cordova m1)))))) m1
    end.

Definition migratedPlugins (w : World) : Manifest :=
  let m0 := package_json w in
  fold_left
    (migratedPlugin (config_xml w) (JS.keys (cordova_plugins (cordova m0)))
       (JS.assign (dependencies m0) (devDependencies m0)))
    (getPluginIdList (config_xml w)) m0.

End readings.

(** The chain that [reduce] builds, link by link: how the promise so far
    settled decides which of the two callbacks runs for the next item. *)
Section chains.
Context `{Host} {Item : Type}.
Variables (cb : Item → async Run unit) (err : string → async Run unit).

Fixpoint run (items : list Item) (r : outcome unit) (s : Run) : outcome unit * Run :=
  match items with
  | [] => (r, s)
  | item :: rest =>
      let '(r', s') := match r with
                       | Fulfilled _ => cb item s
                       | Rejected e => err e s
                       end in
      run rest r' s'
  end.

(** The installs a restore owes: every item in turn that is absent from
    disk when its turn comes and that no target filter excludes, whatever
    became of the installs before it. *)
Variables (skip : Item → World → bool) (call_of : Item → call).

Fixpoint scheduled (items : list Item) (w : World) : list call :=
  match items with
  | [] => []
  | item :: rest =>
      if skip item w then scheduled rest w
      else call_of item :: scheduled rest (perform (call_of item) w).2
  end.
End chains.

(** The two restores run the same kind of chain. What tells them apart:
    when an item is left alone, what is called for it, under which name,
    with which messages, and whether the rejection handler passes the
    error on. *)
Section links.
Context `{Host}.

Record Links (Item : Type) := mkLinks {
  skip : Item → World → bool;
  call_of : Item → call;
  name_of : Item → string;
  found : Item → string;
  warning : string → string → string;
  rethrow : bool }.
Global Arguments skip {_} _ _ _.
Global Arguments call_of {_} _ _.
Global Arguments name_of {_} _ _.
Global Arguments found {_} _ _.
Global Arguments warning {_} _ _ _.
Global Arguments rethrow {_} _.

Definition link_cb {Item} (L : Links Item) (item : Item) : async Run unit := λ s,
  if skip L item (world s) then (Fulfilled (), set_itemName (name_of L item) s)
  else invoke (call_of L item)
         (log (Emit "log" (found L item)) (set_itemName (name_of L item) s)).

Definition link_err {Item} (L : Links Item) (e : string) : async Run unit := λ s,
  (if rethrow L then Rejected e else Fulfilled (),
   log (Emit "warn" (warning L (itemName s) e)) (set_exitCode 1 s)).

End links.

Section owed.
Context `{Host}.

(** The message that announces an install. *)
Definition platform_found (platform : PlatformInfo) : string :=
  "Discovered platform " +:+ JS.dq +:+ platform_name platform +:+ JS.dq +:+
  ". Adding it to the project".

Definition plugin_found (plugin : PluginConfig) : string :=
  "Discovered plugin " +:+ JS.dq +:+ pluginConfig_name plugin +:+ JS.dq +:+
  ". Adding it to the project".

Definition platform_call (opts : Opts) (platform : PlatformInfo) : call :=
  PlatformAdd (installFrom (platform_name platform) (platform_spec platform)) opts.

Definition platform_scheduled (targets : option (list string)) (opts : Opts)
    : list PlatformInfo → World → list call :=
  scheduled (λ platform, platform_skipped targets (platform_name platform))
    (platform_call opts).

Definition plugin_call (args : Args) (plugin : PluginConfig) : call :=
  PluginAdd (installFrom (pluginConfig_name plugin) (pluginConfig_spec plugin))
    (plugin_options args plugin).

Definition plugin_scheduled (args : Args) : list PluginConfig → World → list call :=
  scheduled
    (λ plugin, existsSync (path_join pluginsRoot (pluginConfig_name plugin)))
    (plugin_call args).

Definition platform_links (targets : option (list string)) (opts : Opts)
    : Links PlatformInfo :=
  mkLinks _ (λ platform, platform_skipped targets (platform_name platform))
    (platform_call opts) platform_name platform_found platform_warning true.

Definition plugin_links (args : Args) : Links PluginConfig :=
  mkLinks _ (λ plugin, existsSync (path_join pluginsRoot (pluginConfig_name plugin)))
    (plugin_call args) pluginConfig_name plugin_found plugin_warning false.

End owed.

End RestoreSpec.

(** ** Sentences of the design document, as they are written *)

Module Stated.
Import Restore RestoreSpec.

Section restore.
Context `{Host}.

(** 4.6 and 8, for either chain: when an install fails the failure is
    recorded as a warning with the item's name and the error, the exit
    code is set, every owed install is still made once and in order, and
    the caller is not rejected. *)
Definition chain_isolates_failures {Item : Type}
    (chain : list Item → async Run unit)
    (owed : list Item → World → list call)
    (name_of : Item → string) (warning : string → string → string)
    (items : list Item) (s : Run) : Prop :=
  ∀ tr, trace (chain items s).2 = trace s ++ tr → failures tr ≠ [] →
    (chain items s).1 = Fulfilled () ∧
    exitCode (chain items s).2 = 1 ∧
    invocations tr = owed items (world s) ∧
    ∀ c e, (c, e) ∈ failures tr →
      ∃ item, item ∈ items ∧ Emit "warn" (warning (name_of item) e) ∈ tr.

Definition platform_chain_isolates (targets : option (list string)) (opts : Opts)
    : list PlatformInfo → Run → Prop :=
  chain_isolates_failures (platform_chain targets opts)
    (platform_scheduled targets opts) platform_name platform_warning.

Definition plugin_chain_isolates (args : Args) : list PluginConfig → Run → Prop :=
  chain_isolates_failures (plugin_chain args) (plugin_scheduled args)
    pluginConfig_name plugin_warning.

(** 3 and 8: a declared item with no presence on disk and not excluded by
    the target filter is installed. *)
Definition platforms_installed_when_missing (targets : option (list string))
    (opts : Opts) (w : World) : Prop :=
  invocations (trace (installPlatformsFromConfigXML targets opts (start w)).2) =
  platform_scheduled targets opts (platformInfo (migratedPlatforms w))
    (world (reconcilePlatforms (start w)).2).

Definition plugins_installed_when_missing (args : Args) (w : World) : Prop :=
  invocations (trace (installPluginsFromConfigXML args (start w)).2) =
  plugin_scheduled args (pluginConfigs (migratedPlugins w))
    (world (reconcilePlugins (start w)).2).




(** 4.4 (2): a front-matter field that the manifest already has is left
    as it is. *)
Definition front_matter_kept (w : World) : Prop :=
  let m := package_json w in
  let m' := pkgJson (reconcilePlatforms (start w)).2 in
  (JS.truthy (pkg_name m) = true → pkg_name m' = pkg_name m) ∧
  (JS.truthy (pkg_version m) = true → pkg_version m' = pkg_version m) ∧
  (JS.truthy (pkg_displayName m) = true → pkg_displayName m' = pkg_displayName m).

End restore.

(** 4.7 (1): a target that is not installed under its own name is tried
    once more with the prefix, whatever it looks like. *)
Definition resolves_by_prefix (target : string) (installed : list string) : Prop :=
  (target ∈ installed → PluginId.validatePluginId target installed = Some target) ∧
  (target ∉ installed → PluginId.prefix +:+ target ∈ installed →
   PluginId.validatePluginId target installed = Some (PluginId.prefix +:+ target)) ∧
  (target ∉ installed → PluginId.prefix +:+ target ∉ installed →
   PluginId.validatePluginId target installed = None).

End Stated.

(** ** Example projects *)

Module Demo.
Import Restore RestoreSpec.

Definition add_path (p : string) (w : World) : World :=
  mkWorld (config_xml w) (package_json w) (paths w ++ [p]).

Definition lower (c : ascii) : ascii :=
  let n := nat_of_ascii c in
  if (65 <=? n)%nat && (n <=? 90)%nat then ascii_of_nat (n + 32) else c.

Fixpoint lowercase (s : string) : string :=
  match s with
  | EmptyString => EmptyString
  | String c rest => String (lower c) (lowercase rest)
  end.

(** A host whose registry lacks [ios@^7.0.0] and [cordova-plugin-camera];
    every other install succeeds and leaves the item's directory behind.
    Specifiers that start with a caret stand for the valid ranges. *)
Definition host : Host := {|
  Opts := unit;
  getProjectRoot := "/app";
  path_join a b := a +:+ "/" +:+ b;
  validRange spec _ := if String.prefix "^" spec then Some spec else None;
  toLowerCase := lowercase;
  platform_add src _ w :=
    if String.eqb src "ios@^7.0.0" then (Rejected "ETARGET", w)
    else (Fulfilled (), add_path ("/app/platforms/" +:+ JS.before_at src) w);
  plugin_add src _ w :=
    if String.eqb src "cordova-plugin-camera" then (Rejected "ETARGET", w)
    else (Fulfilled (), add_path ("/app/plugins/" +:+ JS.before_at src) w) |}.

Definition no_plugins : JS.obj (gmap string string) := [].

(** The manifest lists [android]; [config.xml] also declares [ios] with a
    range and [browser]. Nothing is on disk. *)
Definition three_platforms : World :=
  mkWorld
    (mkConfigXml (Some "Com.Example.App") (Some "2.0.0") (Some "Example")
       [mkEngine "android" None; mkEngine "ios" (Some "^7.0.0");
        mkEngine "browser" None] [])
    (mkManifest (Some "example") (Some "1.0.0") None ∅ ∅
       (mkCordova ["android"] no_plugins))
    [].


(** Only the manifest declares [android]. *)
Definition manifest_only : World :=
  mkWorld (mkConfigXml None None None [] [])
    (mkManifest None None None ∅ ∅ (mkCordova ["android"] no_plugins)) [].

(** [config.xml] declares two plugins, the manifest none. *)
Definition two_plugins : World :=
  mkWorld
    (mkConfigXml None None None []
       [mkCfgPlugin "cordova-plugin-camera" None ∅;
        mkCfgPlugin "cordova-plugin-file" (Some "^8.0.0")
          {[ "ANDROIDX" := "1.0.0" ]}])
    (mkManifest None None None ∅ ∅ (mkCordova [] no_plugins))
    [].

(** Everything declared is on disk already. *)
Definition restored : World :=
  mkWorld
    (mkConfigXml None None None [mkEngine "android" None]
       [mkCfgPlugin "cordova-plugin-file" None ∅])
    (mkManifest None None None ∅ ∅
       (mkCordova ["android"] [("cordova-plugin-file", ∅)]))
    ["/app/platforms/android"; "/app/plugins/cordova-plugin-file"].

Definition args : Args := mkArgs None None.

(** The items of these projects. *)
Definition android : PlatformInfo := mkPlatformInfo "android" None.
Definition ios : PlatformInfo := mkPlatformInfo "ios" (Some "^7.0.0").
Definition browser : PlatformInfo := mkPlatformInfo "browser" None.
Definition camera : PluginConfig := mkPluginConfig "cordova-plugin-camera" None ∅.
Definition file : PluginConfig :=
  mkPluginConfig "cordova-plugin-file" (Some "^8.0.0") {[ "ANDROIDX" := "1.0.0" ]}.

End Demo.

(** ** Readings of a plugin removal *)

Module PluginRemoveSpec.
Import PluginRemove.

(** The primitives called, in order. *)
Definition calls (tr : list event) : list call :=
  omap (λ ev, match ev with Invoke c => Some c | _ => None end) tr.

(** The calls that read or write one of the two stores. *)
Definition store_call (c : call) : bool :=
  match c with
  | WriteConfig _ | LoadPackageJson | SavePackageJson _ => true
  | _ => false
  end.









Section readings.
Context `{Host}.

(** A removal that starts on project [w] with nothing emitted yet. *)
Definition start (w : World) (o : Opts) : Run := mkRun w o false [].





(** From [s] to [s'] the shared [opts] are as they were and the trace has
    only grown; when [s] does not ask to save, by calls that [allowed]
    lets through. *)
Definition touches (allowed : call → bool) (s s' : Run) : Prop :=
  opts s' = opts s ∧
  ∃ new, trace s' = trace s ++ new ∧
         (opts_save (opts s) = false →
          Forall (λ c, allowed c = true) (calls new)).

End readings.
End PluginRemoveSpec.

(** ** Readings of a platform removal *)

Module PlatformRemoveSpec.
Import PlatformRemove.

Definition calls (tr : list event) : list call :=
  omap (λ ev, match ev with Invoke c => Some c | _ => None end) tr.

(** A reading of a trace: what [of_call] keeps of its calls, in order. *)
Definition reading {X} (of_call : call → option X) (tr : list event) : list X :=
  omap of_call (calls tr).

(** The calls that delete from disk. *)
Definition deletion_of (c : call) : option call :=
  match c with
  | RmSync _ | RemovePlatformPluginsJson _ _ => Some c
  | _ => None
  end.

Definition deletions : list event → list call := reading deletion_of.

(** The engines removed from [config.xml]. *)
Definition engine_of (c : call) : option string :=
  match c with RemoveEngine name => Some name | _ => None end.

Definition engines_removed : list event → list string := reading engine_of.

(** The packages handed to the dependency uninstall. *)
Definition package_of (c : call) : option string :=
  match c with NpmUninstall name _ => Some name | _ => None end.

Definition uninstalled : list event → list string := reading package_of.

(** [content?.cordova?.platforms] *)
Definition listed_platforms (content : RawManifest) : option (list string) :=
  raw_cordova content ≫= raw_platforms.

(** The platform lists written to [package.json]. *)
Definition saved_of (c : call) : option (option (list string)) :=
  match c with
  | SaveRaw content => Some (listed_platforms content)
  | Save content => Some (Some (cordova_platforms (cordova content)))
  | _ => None
  end.

Definition saved_platforms : list event → list (option (list string)) :=
  reading saved_of.

Section readings.
Context `{Host}.

Definition start (w : World) : Run := mkRun w [].

(** What is owed to the disk and to the dependency directory for a list
    of raw targets. *)
Definition owed_deletions (projectRoot : string) (targets : list string) : list call :=
  flat_map (λ target, [RmSync (path_join [projectRoot; "platforms"; target]);
                       RemovePlatformPluginsJson projectRoot target]) targets.

Definition owed_uninstalls (targets : list string) : list string :=
  uninstallName <$> targets.


(** However [m] settles, its reading is [L]. *)
Definition every {X A} (of_call : call → option X) (m : async Run A) (L : list X) : Prop :=
  extends trace m (λ _ new, reading of_call new = L).

(** The reading of [m] is the front of [L], and all of it when [m] is
    fulfilled. *)
Definition yields {X A} (of_call : call → option X) (m : async Run A) (L : list X) : Prop :=
  extends trace m (λ r new,
    reading of_call new `prefix_of` L ∧
    ((∃ a, r = Fulfilled a) → reading of_call new = L)).

(** The reading of [m] is taken from [L], in order. *)
Definition within {X A} (of_call : call → option X) (m : async Run A) (L : list X) : Prop :=
  extends trace m (λ _ new, reading of_call new `sublist_of` L).

End readings.
End PlatformRemoveSpec.

(** ** Sentences of the design document on removal, as they are written *)

Module StatedRemoval.
Import PluginRemove PluginRemoveSpec.

Section removal.
Context `{Host}.



End removal.
End StatedRemoval.

(** ** Example projects for removal *)

Module DemoRemoval.

(** A project for plugin removal: its plugin and platform directories,
    the plugin directories whose [plugin.xml] cannot be read, whether
    the plugins directory is read-only, and what reading [package.json]
    gives. There is no [config.xml]. *)
Record Project := mkProject {
  plugin_dirs : list string;
  platform_dirs : list string;
  unreadable : list string;
  read_only : bool;
  manifest : outcome Manifest }.

Definition no_config : ConfigXml := mkConfigXml None None None [] [].

Definition plugin_host : PluginRemove.Host := {|
  PluginRemove.World := Project;
  PluginRemove.PluginInfo := unit;
  PluginRemove.binname := "cordova";
  PluginRemove.path_join parts := String.concat "/" parts;
  PluginRemove.projectConfig root := root +:+ "/config.xml";
  PluginRemove.findPlugins _ w := plugin_dirs w;
  PluginRemove.listPlatforms _ w := platform_dirs w;
  PluginRemove.existsSync _ _ := false;
  PluginRemove.parseConfig _ _ := no_config;
  PluginRemove.writeConfig _ _ w := (Fulfilled (), w);
  PluginRemove.loadPackageJson _ w := manifest w;
  PluginRemove.savePackageJson _ m w :=
    (Fulfilled (),
     mkProject (plugin_dirs w) (platform_dirs w) (unreadable w) (read_only w) (Fulfilled m));
  PluginRemove.fire _ _ w := (Fulfilled (), w);
  PluginRemove.getPluginInfo dir w :=
    if JS.includes dir (unreadable w) then Rejected "Cannot find plugin.xml"
    else Fulfilled ();
  PluginRemove.mergeVariables _ _ o := Fulfilled (PluginRemove.opts_cli_variables o);
  PluginRemove.uninstallPlatform _ _ _ _ _ w := (Fulfilled true, w);
  PluginRemove.uninstallPlugin target _ _ w :=
    if read_only w then (Rejected "EPERM", w)
    else (Fulfilled (),
          mkProject (filter (λ d, d ≠ target) (plugin_dirs w)) (platform_dirs w)
            (unreadable w) (read_only w) (manifest w));
  PluginRemove.preparePlatforms _ _ _ w := (Fulfilled (), w);
  PluginRemove.remove_fetch_metadata _ _ w := (Fulfilled (), w) |}.

Definition empty_manifest : Manifest :=
  mkManifest None None None ∅ ∅ (mkCordova [] []).

(** [cordova-plugin-foo] on [android] and [ios], ready to be removed. *)
Definition healthy : Project :=
  mkProject ["cordova-plugin-foo"] ["android"; "ios"] [] false (Fulfilled empty_manifest).




Definition saving : PluginRemove.Opts := PluginRemove.mkOpts ["foo"] true false ∅ [].

(** A project for platform removal: the engines of [config.xml], the
    platform list of [package.json] and the packages that cannot be
    uninstalled. *)
Record PlatformProject := mkPlatformProject {
  engines : list Engine;
  listed : list string;
  pinned : list string }.

Definition platform_host : PlatformRemove.Host := {|
  PlatformRemove.World := PlatformProject;
  PlatformRemove.binname := "cordova";
  PlatformRemove.path_join parts := String.concat "/" parts;
  PlatformRemove.projectConfig root := root +:+ "/config.xml";
  PlatformRemove.known target := JS.includes target ["android"; "ios"; "browser"];
  PlatformRemove.parseConfig _ w := mkConfigXml None None None (engines w) [];
  PlatformRemove.writeConfig _ cfg w :=
    (Fulfilled (), mkPlatformProject (cfg_engines cfg) (listed w) (pinned w));
  PlatformRemove.fire _ _ w := (Fulfilled (), w);
  PlatformRemove.rmSync _ w := (Fulfilled (), w);
  PlatformRemove.removePlatformPluginsJson _ _ w := (Fulfilled (), w);
  PlatformRemove.PackageJson_load _ w :=
    Fulfilled (PlatformRemove.mkRawManifest
                 (Some (PlatformRemove.mkRawCordova (Some (listed w)) None)));
  PlatformRemove.PackageJson_save _ content w :=
    (Fulfilled (),
     mkPlatformProject (engines w)
       (default [] (PlatformRemove.raw_cordova content ≫= PlatformRemove.raw_platforms))
       (pinned w));
  PlatformRemove.loadPackageJson _ w :=
    Fulfilled (mkManifest None None None ∅ ∅ (mkCordova (listed w) []));
  PlatformRemove.savePackageJson _ content w :=
    (Fulfilled (),
     mkPlatformProject (engines w) (cordova_platforms (cordova content)) (pinned w));
  PlatformRemove.npmUninstall name _ _ w :=
    if JS.includes name (pinned w) then (Rejected "EPERM", w) else (Fulfilled (), w) |}.

(** [android] and [ios] declared in both stores. *)
Definition two_platforms : PlatformProject :=
  mkPlatformProject [mkEngine "android" (Some "^13.0.0"); mkEngine "ios" None]
    ["android"; "ios"] [].

End DemoRemoval.

(** ** Objects kept in key order *)

Section objects.
Context {V : Type}.
Implicit Types (o : JS.obj V) (k : string) (v : V).

Lemma get_set_eq k v o : JS.get k (JS.set k v o) = Some v.
Proof.
  induction o as [|[k' v'] o IH]; simpl.
  - by rewrite String.eqb_refl.
  - destruct (String.eqb k k') eqn:E; simpl.
    + by rewrite String.eqb_refl.
    + by rewrite E.
Qed.

Lemma get_set_ne k k' v o : k ≠ k' → JS.get k' (JS.set k v o) = JS.get k' o.
Proof.
  intros Hne. induction o as [|[k0 v0] o IH]; simpl.
  - destruct (String.eqb k' k) eqn:E; [|done].
    apply String.eqb_eq in E. congruence.
  - destruct (String.eqb k k0) eqn:E; simpl.
    + apply String.eqb_eq in E. subst k0.
      destruct (String.eqb k' k) eqn:E'; [|done].
      apply String.eqb_eq in E'. congruence.
    + by rewrite IH.
Qed.

Lemma get_is_Some k o : is_Some (JS.get k o) ↔ k ∈ JS.keys o.
Proof.
  unfold JS.keys. induction o as [|[k' v'] o IH]; simpl.
  - split; [by intros [? ?] | by intros ?%elem_of_nil].
  - destruct (String.eqb k k') eqn:E.
    + apply String.eqb_eq in E. subst. split; [intros _; left | by eauto].
    + apply String.eqb_neq in E. rewrite IH, elem_of_cons. tauto.
Qed.

Lemma keys_set k v o :
  JS.keys (JS.set k v o) = if JS.includes k (JS.keys o) then JS.keys o else JS.keys o ++ [k].
Proof.
  unfold JS.keys, JS.includes. induction o as [|[k' v'] o IH].
  - case_bool_decide as D; [by apply elem_of_nil in D | done].
  - cbn [JS.set fmap list_fmap fst].
    destruct (String.eqb k k') eqn:E.
    + apply String.eqb_eq in E. subst.
      clear IH. case_bool_decide as D; [reflexivity | exfalso; set_solver].
    + apply String.eqb_neq in E. cbn [fmap list_fmap fst]. rewrite IH.
      repeat case_bool_decide; try reflexivity; exfalso; set_solver.
Qed.

End objects.

(** * Properties *)

(** ** Restore: reconciliation of the two stores *)

Section restore_reconciliation.
Import Restore RestoreSpec.
Context `{Host}.

Definition is_emit (ev : event) : Prop :=
  match ev with Emit _ _ => True | _ => False end.

Lemma omap_emit_nil {B} (f : event → option B) (tr : list event) :
  (∀ l m, f (Emit l m) = None) → Forall is_emit tr → omap f tr = [].
Proof.
  intros Hf. induction 1 as [|ev tr Hev _ IH]; [done|].
  destruct ev; try done. simpl. rewrite Hf. exact IH.
Qed.

Lemma migrateEngine_run P S e s :
  ∃ tr, migrateEngine P S e s =
          (Fulfilled (),
           mkRun (world s) (exitCode s) (trace s ++ tr)
             (migratedEngine P S (pkgJson s) e) (itemName s))
        ∧ Forall is_emit tr.
Proof.
  unfold migrateEngine, migratedEngine.
  destruct s as [w x tr m n]; simpl.
  destruct (JS.when_truthy (engine_spec e)) as [spec|];
    destruct (JS.includes (engine_name e) P); simpl;
    try destruct (JS.has_key (platformModule e) S); simpl.
  all: try (exists []; rewrite app_nil_r; by split).
  all: eexists [_]; split; [reflexivity | by repeat constructor].
Qed.

Lemma migrateEngines_run P S l s :
  ∃ tr, Async.forEach (migrateEngine P S) l s =
          (Fulfilled (),
           mkRun (world s) (exitCode s) (trace s ++ tr)
             (fold_left (migratedEngine P S) l (pkgJson s)) (itemName s))
        ∧ Forall is_emit tr.
Proof.
  revert s. induction l as [|e l IH]; intros s.
  - exists []. rewrite app_nil_r. by destruct s.
  - destruct (migrateEngine_run P S e s) as (tr1 & E1 & H1).
    simpl. unfold Async.and_then. rewrite E1.
    destruct (IH (mkRun (world s) (exitCode s) (trace s ++ tr1)
                    (migratedEngine P S (pkgJson s) e) (itemName s)))
      as (tr2 & E2 & H2).
    simpl in E2. rewrite E2. exists (tr1 ++ tr2). rewrite app_assoc.
    split; [done | by apply Forall_app].
Qed.

(** Everything [reconcilePlatforms] does, in one equation. *)
Lemma reconcilePlatforms_run s :
  let w := world s in
  let m' := migratedPlatforms w in
  let changed :=
    bool_decide (length (cordova_platforms (cordova m')) ≠
                 length (cordova_platforms (cordova (package_json w)))) in
  ∃ tr, reconcilePlatforms s =
          (Fulfilled (platformInfo m'),
           mkRun (if changed then mkWorld (config_xml w) m' (paths w) else w)
             (exitCode s)
             (trace s ++ tr ++ (if changed then [Save m'] else []))
             m' (itemName s))
        ∧ Forall is_emit tr.
Proof.
  intros w m' changed. unfold reconcilePlatforms.
  destruct s as [w0 x tr0 m0 n]. simpl in w. subst w.
  unfold Async.and_then at 1. simpl.
  unfold Async.and_then at 1. simpl.
  unfold Async.and_then at 1. simpl.
  unfold Async.and_then at 1. simpl.
  unfold Async.and_then at 1. simpl.
  unfold Async.and_then at 1.
  match goal with |- context [Async.forEach ?f ?l ?s] =>
    destruct (migrateEngines_run
                (cordova_platforms (cordova (package_json w0)))
                (JS.assign (dependencies (package_json w0))
                   (devDependencies
                      (update (configToPkgJson (config_xml w0)) (package_json w0))))
                l s) as (tr & E & Htr)
  end.
  simpl in E. rewrite E. clear E. simpl.
  unfold Async.and_then, Async.gets, Async.resolve. simpl.
  change (fold_left _ _ _) with m'.
  fold changed.
  exists (Emit "verbose"
            "Checking for saved platforms that haven't been added to the project" :: tr).
  split; [| by constructor].
  destruct changed; simpl; unfold pkgJson_save, Async.modify, log, set_world; simpl;
    rewrite <- ?app_assoc; simpl; try rewrite app_nil_r; done.
Qed.

Lemma getPlugin_listed cfg plID :
  plID ∈ getPluginIdList cfg → is_Some (getPlugin cfg plID).
Proof.
  unfold getPluginIdList, getPlugin.
  induction (cfg_plugins cfg) as [|p l IH]; simpl.
  - by intros ?%elem_of_nil.
  - intros [->|Hin]%elem_of_cons.
    + by rewrite String.eqb_refl.
    + destruct (String.eqb plID (plugin_id p)); [done | by apply IH].
Qed.

Lemma migratePlugin_run cfg P S plID s :
  is_Some (getPlugin cfg plID) →
  ∃ tr, migratePlugin cfg P S plID s =
          (Fulfilled (),
           mkRun (world s) (exitCode s) (trace s ++ tr)
             (migratedPlugin cfg P S (pkgJson s) plID) (itemName s))
        ∧ Forall is_emit tr.
Proof.
  intros [p Hp]. unfold migratePlugin, migratedPlugin. rewrite Hp.
  destruct s as [w x tr m n]; simpl.
  destruct (JS.includes plID P); simpl.
  { exists []. rewrite app_nil_r. by split. }
  destruct (JS.when_truthy (plugin_spec p)) as [spec|]; simpl;
    try destruct (JS.has_key plID S); simpl.
  all: eexists [_]; split; [reflexivity | by repeat constructor].
Qed.

Lemma migratePlugins_run cfg P S l s :
  Forall (λ plID, is_Some (getPlugin cfg plID)) l →
  ∃ tr, Async.forEach (migratePlugin cfg P S) l s =
          (Fulfilled (),
           mkRun (world s) (exitCode s) (trace s ++ tr)
             (fold_left (migratedPlugin cfg P S) l (pkgJson s)) (itemName s))
        ∧ Forall is_emit tr.
Proof.
  intros Hl. revert s. induction Hl as [|plID l Hp _ IH]; intros s.
  - exists []. rewrite app_nil_r. by destruct s.
  - destruct (migratePlugin_run cfg P S plID s Hp) as (tr1 & E1 & H1).
    simpl. unfold Async.and_then. rewrite E1.
    destruct (IH (mkRun (world s) (exitCode s) (trace s ++ tr1)
                    (migratedPlugin cfg P S (pkgJson s) plID) (itemName s)))
      as (tr2 & E2 & H2).
    simpl in E2. rewrite E2. exists (tr1 ++ tr2). rewrite app_assoc.
    split; [done | by apply Forall_app].
Qed.

(** Everything [reconcilePlugins] does, in one equation. *)
Lemma reconcilePlugins_run s :
  let w := world s in
  let m' := migratedPlugins w in
  let changed :=
    bool_decide (length (JS.keys (cordova_plugins (cordova m'))) ≠
                 length (JS.keys (cordova_plugins (cordova (package_json w))))) in
  ∃ tr, reconcilePlugins s =
          (Fulfilled (pluginConfigs m'),
           mkRun (if changed then mkWorld (config_xml w) m' (paths w) else w)
             (exitCode s)
             (trace s ++ tr ++ (if changed then [Save m'] else []))
             m' (itemName s))
        ∧ Forall is_emit tr.
Proof.
  intros w m' changed. unfold reconcilePlugins.
  destruct s as [w0 x tr0 m0 n]. simpl in w. subst w.
  do 5 (unfold Async.and_then at 1; simpl).
  unfold Async.and_then at 1.
  match goal with |- context [Async.forEach ?f ?l ?s] =>
    destruct (migratePlugins_run (config_xml w0)
                (JS.keys (cordova_plugins (cordova (package_json w0))))
                (JS.assign (dependencies (package_json w0))
                   (devDependencies (package_json w0)))
                l s) as (tr & E & Htr)
  end.
  { apply Forall_forall. intros. by apply getPlugin_listed. }
  simpl in E. rewrite E. clear E. simpl.
  unfold Async.and_then, Async.gets, Async.resolve. simpl.
  change (fold_left _ _ _) with m'.
  fold changed.
  exists (Emit "verbose"
            "Checking for saved plugins that haven't been added to the project" :: tr).
  split; [| by constructor].
  destruct changed; simpl; unfold pkgJson_save, Async.modify, log, set_world; simpl;
    rewrite <- ?app_assoc; simpl; try rewrite app_nil_r; done.
Qed.
End restore_reconciliation.

(** ** Restore: what migration does to the manifest *)

Section migration.
Import Restore RestoreSpec.
Context `{Host}.
Implicit Types (P : list string) (S : gmap string string) (m : Manifest).

Lemma migratedEngine_kept P S m e :
  let m' := migratedEngine P S m e in
  pkg_name m' = pkg_name m ∧ pkg_version m' = pkg_version m ∧
  pkg_displayName m' = pkg_displayName m ∧ dependencies m' = dependencies m ∧
  cordova_plugins (cordova m') = cordova_plugins (cordova m).
Proof.
  unfold migratedEngine.
  destruct (JS.when_truthy (engine_spec e)), (JS.includes (engine_name e) P);
    try destruct (JS.has_key (platformModule e) S); by simpl.
Qed.

Lemma migratedEngines_kept P S l m :
  let m' := fold_left (migratedEngine P S) l m in
  pkg_name m' = pkg_name m ∧ pkg_version m' = pkg_version m ∧
  pkg_displayName m' = pkg_displayName m ∧ dependencies m' = dependencies m ∧
  cordova_plugins (cordova m') = cordova_plugins (cordova m).
Proof.
  revert m. induction l as [|e l IH]; intros m; simpl; [done|].
  destruct (IH (migratedEngine P S m e)) as (-> & -> & -> & -> & ->).
  apply migratedEngine_kept.
Qed.

Lemma migratedEngine_platforms P S m e :
  cordova_platforms (cordova (migratedEngine P S m e)) =
  cordova_platforms (cordova m) ++
    (if JS.includes (engine_name e) P then [] else [engine_name e]).
Proof.
  unfold migratedEngine.
  destruct (JS.when_truthy (engine_spec e)), (JS.includes (engine_name e) P);
    try destruct (JS.has_key (platformModule e) S); simpl; by rewrite ?app_nil_r.
Qed.

(** The platform list only grows, by the engines it did not list, in the
    order of [config.xml]. *)
Lemma migratedEngines_platforms P S l m :
  cordova_platforms (cordova (fold_left (migratedEngine P S) l m)) =
  cordova_platforms (cordova m) ++
    (engine_name <$> filter (λ e, engine_name e ∉ P) l).
Proof.
  revert m. induction l as [|e l IH]; intros m; simpl.
  - by rewrite app_nil_r.
  - rewrite IH, migratedEngine_platforms, filter_cons. unfold JS.includes.
    case_bool_decide; case_decide; try done; simpl.
    + by rewrite app_nil_r.
    + by rewrite <- app_assoc.
Qed.

Lemma migratedEngine_devDependencies P S m e k :
  devDependencies (migratedEngine P S m e) !! k =
  match JS.when_truthy (engine_spec e) with
  | Some spec =>
      if JS.has_key (platformModule e) S then devDependencies m !! k
      else if decide (platformModule e = k) then Some spec
           else devDependencies m !! k
  | None => devDependencies m !! k
  end.
Proof.
  unfold migratedEngine.
  destruct (JS.when_truthy (engine_spec e)), (JS.includes (engine_name e) P);
    try destruct (JS.has_key (platformModule e) S); simpl; try done.
  all: case_decide; subst; by rewrite ?lookup_insert_eq, ?lookup_insert_ne.
Qed.

(** A dependency the manifest already names is never written again. *)
Lemma migratedEngines_devDependencies_kept P S l m k :
  JS.has_key k S = true →
  devDependencies (fold_left (migratedEngine P S) l m) !! k = devDependencies m !! k.
Proof.
  intros Hk. revert m. induction l as [|e l IH]; intros m; simpl; [done|].
  rewrite IH, migratedEngine_devDependencies.
  destruct (JS.when_truthy (engine_spec e)); [|done].
  destruct (JS.has_key (platformModule e) S) eqn:E; [done|].
  case_decide; [congruence | done].
Qed.

(** A specifier of [config.xml] whose module the manifest does not name
    ends up under [devDependencies]; of several engines of one module
    the last one with a specifier is recorded. *)
Lemma migratedEngines_devDependencies_new P S l m e spec :
  e ∈ l → JS.when_truthy (engine_spec e) = Some spec →
  JS.has_key (platformModule e) S = false →
  ∃ e' spec', e' ∈ l ∧ platformModule e' = platformModule e ∧
              JS.when_truthy (engine_spec e') = Some spec' ∧
              devDependencies (fold_left (migratedEngine P S) l m)
                !! platformModule e = Some spec'.
Proof.
  intros Hin Hspec Hkey. revert m e spec Hin Hspec Hkey.
  induction l as [|x l IH] using rev_ind; intros m e spec Hin Hspec Hkey.
  - by apply elem_of_nil in Hin.
  - rewrite fold_left_app. simpl. rewrite migratedEngine_devDependencies.
    destruct (JS.when_truthy (engine_spec x)) as [sx|] eqn:Ex.
    + destruct (decide (platformModule x = platformModule e)) as [Eq|Ne].
      * rewrite Eq, Hkey. exists x, sx.
        split_and!; try done. apply elem_of_app. right. by left.
      * assert (e ∈ l) as Hl.
        { apply elem_of_app in Hin as [?|Hx]; [done|].
          apply list_elem_of_singleton in Hx. by subst. }
        destruct (IH m e spec Hl Hspec Hkey) as (e' & s' & ? & ? & ? & Hlk).
        exists e', s'. split_and!; try done; [apply elem_of_app; by left|].
        by destruct (JS.has_key (platformModule x) S).
    + assert (e ∈ l) as Hl.
      { apply elem_of_app in Hin as [?|Hx]; [done|].
        apply list_elem_of_singleton in Hx. subst. congruence. }
      destruct (IH m e spec Hl Hspec Hkey) as (e' & s' & ? & ? & ? & Hlk).
      exists e', s'. split_and!; try done. apply elem_of_app; by left.
Qed.

Lemma migratedPlatforms_kept w :
  let m0 := update (configToPkgJson (config_xml w)) (package_json w) in
  let m' := migratedPlatforms w in
  pkg_name m' = pkg_name m0 ∧ pkg_version m' = pkg_version m0 ∧
  pkg_displayName m' = pkg_displayName m0 ∧
  dependencies m' = dependencies (package_json w) ∧
  cordova_plugins (cordova m') = cordova_plugins (cordova (package_json w)).
Proof.
  intros m0 m'.
  exact (migratedEngines_kept (cordova_platforms (cordova m0))
           (JS.assign (dependencies m0) (devDependencies m0))
           (cfg_engines (config_xml w)) m0).
Qed.

Lemma migratedPlatforms_platforms w :
  cordova_platforms (cordova (migratedPlatforms w)) =
  cordova_platforms (cordova (package_json w)) ++
    (engine_name <$>
       filter (λ e, engine_name e ∉ cordova_platforms (cordova (package_json w)))
         (cfg_engines (config_xml w))).
Proof.
  exact (migratedEngines_platforms _ _ (cfg_engines (config_xml w))
           (update (configToPkgJson (config_xml w)) (package_json w))).
Qed.


Lemma migratedPlugin_plugins cfg P S m plID :
  cordova_plugins (cordova (migratedPlugin cfg P S m plID)) =
  if JS.includes plID P then cordova_plugins (cordova m)
  else match getPlugin cfg plID with
       | Some p => JS.set plID (plugin_variables p) (cordova_plugins (cordova m))
       | None => cordova_plugins (cordova m)
       end.
Proof.
  unfold migratedPlugin.
  destruct (JS.includes plID P); [done|].
  destruct (getPlugin cfg plID) as [p|]; [|done].
  destruct (JS.when_truthy (plugin_spec p));
    try destruct (JS.has_key plID S); by simpl.
Qed.



(** A plugin of [config.xml] that the manifest lacked is entered with the
    variables of its [config.xml] element. *)
Lemma migratedPlugins_entry_new cfg P S l m plID p :
  plID ∈ l → plID ∉ P → getPlugin cfg plID = Some p →
  JS.get plID (cordova_plugins (cordova (fold_left (migratedPlugin cfg P S) l m))) =
  Some (plugin_variables p).
Proof.
  intros Hin Hnew Hp. revert m Hin.
  induction l as [|x l IH] using rev_ind; intros m Hin.
  - by apply elem_of_nil in Hin.
  - rewrite fold_left_app. simpl. rewrite migratedPlugin_plugins. unfold JS.includes.
    destruct (decide (x = plID)) as [->|Ne].
    + rewrite bool_decide_eq_false_2, Hp by done. apply get_set_eq.
    + assert (plID ∈ l) as Hl.
      { apply elem_of_app in Hin as [?|Hx]; [done|].
        apply list_elem_of_singleton in Hx. by subst. }
      case_bool_decide; [by apply IH|].
      destruct (getPlugin cfg x); [|by apply IH].
      rewrite get_set_ne by done. by apply IH.
Qed.

(** The keys only grow. *)
Lemma migratedPlugins_keys cfg P S l m :
  ∃ extra, JS.keys (cordova_plugins (cordova (fold_left (migratedPlugin cfg P S) l m))) =
           JS.keys (cordova_plugins (cordova m)) ++ extra.
Proof.
  revert m. induction l as [|x l IH]; intros m; simpl.
  - exists []. by rewrite app_nil_r.
  - destruct (IH (migratedPlugin cfg P S m x)) as [extra ->].
    rewrite migratedPlugin_plugins.
    destruct (JS.includes x P); [by exists extra|].
    destruct (getPlugin cfg x); [|by exists extra].
    rewrite keys_set.
    destruct (JS.includes x _); [by exists extra|].
    exists (x :: extra). by rewrite <- app_assoc.
Qed.

Lemma migratedPlugins_keys_from cfg P S l m name :
  name ∈ JS.keys (cordova_plugins (cordova (fold_left (migratedPlugin cfg P S) l m))) →
  name ∈ JS.keys (cordova_plugins (cordova m)) ∨ name ∈ l.
Proof.
  revert m. induction l as [|x l IH]; intros m; simpl; [by left|].
  intros [Hin|Hin]%IH; [|right; by right].
  rewrite migratedPlugin_plugins in Hin.
  destruct (JS.includes x P); [by left|].
  destruct (getPlugin cfg x); [|by left].
  rewrite keys_set in Hin.
  destruct (JS.includes x _); [by left|].
  apply elem_of_app in Hin as [?|Hx]; [by left|].
  apply list_elem_of_singleton in Hx. subst. right. by left.
Qed.

Lemma migratedPlugins_fixed cfg P S l m :
  Forall (λ plID, plID ∈ P) l → fold_left (migratedPlugin cfg P S) l m = m.
Proof.
  induction 1 as [|x l Hx _ IH]; simpl; [done|].
  unfold migratedPlugin at 2. unfold JS.includes.
  by rewrite bool_decide_eq_true_2.
Qed.




Lemma migratedPlugins_listed cfg P S l m plID :
  plID ∈ l → P ⊆ JS.keys (cordova_plugins (cordova m)) →
  Forall (λ plID, is_Some (getPlugin cfg plID)) l →
  plID ∈ JS.keys (cordova_plugins (cordova (fold_left (migratedPlugin cfg P S) l m))).
Proof.
  intros Hin HP Hall.
  destruct (decide (plID ∈ P)) as [HinP|Hnew].
  - destruct (migratedPlugins_keys cfg P S l m) as [extra ->].
    apply elem_of_app. left. by apply HP.
  - apply get_is_Some.
    rewrite Forall_forall in Hall. destruct (Hall plID Hin) as [p Hp].
    rewrite (migratedPlugins_entry_new cfg P S l m plID p); done.
Qed.

End migration.

(** ** Restore: the serial chain *)

Section chain.
Import Restore RestoreSpec.
Context `{Host} {Item : Type} (L : Links Item).

#[local] Arguments link_cb : simpl never.
#[local] Arguments link_err : simpl never.

Local Abbreviation cb := (link_cb L).
Local Abbreviation err := (link_err L).
Local Abbreviation run := (run cb err).
Local Abbreviation scheduled := (scheduled (skip L) (call_of L)).

(** What the two callbacks do. *)
Lemma cb_skip item s :
  skip L item (world s) = true →
  cb item s = (Fulfilled (), set_itemName (name_of L item) s).
Proof. intros Hs. unfold link_cb. by rewrite Hs. Qed.

Lemma cb_call item s :
  skip L item (world s) = false →
  cb item s = invoke (call_of L item)
                (log (Emit "log" (found L item)) (set_itemName (name_of L item) s)).
Proof. intros Hs. unfold link_cb. by rewrite Hs. Qed.

Lemma err_warns e s :
  err e s = (if rethrow L then Rejected e else Fulfilled (),
             log (Emit "warn" (warning L (itemName s) e)) (set_exitCode 1 s)).
Proof. done. Qed.

Lemma run_ext (cb1 cb2 : Item → async Run unit) (err1 err2 : string → async Run unit)
    (items : list Item) r s :
  (∀ item s, cb1 item s = cb2 item s) → (∀ e s, err1 e s = err2 e s) →
  RestoreSpec.run cb1 err1 items r s = RestoreSpec.run cb2 err2 items r s.
Proof.
  intros Hcb Herr. revert r s. induction items as [|item rest IH]; intros r s; [done|].
  simpl. destruct r as [[]|e]; [rewrite Hcb | rewrite Herr];
    match goal with |- context [let '(_, _) := ?x in _] => destruct x end; apply IH.
Qed.

Lemma chain_run (cb0 : Item → async Run unit) (err0 : string → async Run unit)
    (items : list Item) (p : async Run unit) s :
  fold_left (λ soFar item, Async.then2 soFar (λ _, cb0 item) err0) items p s =
  RestoreSpec.run cb0 err0 items (p s).1 (p s).2.
Proof.
  revert p. induction items as [|item rest IH]; intros p; simpl.
  - by destruct (p s).
  - rewrite IH. unfold Async.then2.
    destruct (p s) as [[[]|e] s']; simpl;
      [destruct (cb0 item s') | destruct (err0 e s')]; done.
Qed.

Lemma run_app (l1 l2 : list Item) r s :
  run (l1 ++ l2) r s = run l2 (run l1 r s).1 (run l1 r s).2.
Proof.
  revert r s. induction l1 as [|item l1 IH]; intros r s; simpl; [done|].
  destruct r as [[]|e]; [destruct (cb item s) | destruct (err e s)]; apply IH.
Qed.

(** One link of the chain. *)
Lemma cb_cases item s :
  let s0 := set_itemName (name_of L item) s in
  if skip L item (world s) then cb item s = (Fulfilled (), s0)
  else
    let c := call_of L item in
    let r := (perform c (world s)).1 in
    cb item s =
      (r, mkRun (perform c (world s)).2 (exitCode s)
            (trace s ++ [Emit "log" (found L item); Invoke c; Settle c r])
            (pkgJson s) (name_of L item)).
Proof.
  intros s0. destruct (skip L item (world s)) eqn:E.
  - by apply cb_skip.
  - rewrite cb_call by done. unfold invoke. simpl.
    destruct (perform (call_of L item) (world s)) as [r w]. simpl.
    unfold log, set_world. simpl. by rewrite <- !app_assoc.
Qed.

(** The chain only adds to the trace; it calls the primitive for items
    of the list only, each at most once and in the order of the list, and
    it does not write the manifest. *)
Lemma run_sublist items r s :
  ∃ tr sub, trace (run items r s).2 = trace s ++ tr ∧
            sub `sublist_of` items ∧ invocations tr = call_of L <$> sub ∧
            saves tr = 0 ∧ pkgJson (run items r s).2 = pkgJson s.
Proof.
  revert r s. induction items as [|item rest IH]; intros r s; simpl.
  - exists [], []. by rewrite app_nil_r.
  - destruct r as [[]|e].
    + pose proof (cb_cases item s) as Hc. simpl in Hc.
      destruct (skip L item (world s)).
      * rewrite Hc. destruct (IH (Fulfilled ()) (set_itemName (name_of L item) s))
          as (tr & sub & Htr & Hsub & Hinv & Hsav & Hpkg).
        exists tr, sub. split_and!; try done. by apply sublist_cons.
      * rewrite Hc.
        match goal with |- context [run rest ?r ?s'] =>
          destruct (IH r s') as (tr & sub & Htr & Hsub & Hinv & Hsav & Hpkg) end.
        simpl in Htr, Hpkg.
        exists (Emit "log" (found L item) :: Invoke (call_of L item)
                  :: Settle (call_of L item) (perform (call_of L item) (world s)).1 :: tr),
               (item :: sub).
        split_and!; try done.
        -- rewrite Htr, <- app_assoc. done.
        -- by apply sublist_skip.
        -- simpl. by rewrite Hinv.
    + rewrite err_warns.
      match goal with |- context [run rest ?r ?s'] =>
        destruct (IH r s') as (tr & sub & Htr & Hsub & Hinv & Hsav & Hpkg) end.
      simpl in Htr, Hpkg. exists (Emit "warn" (warning L (itemName s) e) :: tr), sub.
      split_and!; try done.
      * rewrite Htr, <- app_assoc. done.
      * by apply sublist_cons.
Qed.

Lemma failures_app (tr1 tr2 : list event) :
  failures (tr1 ++ tr2) = failures tr1 ++ failures tr2.
Proof. apply omap_app. Qed.

Lemma invocations_app (tr1 tr2 : list event) :
  invocations (tr1 ++ tr2) = invocations tr1 ++ invocations tr2.
Proof. apply omap_app. Qed.

Lemma warnings_app (tr1 tr2 : list event) :
  warnings (tr1 ++ tr2) = warnings tr1 ++ warnings tr2.
Proof. apply omap_app. Qed.

(** With no failing install the chain calls exactly what is owed and
    ends fulfilled, with no warning and the exit code untouched. *)
Lemma run_complete items s tr :
  trace (run items (Fulfilled ()) s).2 = trace s ++ tr → failures tr = [] →
  (run items (Fulfilled ()) s).1 = Fulfilled () ∧
  exitCode (run items (Fulfilled ()) s).2 = exitCode s ∧
  warnings tr = [] ∧
  invocations tr = scheduled items (world s).
Proof.
  revert s tr. induction items as [|item rest IH]; intros s tr Htr Hok; simpl in *.
  - rewrite <- (app_nil_r (trace s)) in Htr at 1. by apply app_inv_head in Htr as <-.
  - pose proof (cb_cases item s) as Hc. simpl in Hc.
    destruct (skip L item (world s)).
    + rewrite Hc in *. by apply (IH (set_itemName (name_of L item) s)).
    + rewrite Hc in *. clear Hc.
      set (c := call_of L item) in *. set (r := (perform c (world s)).1) in *.
      match type of Htr with context [run rest ?r ?s'] =>
        destruct (run_sublist rest r s') as (tr' & _ & Htr' & _) end.
      simpl in Htr'. rewrite Htr', <- app_assoc in Htr.
      apply app_inv_head in Htr as <-.
      simpl in Hok. destruct r as [[]|e] eqn:Er; [|done].
      match goal with |- context [run rest ?r ?s'] =>
        destruct (IH s' tr') as (? & ? & ? & ?) end; try done.
      split_and!; try done. simpl. by f_equal.
Qed.

(** After the rejection handler has run the exit code stays 1. *)
Lemma run_exitCode items r s :
  exitCode s = 1 → exitCode (run items r s).2 = 1.
Proof.
  revert r s. induction items as [|item rest IH]; intros r s Hs; simpl; [done|].
  destruct r as [[]|e].
  - pose proof (cb_cases item s) as Hc. simpl in Hc.
    destruct (skip L item (world s)); rewrite Hc; by apply IH.
  - rewrite err_warns. by apply IH.
Qed.

(** A failing install that is not the last one is met by the rejection
    handler of the next link. *)
Lemma run_failure (l1 : list Item) item next (l2 : list Item) s s1 e s2 :
  run l1 (Fulfilled ()) s = (Fulfilled (), s1) →
  cb item s1 = (Rejected e, s2) →
  let s3 := log (Emit "warn" (warning L (name_of L item) e)) (set_exitCode 1 s2) in
  run (l1 ++ [item; next]) (Fulfilled ()) s =
    (if rethrow L then Rejected e else Fulfilled (), s3) ∧
  run (l1 ++ item :: next :: l2) (Fulfilled ()) s =
    run l2 (if rethrow L then Rejected e else Fulfilled ()) s3.
Proof.
  intros H1 Hcb s3.
  assert (itemName s2 = name_of L item) as Hn.
  { pose proof (cb_cases item s1) as Hc. simpl in Hc.
    destruct (skip L item (world s1)); rewrite Hc in Hcb; by inversion Hcb. }
  rewrite !run_app, H1. simpl. rewrite Hcb, err_warns, Hn. done.
Qed.

Lemma run_failure_recorded (l1 : list Item) item next (l2 : list Item) s s1 e s2 :
  run l1 (Fulfilled ()) s = (Fulfilled (), s1) →
  cb item s1 = (Rejected e, s2) →
  let s' := (run (l1 ++ item :: next :: l2) (Fulfilled ()) s).2 in
  Emit "warn" (warning L (name_of L item) e) ∈ trace s' ∧ exitCode s' = 1.
Proof.
  intros H1 Hcb s'. subst s'.
  destruct (run_failure l1 item next l2 s s1 e s2 H1 Hcb) as [_ ->].
  match goal with |- context [run l2 ?r ?s3] =>
    destruct (run_sublist l2 r s3) as (tr & _ & Htr & _);
    pose proof (run_exitCode l2 r s3 eq_refl) as Hx end.
  split; [|done]. rewrite Htr. simpl.
  apply elem_of_app. left. apply elem_of_app. right. by left.
Qed.

(** Once a rejection is passed on, nothing more is installed. *)
Lemma run_rejected items e s :
  rethrow L = true →
  (run items (Rejected e) s).1 = Rejected e ∧
  world (run items (Rejected e) s).2 = world s ∧
  invocations (trace (run items (Rejected e) s).2) = invocations (trace s).
Proof.
  intros Hr. revert s. induction items as [|item rest IH]; intros s; simpl; [done|].
  rewrite ?err_warns, Hr.
  match goal with |- context [run rest _ ?s'] => destruct (IH s') as (-> & -> & ->) end.
  simpl. rewrite invocations_app. simpl. by rewrite app_nil_r.
Qed.

(** Nothing is installed when every item is on disk. *)
Lemma run_all_present items s :
  Forall (λ item, skip L item (world s) = true) items →
  (run items (Fulfilled ()) s).1 = Fulfilled () ∧
  world (run items (Fulfilled ()) s).2 = world s ∧
  trace (run items (Fulfilled ()) s).2 = trace s ∧
  exitCode (run items (Fulfilled ()) s).2 = exitCode s.
Proof.
  revert s. induction items as [|item rest IH]; intros s Hall; simpl; [done|].
  inversion Hall as [|? ? Hitem Hrest]; subst.
  rewrite cb_skip by done. apply (IH (set_itemName (name_of L item) s)). done.
Qed.

End chain.

(** ** Restore: the two chains *)

Section restore_chains.
Import Restore RestoreSpec.
Context `{Host}.


Lemma platform_cb_skip targets opts platform s :
  platform_skipped targets (platform_name platform) (world s) = true →
  platform_restoreCallback targets opts platform s =
    (Fulfilled (), set_itemName (platform_name platform) s).
Proof.
  intros Hs. unfold platform_restoreCallback, Async.and_then; simpl. by rewrite Hs.
Qed.

Lemma platform_cb_call targets opts platform s :
  platform_skipped targets (platform_name platform) (world s) = false →
  platform_restoreCallback targets opts platform s =
    invoke (platform_call opts platform)
      (log (Emit "log" (platform_found platform))
         (set_itemName (platform_name platform) s)).
Proof.
  intros Hs. unfold platform_restoreCallback, Async.and_then; simpl. by rewrite Hs.
Qed.

Lemma platform_err_warns e s :
  platform_errCallback e s =
    (Rejected e, log (Emit "warn" (platform_warning (itemName s) e)) (set_exitCode 1 s)).
Proof. done. Qed.

Lemma plugin_cb_skip args plugin s :
  existsSync (path_join pluginsRoot (pluginConfig_name plugin)) (world s) = true →
  plugin_restoreCallback args plugin s =
    (Fulfilled (), set_itemName (pluginConfig_name plugin) s).
Proof.
  intros Hs. unfold plugin_restoreCallback, Async.and_then; simpl. by rewrite Hs.
Qed.

Lemma plugin_cb_call args plugin s :
  existsSync (path_join pluginsRoot (pluginConfig_name plugin)) (world s) = false →
  plugin_restoreCallback args plugin s =
    invoke (plugin_call args plugin)
      (log (Emit "log" (plugin_found plugin))
         (set_itemName (pluginConfig_name plugin) s)).
Proof.
  intros Hs. unfold plugin_restoreCallback, Async.and_then; simpl. by rewrite Hs.
Qed.

Lemma plugin_err_warns e s :
  plugin_errCallback e s =
    (Fulfilled (), log (Emit "warn" (plugin_warning (itemName s) e)) (set_exitCode 1 s)).
Proof. done. Qed.

Lemma platform_cb_links targets opts item s :
  platform_restoreCallback targets opts item s =
  link_cb (platform_links targets opts) item s.
Proof.
  unfold link_cb. simpl.
  destruct (platform_skipped targets (platform_name item) (world s)) eqn:E.
  - by apply platform_cb_skip.
  - by apply platform_cb_call.
Qed.

Lemma plugin_cb_links args item s :
  plugin_restoreCallback args item s = link_cb (plugin_links args) item s.
Proof.
  unfold link_cb. simpl.
  destruct (existsSync (path_join pluginsRoot (pluginConfig_name item)) (world s)) eqn:E.
  - by apply plugin_cb_skip.
  - by apply plugin_cb_call.
Qed.

Lemma platform_chain_run targets opts items s :
  platform_chain targets opts items s =
  run (link_cb (platform_links targets opts)) (link_err (platform_links targets opts))
    items (Fulfilled ()) s.
Proof.
  unfold platform_chain. rewrite chain_run. apply run_ext.
  - apply platform_cb_links.
  - intros e s'. apply platform_err_warns.
Qed.

Lemma plugin_chain_run args items s :
  plugin_chain args items s =
  run (link_cb (plugin_links args)) (link_err (plugin_links args))
    items (Fulfilled ()) s.
Proof.
  unfold plugin_chain. rewrite chain_run. apply run_ext.
  - apply plugin_cb_links.
  - intros e s'. apply plugin_err_warns.
Qed.

End restore_chains.

(** ** Restore: the install source and the front matter *)

Section restore_claims.
Import Restore RestoreSpec.
Context `{Host}.


(** C5, amended. Platform restore writes every front-matter field that
    [config.xml] has (the package name in lower case) into the working
    copy of the manifest, whatever the manifest held there; a field that
    [config.xml] lacks keeps the manifest's value. *)
Theorem front_matter_overwritten (s : Run) :
  let cfg := config_xml (world s) in
  let m := package_json (world s) in
  let m' := pkgJson (reconcilePlatforms s).2 in
  pkg_name m' = match JS.when_truthy (cfg_packageName cfg) with
                | Some name => Some (toLowerCase name)
                | None => pkg_name m
                end ∧
  pkg_version m' = match JS.when_truthy (cfg_version cfg) with
                   | Some version => Some version
                   | None => pkg_version m
                   end ∧
  pkg_displayName m' = match JS.when_truthy (cfg_name cfg) with
                       | Some name => Some name
                       | None => pkg_displayName m
                       end.
Proof.
  intros cfg m m'. subst m'.
  destruct (reconcilePlatforms_run s) as (tr & -> & _). cbn [snd pkgJson].
  destruct (migratedPlatforms_kept (world s)) as (-> & -> & -> & _).
  fold cfg m. simpl.
  by destruct (JS.when_truthy (cfg_packageName cfg)),
       (JS.when_truthy (cfg_version cfg)), (JS.when_truthy (cfg_name cfg)).
Qed.

End restore_claims.

(** C5, as written, fails where the manifest has a version of its own:
    the version of [config.xml] replaces it. *)
Lemma front_matter_not_kept :
  ¬ Stated.front_matter_kept (H := Demo.host) Demo.three_platforms.
Proof.
  intros (_ & Hv & _). specialize (Hv eq_refl). vm_compute in Hv. discriminate.
Qed.


(** ** Restore: reconciliation and saving *)

Section restore_stores.
Import Restore RestoreSpec.
Context `{Host}.

Lemma saves_app (tr1 tr2 : list event) : saves (tr1 ++ tr2) = saves tr1 + saves tr2.
Proof. unfold saves. by rewrite omap_app, length_app. Qed.

Lemma saves_emits (tr : list event) : Forall is_emit tr → saves tr = 0.
Proof. intros Htr. unfold saves. by rewrite omap_emit_nil. Qed.

Lemma invocations_emits (tr : list event) : Forall is_emit tr → invocations tr = [].
Proof. intros Htr. unfold invocations. by rewrite omap_emit_nil. Qed.

Lemma failures_emits (tr : list event) : Forall is_emit tr → failures tr = [].
Proof. intros Htr. unfold failures. by rewrite omap_emit_nil. Qed.

Lemma filter_length_0 {A} (P : A → Prop) `{∀ x, Decision (P x)} (l : list A) :
  length (filter P l) = 0 ↔ Forall (λ x, ¬ P x) l.
Proof.
  induction l as [|x l IH]; [by split|].
  rewrite filter_cons, Forall_cons. case_decide; simpl.
  - split; [done | tauto].
  - rewrite IH. tauto.
Qed.

Lemma installPlatforms_split targets opts s :
  installPlatformsFromConfigXML targets opts s =
  platform_chain targets opts (platformInfo (migratedPlatforms (world s)))
    (reconcilePlatforms (set_itemName EmptyString s)).2.
Proof.
  unfold installPlatformsFromConfigXML, Async.and_then, Async.modify.
  destruct (reconcilePlatforms_run (set_itemName EmptyString s)) as (tr & -> & _).
  done.
Qed.

Lemma installPlugins_split args s :
  installPluginsFromConfigXML args s =
  plugin_chain args (pluginConfigs (migratedPlugins (world s)))
    (reconcilePlugins (set_itemName EmptyString s)).2.
Proof.
  unfold installPluginsFromConfigXML, Async.and_then, Async.modify.
  destruct (reconcilePlugins_run (set_itemName EmptyString s)) as (tr & -> & _).
  done.
Qed.

(** The platform side of saving. *)
Lemma platform_saves (w : World) :
  let before := cordova_platforms (cordova (package_json w)) in
  let sp := (reconcilePlatforms (start w)).2 in
  let after := cordova_platforms (cordova (pkgJson sp)) in
  saves (trace sp) = (if bool_decide (length after ≠ length before) then 1 else 0) ∧
  (length after ≠ length before ↔
   ∃ e, e ∈ cfg_engines (config_xml w) ∧ engine_name e ∉ before) ∧
  (length after ≠ length before → package_json (world sp) = pkgJson sp) ∧
  (length after = length before → world sp = w) ∧
  config_xml (world sp) = config_xml w ∧ paths (world sp) = paths w.
Proof.
  intros before sp after. subst sp after.
  destruct (reconcilePlatforms_run (start w)) as (tr & -> & Htr).
  cbn [snd pkgJson trace world start].
  split_and!.
  - rewrite app_nil_l, saves_app, saves_emits by done.
    unfold before. by case_bool_decide.
  - rewrite migratedPlatforms_platforms, length_app, length_fmap. fold before.
    split.
    + intros Hne.
      destruct (decide (Forall (λ e, ¬ (engine_name e ∉ before))
                          (cfg_engines (config_xml w)))) as [Hall|Hex].
      * apply (filter_length_0 (λ e, engine_name e ∉ before)) in Hall. lia.
      * apply not_Forall_Exists in Hex; [|apply _].
        apply Exists_exists in Hex as (e & He & Hn). exists e. split; [done|].
        intros Hin. apply Hn. intros Hnot. by apply Hnot.
    + intros (e & He & Hn) Heq.
      assert (length (filter (λ e, engine_name e ∉ before)
                        (cfg_engines (config_xml w))) = 0) as H0 by lia.
      apply (filter_length_0 (λ e, engine_name e ∉ before)) in H0.
      rewrite Forall_forall in H0.
      by apply (H0 e He).
  - intros Hne. by rewrite bool_decide_eq_true_2.
  - intros Heq. rewrite bool_decide_eq_false_2; [done | by intros ?].
  - by case_bool_decide.
  - by case_bool_decide.
Qed.

Lemma plugin_saves (w : World) :
  let before := JS.keys (cordova_plugins (cordova (package_json w))) in
  let sq := (reconcilePlugins (start w)).2 in
  let after := JS.keys (cordova_plugins (cordova (pkgJson sq))) in
  saves (trace sq) = (if bool_decide (length after ≠ length before) then 1 else 0) ∧
  (length after ≠ length before ↔
   ∃ plID, plID ∈ getPluginIdList (config_xml w) ∧ plID ∉ before) ∧
  (length after ≠ length before → package_json (world sq) = pkgJson sq) ∧
  (length after = length before → world sq = w) ∧
  config_xml (world sq) = config_xml w ∧ paths (world sq) = paths w.
Proof.
  intros before sq after. subst sq after.
  destruct (reconcilePlugins_run (start w)) as (tr & -> & Htr).
  cbn [snd pkgJson trace world start].
  split_and!.
  - rewrite app_nil_l, saves_app, saves_emits by done.
    unfold before. by case_bool_decide.
  - unfold migratedPlugins. fold before.
    set (S := JS.assign _ _). set (l := getPluginIdList _).
    split.
    + intros Hne.
      destruct (decide (Forall (λ plID, plID ∈ before) l)) as [Hall|Hex].
      * rewrite migratedPlugins_fixed in Hne by done. done.
      * apply not_Forall_Exists in Hex; [|apply _].
        apply Exists_exists in Hex as (plID & Hin & Hn). by exists plID.
    + intros (plID & Hin & Hn) Heq.
      assert (plID ∈ JS.keys (cordova_plugins (cordova
                (fold_left (migratedPlugin (config_xml w) before S) l (package_json w)))))
        as Hk.
      { apply migratedPlugins_listed; [done | done |].
        apply Forall_forall. intros. by apply getPlugin_listed. }
      destruct (migratedPlugins_keys (config_xml w) before S l (package_json w))
        as [extra Hextra].
      rewrite Hextra in Hk, Heq. fold before in Hk, Heq.
      rewrite length_app in Heq. destruct extra; [|simpl in Heq; lia].
      rewrite app_nil_r in Hk. done.
  - intros Hne. by rewrite bool_decide_eq_true_2.
  - intros Heq. rewrite bool_decide_eq_false_2; [done | by intros ?].
  - by case_bool_decide.
  - by case_bool_decide.
Qed.

(** C4. Restore writes [package.json] exactly when the list it reads
    back after migration is longer or shorter than the list it read
    before (the platform array, or the keys of the plugin map): once in a
    run that found an item of [config.xml] the manifest did not declare,
    never otherwise, and the chain of installs adds no write of its own.
    Reconciling again on what the first run left on disk writes nothing. *)
Theorem manifest_saved_when_declarations_grew (w : World) :
  (let before := cordova_platforms (cordova (package_json w)) in
   let sp := (reconcilePlatforms (start w)).2 in
   let after := cordova_platforms (cordova (pkgJson sp)) in
   saves (trace sp) = (if bool_decide (length after ≠ length before) then 1 else 0) ∧
   (saves (trace sp) = 1 ↔
    ∃ e, e ∈ cfg_engines (config_xml w) ∧ engine_name e ∉ before) ∧
   (∀ targets opts,
      saves (trace (installPlatformsFromConfigXML targets opts (start w)).2) =
      saves (trace sp)) ∧
   saves (trace (reconcilePlatforms (start (world sp))).2) = 0) ∧
  (let before := JS.keys (cordova_plugins (cordova (package_json w))) in
   let sq := (reconcilePlugins (start w)).2 in
   let after := JS.keys (cordova_plugins (cordova (pkgJson sq))) in
   saves (trace sq) = (if bool_decide (length after ≠ length before) then 1 else 0) ∧
   (saves (trace sq) = 1 ↔
    ∃ plID, plID ∈ getPluginIdList (config_xml w) ∧ plID ∉ before) ∧
   (∀ args,
      saves (trace (installPluginsFromConfigXML args (start w)).2) = saves (trace sq)) ∧
   saves (trace (reconcilePlugins (start (world sq))).2) = 0).
Proof.
  split.
  - intros before sp after.
    destruct (platform_saves w) as (Hs & Hiff & Hsaved & Hsame & Hcfg & _).
    fold before sp after in Hs, Hiff, Hsaved, Hsame, Hcfg.
    split_and!.
    + done.
    + rewrite Hs, <- Hiff. case_bool_decide; [done | split; [done | tauto]].
    + intros targets opts. rewrite installPlatforms_split.
      change (set_itemName EmptyString (start w)) with (start w). fold sp.
      rewrite platform_chain_run.
      destruct (run_sublist (platform_links targets opts)
                  (platformInfo (migratedPlatforms (world (start w)))) (Fulfilled ()) sp)
        as (tr & _ & -> & _ & _ & Hsav & _).
      rewrite saves_app, Hsav. lia.
    + destruct (platform_saves (world sp)) as (-> & Hiff2 & _).
      rewrite bool_decide_eq_false_2; [done|].
      rewrite Hiff2, Hcfg. intros (e & He & Hn). apply Hn. clear Hn.
      destruct (decide (length after = length before)) as [Heq|Hne].
      * rewrite (Hsame Heq).
        destruct (decide (engine_name e ∈ before)) as [|Hnot]; [done|].
        exfalso. apply (proj2 Hiff); [by exists e | done].
      * rewrite (Hsaved Hne). subst sp.
        destruct (reconcilePlatforms_run (start w)) as (tr & -> & _).
        cbn [snd pkgJson world start]. rewrite migratedPlatforms_platforms.
        destruct (decide (engine_name e ∈ cordova_platforms (cordova (package_json w))))
          as [Hin|Hnot]; [by apply elem_of_app; left|].
        apply elem_of_app. right. apply list_elem_of_fmap. exists e. split; [done|].
        by apply list_elem_of_filter.
  - intros before sq after.
    destruct (plugin_saves w) as (Hs & Hiff & Hsaved & Hsame & Hcfg & _).
    fold before sq after in Hs, Hiff, Hsaved, Hsame, Hcfg.
    split_and!.
    + done.
    + rewrite Hs, <- Hiff. case_bool_decide; [done | split; [done | tauto]].
    + intros args. rewrite installPlugins_split.
      change (set_itemName EmptyString (start w)) with (start w). fold sq.
      rewrite plugin_chain_run.
      destruct (run_sublist (plugin_links args)
                  (pluginConfigs (migratedPlugins (world (start w)))) (Fulfilled ()) sq)
        as (tr & _ & -> & _ & _ & Hsav & _).
      rewrite saves_app, Hsav. lia.
    + destruct (plugin_saves (world sq)) as (-> & Hiff2 & _).
      rewrite bool_decide_eq_false_2; [done|].
      rewrite Hiff2, Hcfg. intros (plID & Hin & Hn). apply Hn. clear Hn.
      destruct (decide (length after = length before)) as [Heq|Hne].
      * rewrite (Hsame Heq).
        destruct (decide (plID ∈ before)) as [|Hnot]; [done|].
        exfalso. apply (proj2 Hiff); [by exists plID | done].
      * rewrite (Hsaved Hne). subst sq.
        destruct (reconcilePlugins_run (start w)) as (tr & -> & _).
        cbn [snd pkgJson world start].
        apply migratedPlugins_listed; [done | done |].
        apply Forall_forall. intros. by apply getPlugin_listed.
Qed.

End restore_stores.

(** ** Restore: what reconciliation leaves in the two stores *)

Section restore_both_stores.
Import Restore RestoreSpec.
Context `{Host}.



End restore_both_stores.

Section restore_both_stores_examples.
Import Restore RestoreSpec.
#[local] Existing Instance Demo.host.



End restore_both_stores_examples.

(** ** Restore: failures in the chain, and what gets installed *)

Section restore_failures.
Import Restore RestoreSpec.
Context `{Host}.

(** C1, amended. Both chains call the install primitive one item at a
    time, in declaration order, and at most once per item. With no
    failing install every owed install is made, the promise is fulfilled,
    nothing is warned and the exit code is left alone. When the install
    of an item that is not the last one fails, a warning with that item's
    name and the error is emitted and the exit code is set to 1. Plugin
    restore is then fulfilled again and goes on with later items;
    platform restore passes the rejection on: no further platform is
    installed and the caller gets the rejection with that error. *)
Theorem restore_chains_on_failure :
  (∀ targets opts (items : list PlatformInfo) s,
     ∃ tr sub, trace (platform_chain targets opts items s).2 = trace s ++ tr ∧
               sub `sublist_of` items ∧
               invocations tr = platform_call opts <$> sub ∧
               (failures tr = [] →
                (platform_chain targets opts items s).1 = Fulfilled () ∧
                exitCode (platform_chain targets opts items s).2 = exitCode s ∧
                warnings tr = [] ∧
                invocations tr = platform_scheduled targets opts items (world s))) ∧
  (∀ targets opts l1 item l2 s s1 e s2,
     platform_chain targets opts l1 s = (Fulfilled (), s1) →
     platform_restoreCallback targets opts item s1 = (Rejected e, s2) →
     let final := platform_chain targets opts (l1 ++ item :: l2) s in
     final.1 = Rejected e ∧
     world final.2 = world s2 ∧
     invocations (trace final.2) = invocations (trace s2) ∧
     (l2 ≠ [] →
      exitCode final.2 = 1 ∧
      Emit "warn" (platform_warning (platform_name item) e) ∈ trace final.2)) ∧
  (∀ args (items : list PluginConfig) s,
     ∃ tr sub, trace (plugin_chain args items s).2 = trace s ++ tr ∧
               sub `sublist_of` items ∧
               invocations tr = plugin_call args <$> sub ∧
               (failures tr = [] →
                (plugin_chain args items s).1 = Fulfilled () ∧
                exitCode (plugin_chain args items s).2 = exitCode s ∧
                warnings tr = [] ∧
                invocations tr = plugin_scheduled args items (world s))) ∧
  (∀ args l1 item next l2 s s1 e s2,
     plugin_chain args l1 s = (Fulfilled (), s1) →
     plugin_restoreCallback args item s1 = (Rejected e, s2) →
     let final := plugin_chain args (l1 ++ item :: next :: l2) s in
     exitCode final.2 = 1 ∧
     Emit "warn" (plugin_warning (pluginConfig_name item) e) ∈ trace final.2 ∧
     ∃ s3, plugin_chain args (l1 ++ [item; next]) s = (Fulfilled (), s3) ∧
           final = plugin_chain args l2 s3).
Proof.
  split_and!.
  - intros targets opts items s. rewrite platform_chain_run.
    destruct (run_sublist (platform_links targets opts) items (Fulfilled ()) s)
      as (tr & sub & Htr & Hsub & Hinv & _).
    exists tr, sub. split_and!; try done.
    intros Hok. by apply (run_complete (platform_links targets opts)).
  - intros targets opts l1 item l2 s s1 e s2 H1 Hcb final. subst final.
    rewrite platform_chain_run in *. rewrite platform_cb_links in Hcb.
    rewrite run_app, H1. simpl. rewrite Hcb.
    destruct (run_rejected (platform_links targets opts) l2 e s2 eq_refl)
      as (Hr & Hw & Hi).
    split_and!; try done.
    destruct l2 as [|next l2]; [done|]. intros _.
    pose proof (run_failure_recorded (platform_links targets opts)
                  l1 item next l2 s s1 e s2 H1 Hcb) as Hrec.
    simpl in Hrec. rewrite run_app, H1 in Hrec. simpl in Hrec. rewrite Hcb in Hrec.
    tauto.
  - intros args items s. rewrite plugin_chain_run.
    destruct (run_sublist (plugin_links args) items (Fulfilled ()) s)
      as (tr & sub & Htr & Hsub & Hinv & _).
    exists tr, sub. split_and!; try done.
    intros Hok. by apply (run_complete (plugin_links args)).
  - intros args l1 item next l2 s s1 e s2 H1 Hcb final. subst final.
    rewrite !plugin_chain_run in *. rewrite plugin_cb_links in Hcb.
    pose proof (run_failure_recorded (plugin_links args)
                  l1 item next l2 s s1 e s2 H1 Hcb) as Hrec.
    destruct (run_failure (plugin_links args) l1 item next l2 s s1 e s2 H1 Hcb)
      as (H2 & H3).
    simpl in Hrec. split_and!; try tauto.
    eexists. split; [exact H2|]. rewrite H3. by rewrite plugin_chain_run.
Qed.

(** C9, amended. As long as no install fails, restore calls the install
    primitive for exactly the declared items that are absent from disk
    when their turn comes and that the target filter does not exclude;
    and on a project where every declared item is on disk it calls the
    primitive for none, and ends fulfilled. *)
Theorem restore_installs_what_is_missing (w : World) :
  (∀ targets opts,
     let final := installPlatformsFromConfigXML targets opts (start w) in
     (failures (trace final.2) = [] →
      invocations (trace final.2) =
      platform_scheduled targets opts (platformInfo (migratedPlatforms w))
        (world (reconcilePlatforms (start w)).2)) ∧
     ((∀ name, name ∈ cordova_platforms (cordova (package_json w)) ∨
               name ∈ engine_name <$> cfg_engines (config_xml w) →
               existsSync (path_join platformRoot name) w = true) →
      invocations (trace final.2) = [] ∧ final.1 = Fulfilled ())) ∧
  (∀ args,
     let final := installPluginsFromConfigXML args (start w) in
     (failures (trace final.2) = [] →
      invocations (trace final.2) =
      plugin_scheduled args (pluginConfigs (migratedPlugins w))
        (world (reconcilePlugins (start w)).2)) ∧
     ((∀ name, name ∈ JS.keys (cordova_plugins (cordova (package_json w))) ∨
               name ∈ getPluginIdList (config_xml w) →
               existsSync (path_join pluginsRoot name) w = true) →
      invocations (trace final.2) = [] ∧ final.1 = Fulfilled ())).
Proof.
  split.
  - intros targets opts final. subst final.
    rewrite installPlatforms_split.
    change (set_itemName EmptyString (start w)) with (start w).
    change (world (start w)) with w.
    destruct (platform_saves w) as (_ & _ & _ & _ & _ & Hpaths).
    destruct (reconcilePlatforms_run (start w)) as (tr0 & E0 & Htr0).
    set (sp := (reconcilePlatforms (start w)).2) in *.
    assert (invocations (trace sp) = [] ∧ failures (trace sp) = []) as [Hi0 Hf0].
    { subst sp. rewrite E0. cbn [snd trace start]. rewrite app_nil_l.
      rewrite invocations_app, failures_app.
      rewrite invocations_emits, failures_emits by done. by case_bool_decide. }
    rewrite platform_chain_run.
    set (items := platformInfo (migratedPlatforms w)).
    destruct (run_sublist (platform_links targets opts) items (Fulfilled ()) sp)
      as (tr & sub & Htr & _).
    split.
    + intros Hok. rewrite Htr, failures_app, Hf0 in Hok. simpl in Hok.
      destruct (run_complete (platform_links targets opts) items sp tr Htr Hok)
        as (_ & _ & _ & Hinv).
      by rewrite Htr, invocations_app, Hi0.
    + intros Hall.
      destruct (run_all_present (platform_links targets opts) items sp)
        as (Hr & _ & Ht & _).
      { apply Forall_forall. intros p Hp. unfold platform_skipped.
        apply orb_true_iff. left. unfold items, platformInfo in Hp.
        apply list_elem_of_fmap in Hp as (name & -> & Hname). simpl.
        unfold existsSync in *. rewrite Hpaths. apply Hall.
        rewrite migratedPlatforms_platforms in Hname.
        apply elem_of_app in Hname as [?|Hnew]; [by left|]. right.
        apply list_elem_of_fmap in Hnew as (e & -> & He).
        apply list_elem_of_filter in He as [_ He].
        apply list_elem_of_fmap. by exists e. }
      by rewrite Ht, Hi0.
  - intros args final. subst final.
    rewrite installPlugins_split.
    change (set_itemName EmptyString (start w)) with (start w).
    change (world (start w)) with w.
    destruct (plugin_saves w) as (_ & _ & _ & _ & _ & Hpaths).
    destruct (reconcilePlugins_run (start w)) as (tr0 & E0 & Htr0).
    set (sq := (reconcilePlugins (start w)).2) in *.
    assert (invocations (trace sq) = [] ∧ failures (trace sq) = []) as [Hi0 Hf0].
    { subst sq. rewrite E0. cbn [snd trace start]. rewrite app_nil_l.
      rewrite invocations_app, failures_app.
      rewrite invocations_emits, failures_emits by done. by case_bool_decide. }
    rewrite plugin_chain_run.
    set (items := pluginConfigs (migratedPlugins w)).
    destruct (run_sublist (plugin_links args) items (Fulfilled ()) sq)
      as (tr & sub & Htr & _).
    split.
    + intros Hok. rewrite Htr, failures_app, Hf0 in Hok. simpl in Hok.
      destruct (run_complete (plugin_links args) items sq tr Htr Hok)
        as (_ & _ & _ & Hinv).
      by rewrite Htr, invocations_app, Hi0.
    + intros Hall.
      destruct (run_all_present (plugin_links args) items sq)
        as (Hr & _ & Ht & _).
      { apply Forall_forall. intros p Hp. unfold items, pluginConfigs in Hp.
        apply list_elem_of_fmap in Hp as (name & -> & Hname). simpl.
        unfold existsSync in *. rewrite Hpaths. apply Hall.
        by apply migratedPlugins_keys_from in Hname. }
      by rewrite Ht, Hi0.
Qed.

End restore_failures.

Section restore_failures_examples.
Import Restore RestoreSpec Demo.
#[local] Existing Instance Demo.host.

(** C1, as written, fails in both restores. With [android], [ios] and
    [browser] to restore and [ios] failing, platform restore rejects and
    never tries [browser]; with the camera plugin failing before the file
    plugin, plugin restore is fulfilled but never tries the file plugin. *)
Lemma restore_chain_does_not_isolate :
  ¬ Stated.platform_chain_isolates (H := Demo.host) None ()
      [android; ios; browser] (start Demo.three_platforms) ∧
  ¬ Stated.plugin_chain_isolates (H := Demo.host) Demo.args
      [camera; file] (start Demo.two_plugins).
Proof.
  split.
  - intros Hc.
    destruct (Hc (trace (platform_chain (H := Demo.host) None () [android; ios; browser]
                           (start Demo.three_platforms)).2))
      as (Hr & _); [by vm_compute | by vm_compute |].
    vm_compute in Hr. discriminate.
  - intros Hc.
    destruct (Hc (trace (plugin_chain (H := Demo.host) Demo.args [camera; file]
                           (start Demo.two_plugins)).2))
      as (_ & _ & Hi & _); [by vm_compute | by vm_compute |].
    apply (f_equal length) in Hi. vm_compute in Hi. discriminate.
Qed.

(** C1 on the same platforms: the failure of [ios] is warned about, sets
    the exit code, and reaches the caller as a rejection. *)
Lemma ios_failure_is_passed_on :
  (platform_chain (H := Demo.host) None () ([android] ++ ios :: [browser])
     (start Demo.three_platforms)).1 = Rejected "ETARGET" ∧
  exitCode (platform_chain (H := Demo.host) None () ([android] ++ ios :: [browser])
              (start Demo.three_platforms)).2 = 1 ∧
  Emit "warn" (platform_warning "ios" "ETARGET")
    ∈ trace (platform_chain (H := Demo.host) None () ([android] ++ ios :: [browser])
               (start Demo.three_platforms)).2.
Proof.
  destruct (restore_chains_on_failure (H := Demo.host)) as (_ & Hp & _).
  destruct (Hp None () [android] ios [browser] (start Demo.three_platforms)
              (platform_chain (H := Demo.host) None () [android]
                 (start Demo.three_platforms)).2
              "ETARGET"
              (platform_restoreCallback (H := Demo.host) None () ios
                 (platform_chain (H := Demo.host) None () [android]
                    (start Demo.three_platforms)).2).2)
    as (Hr & _ & _ & Hw); [by vm_compute | by vm_compute |].
  destruct Hw as [Hx Hwarn]; [done|].
  exact (conj Hr (conj Hx Hwarn)).
Defined.

(** C9, as written, fails on the same project: [browser] is declared,
    absent from disk and not filtered out, and is not installed. *)
Lemma browser_is_not_installed :
  ¬ Stated.platforms_installed_when_missing (H := Demo.host) None ()
      Demo.three_platforms.
Proof.
  intros Hc. apply (f_equal length) in Hc. vm_compute in Hc. discriminate.
Qed.

(** C9 on a project that is restored already, and on one whose only
    platform installs without failure. *)
Lemma restored_project_installs_nothing :
  invocations (trace (installPlatformsFromConfigXML (H := Demo.host) None ()
                        (start Demo.restored)).2) = [] ∧
  invocations (trace (installPluginsFromConfigXML (H := Demo.host) Demo.args
                        (start Demo.restored)).2) = [] ∧
  invocations (trace (installPlatformsFromConfigXML (H := Demo.host) None ()
                        (start Demo.manifest_only)).2) =
  platform_scheduled (H := Demo.host) None ()
    (platformInfo (migratedPlatforms Demo.manifest_only))
    (world (reconcilePlatforms (H := Demo.host) (start Demo.manifest_only)).2).
Proof.
  destruct (restore_installs_what_is_missing (H := Demo.host) Demo.restored)
    as (Hplat & Hplug).
  destruct (Hplat None ()) as (_ & Hp). destruct (Hplug Demo.args) as (_ & Hq).
  destruct (restore_installs_what_is_missing (H := Demo.host) Demo.manifest_only)
    as (Hplat' & _).
  destruct (Hplat' None ()) as (Hok & _).
  split_and!.
  - apply Hp. intros name [Hn|Hn]; apply list_elem_of_In in Hn; vm_compute in Hn;
      destruct Hn as [<-|[]]; reflexivity.
  - apply Hq. intros name [Hn|Hn]; apply list_elem_of_In in Hn; vm_compute in Hn;
      destruct Hn as [<-|[]]; reflexivity.
  - apply Hok. by vm_compute.
Defined.

End restore_failures_examples.

(** ** Plugin removal: resolving a target *)

Section plugin_id.
Import PluginId.

Lemma validatePluginId_unfold (pluginId : string) (installedPlugins : list string) :
  validatePluginId pluginId installedPlugins =
  if JS.includes pluginId installedPlugins then Some pluginId
  else if JS.str_includes prefix pluginId then None
       else validatePluginId (prefix +:+ pluginId) installedPlugins.
Proof.
  funelim (validatePluginId pluginId installedPlugins);
    repeat match goal with
           | E : JS.includes _ _ = _ |- _ => rewrite E
           | E : JS.str_includes _ _ = _ |- _ => rewrite E
           end; reflexivity.
Qed.

(** The prefixed id is looked up and nothing else: the recursion ends
    after one step. *)
Lemma validatePluginId_prefixed (pluginId : string) (installedPlugins : list string) :
  validatePluginId (prefix +:+ pluginId) installedPlugins =
  if JS.includes (prefix +:+ pluginId) installedPlugins
  then Some (prefix +:+ pluginId) else None.
Proof. by rewrite validatePluginId_unfold, str_includes_append. Qed.

Context `{PluginRemove.Host}.

(** C7, amended. [validatePluginId] returns a target that is installed
    under its own name unchanged. Otherwise, and only when the target does
    not already contain [cordova-plugin-], it looks up the target with
    that prefix put in front, once, and returns the prefixed id when it
    is installed. Every other target has no match, and [removePlugin]
    rejects it as not present before it calls anything. *)
Theorem validatePluginId_resolves (target : string) (installed : list string) :
  (target ∈ installed → validatePluginId target installed = Some target) ∧
  (target ∉ installed → JS.str_includes prefix target = false →
   prefix +:+ target ∈ installed →
   validatePluginId target installed = Some (prefix +:+ target)) ∧
  (target ∉ installed → JS.str_includes prefix target = false →
   prefix +:+ target ∉ installed →
   validatePluginId target installed = None) ∧
  (target ∉ installed → JS.str_includes prefix target = true →
   validatePluginId target installed = None) ∧
  (validatePluginId target installed = None →
   ∀ projectRoot pluginPath platformList cfg s,
     PluginRemove.removePlugin projectRoot pluginPath installed platformList cfg target s =
     (Rejected (PluginRemove.not_present target), s)).
Proof.
  split_and!.
  - intros Hin. rewrite validatePluginId_unfold. unfold JS.includes.
    by rewrite bool_decide_eq_true_2.
  - intros Hout Hno Hin. rewrite validatePluginId_unfold. unfold JS.includes.
    rewrite bool_decide_eq_false_2, Hno, validatePluginId_prefixed by done.
    unfold JS.includes. by rewrite bool_decide_eq_true_2.
  - intros Hout Hno Hnot. rewrite validatePluginId_unfold. unfold JS.includes.
    rewrite bool_decide_eq_false_2, Hno, validatePluginId_prefixed by done.
    unfold JS.includes. by rewrite bool_decide_eq_false_2.
  - intros Hout Hyes. rewrite validatePluginId_unfold. unfold JS.includes.
    by rewrite bool_decide_eq_false_2, Hyes.
  - intros Hnone projectRoot pluginPath platformList cfg s.
    unfold PluginRemove.removePlugin, Async.and_then. by rewrite Hnone.
Qed.

End plugin_id.

(** C7, as written, fails for a target that contains the prefix further
    in: it is not tried with the prefix in front, installed or not. *)
Lemma inner_prefix_is_not_retried :
  ¬ Stated.resolves_by_prefix "x-cordova-plugin-y" ["cordova-plugin-x-cordova-plugin-y"].
Proof.
  intros (_ & Hretry & _).
  assert ("x-cordova-plugin-y" ∉ ["cordova-plugin-x-cordova-plugin-y"]) as Hout.
  { intros Hin%list_elem_of_In. vm_compute in Hin. intuition discriminate. }
  specialize (Hretry Hout). vm_compute in Hretry.
  assert (@None string = Some "cordova-plugin-x-cordova-plugin-y") as Habs.
  { apply Hretry. apply list_elem_of_In. by left. }
  discriminate.
Qed.

(** ** Rules for what a step adds to a trace *)

Section extends_rules.
Context {S E : Type} (tr : S → list E).

Lemma extends_weaken {A} (m : async S A) (P Q : outcome A → list E → Prop) :
  extends tr m P → (∀ r new, P r new → Q r new) → extends tr m Q.
Proof. intros Hm HPQ s. destruct (Hm s) as (new & ? & ?). eauto. Qed.

Lemma extends_resolve {A} (a : A) :
  extends tr (Async.resolve a) (λ r new, r = Fulfilled a ∧ new = []).
Proof. intros s. exists []. by rewrite app_nil_r. Qed.


Lemma extends_gets {A} (f : S → A) :
  extends tr (Async.gets f) (λ r new, (∃ a, r = Fulfilled a) ∧ new = []).
Proof. intros s. exists []. rewrite app_nil_r. simpl. eauto. Qed.

(** Sequencing: a rejected first step is the whole result; after a
    fulfilled one the second step carries on. *)
Lemma extends_bind {A B} (m : async S A) (k : A → async S B)
    (P : outcome A → list E → Prop) (Q : A → outcome B → list E → Prop)
    (R : outcome B → list E → Prop) :
  extends tr m P → (∀ a, extends tr (k a) (Q a)) →
  (∀ e new, P (Rejected e) new → R (Rejected e) new) →
  (∀ a new1 r new2, P (Fulfilled a) new1 → Q a r new2 → R r (new1 ++ new2)) →
  extends tr (Async.and_then m k) R.
Proof.
  intros Hm Hk Hrej Hful s. unfold Async.and_then.
  destruct (Hm s) as (new1 & E1 & HP).
  destruct (m s) as [[a|e] s1]; simpl in *.
  - destruct (Hk a s1) as (new2 & E2 & HQ).
    exists (new1 ++ new2). rewrite E2, E1, app_assoc. eauto.
  - exists new1. eauto.
Qed.

(** The fold of [Q_chainmap] runs every item and is always fulfilled. *)
Lemma extends_Q_chainmap {A B} (f : A → async S B) (l : list A)
    (P : A → outcome B → list E → Prop) :
  (∀ x, extends tr (f x) (P x)) →
  extends tr (PromiseUtil.Q_chainmap l f)
    (λ r new, (∃ rs, r = Fulfilled rs) ∧
              ∃ news, new = concat news ∧
                      Forall2 (λ x n, ∃ r', P x r' n) l news).
Proof.
  intros Hf. induction l as [|x l IH]; intros s; simpl.
  - exists []. rewrite app_nil_r. split; [done|]. split; [by eexists|].
    exists []. by split.
  - destruct (Hf x s) as (new1 & E1 & HP).
    destruct (f x s) as [r1 s1]; simpl in *.
    destruct (IH s1) as (new2 & E2 & (rs & Hrs) & news & -> & Hall).
    destruct (PromiseUtil.Q_chainmap l f s1) as [r2 s2]; simpl in *. subst r2. simpl.
    exists (new1 ++ concat news). rewrite E2, E1, app_assoc.
    split; [done|]. split; [by eexists|].
    exists (new1 :: news). split; [done|]. constructor; eauto.
Qed.

End extends_rules.

(** ** Rules for what a step keeps *)

Section keeps_rules.
Context {S : Type} (R : S → S → Prop).
Hypothesis R_refl : ∀ s, R s s.
Hypothesis R_trans : ∀ s1 s2 s3, R s1 s2 → R s2 s3 → R s1 s3.

Lemma keeps_resolve {A} (a : A) : keeps R (Async.resolve a).
Proof. intros s. apply R_refl. Qed.

Lemma keeps_reject {A} (e : string) : keeps R (Async.reject (A := A) e).
Proof. intros s. apply R_refl. Qed.

Lemma keeps_gets {A} (f : S → A) : keeps R (Async.gets f).
Proof. intros s. apply R_refl. Qed.

Lemma keeps_bind {A B} (m : async S A) (k : A → async S B) :
  keeps R m → (∀ a, keeps R (k a)) → keeps R (Async.and_then m k).
Proof.
  intros Hm Hk s. unfold Async.and_then. specialize (Hm s).
  destruct (m s) as [[a|e] s1]; [|done].
  eapply R_trans; [exact Hm | apply Hk].
Qed.

Lemma keeps_forEach {A} (f : A → async S unit) (l : list A) :
  (∀ x, keeps R (f x)) → keeps R (Async.forEach f l).
Proof.
  intros Hf. induction l as [|x l IH]; simpl; [apply keeps_resolve|].
  by apply keeps_bind.
Qed.

Lemma keeps_Q_chainmap {A B} (f : A → async S B) (l : list A) :
  (∀ x, keeps R (f x)) → keeps R (PromiseUtil.Q_chainmap l f).
Proof.
  intros Hf. induction l as [|x l IH]; intros s; simpl; [apply R_refl|].
  specialize (Hf x s). destruct (f x s) as [r s1]. specialize (IH s1).
  destruct (PromiseUtil.Q_chainmap l f s1) as [[rs|e] s2];
    (eapply R_trans; [exact Hf | exact IH]).
Qed.

End keeps_rules.

(** ** Plugin removal: the order of the uninstalls, and failures *)

Section plugin_removal.
Import PluginRemove PluginRemoveSpec.
Context `{Host}.



Lemma extends_emit level msg :
  extends trace (emit level msg) (λ r new, r = Fulfilled () ∧ new = [Emit level msg]).
Proof. intros s. by exists [Emit level msg]. Qed.

Lemma extends_modify (f : Run → Run) :
  (∀ s, trace (f s) = trace s) →
  extends trace (Async.modify f) (λ r new, r = Fulfilled () ∧ new = []).
Proof. intros Hf s. exists []. simpl. by rewrite Hf, app_nil_r. Qed.

Lemma extends_invoke {A} (c : call) (prim : World → outcome A * World) :
  extends trace (invoke c prim)
    (λ r new, new = [Invoke c; Settle c (failure_of r)]).
Proof.
  intros s. unfold invoke. simpl. destruct (prim (world s)) as [r w]. simpl.
  exists [Invoke c; Settle c (failure_of r)]. by rewrite <- app_assoc.
Qed.

(** *** With no failing call *)













Section target.
Variables (projectRoot pluginPath : string) (plugins platformList : list string)
          (cfg : ConfigXml).







End target.

(** *** When a call fails *)














Section failing.
Variables (projectRoot pluginPath : string) (plugins platformList : list string)
          (cfg : ConfigXml).






End failing.

End plugin_removal.

(** ** Plugin removal on the example projects *)

Section removal_examples.
Import PluginRemove PluginRemoveSpec DemoRemoval.
#[local] Existing Instance DemoRemoval.plugin_host.

Local Abbreviation removeFoo w :=
  (removePlugin (H := plugin_host) "/app" "/app/plugins" ["cordova-plugin-foo"] ["android"; "ios"]
     no_config "foo" (start (H := plugin_host) w saving)).

(** C7 on the scenario of the design document: [foo] resolves to
    [cordova-plugin-foo] by one retry. *)
Lemma foo_resolves_by_one_retry :
  PluginId.validatePluginId "foo" ["cordova-plugin-foo"] = Some "cordova-plugin-foo".
Proof.
  destruct (validatePluginId_resolves (H := plugin_host) "foo" ["cordova-plugin-foo"])
    as (_ & Hretry & _).
  apply Hretry.
  - apply (bool_decide_unpack _). by vm_compute.
  - reflexivity.
  - apply (bool_decide_unpack _). by vm_compute.
Defined.





End removal_examples.

(** ** Platform removal: the name each step receives *)

Section platform_removal.
Import PlatformRemove PlatformRemoveSpec.
Context `{Host}.

Lemma calls_app (tr1 tr2 : list event) : calls (tr1 ++ tr2) = calls tr1 ++ calls tr2.
Proof. apply omap_app. Qed.

Lemma emit_adds level msg :
  extends trace (emit level msg) (λ r new, r = Fulfilled () ∧ new = [Emit level msg]).
Proof. intros s. by exists [Emit level msg]. Qed.

Lemma invoke_adds {A} (c : call) (prim : World → outcome A * World) :
  extends trace (invoke c prim)
    (λ r new, new = [Invoke c; Settle c (failure_of r)]).
Proof.
  intros s. unfold invoke. simpl. destruct (prim (world s)) as [r w]. simpl.
  exists [Invoke c; Settle c (failure_of r)]. by rewrite <- app_assoc.
Qed.

Section reading.
Context {X : Type} (of_call : call → option X).

Lemma reading_app (tr1 tr2 : list event) :
  reading of_call (tr1 ++ tr2) = reading of_call tr1 ++ reading of_call tr2.
Proof. unfold reading. by rewrite calls_app, omap_app. Qed.

Lemma every_yields {A} (m : async Run A) L : every of_call m L → yields of_call m L.
Proof.
  intros Hm. eapply extends_weaken; [exact Hm|]. by intros r new ->.
Qed.

Lemma yields_within {A} (m : async Run A) L : yields of_call m L → within of_call m L.
Proof.
  intros Hm. eapply extends_weaken; [exact Hm|].
  intros r new [[k ->] _]. apply sublist_inserts_r. done.
Qed.

Lemma quiet_within {A} (m : async Run A) L : every of_call m [] → within of_call m L.
Proof.
  intros Hm. eapply extends_weaken; [exact Hm|].
  intros r new ->. apply sublist_nil_l.
Qed.

Lemma quiet_resolve {A} (a : A) : every of_call (Async.resolve a) [].
Proof.
  eapply extends_weaken; [apply extends_resolve|]. by intros r new [_ ->].
Qed.

Lemma quiet_gets {A} (f : Run → A) : every of_call (Async.gets f) [].
Proof.
  eapply extends_weaken; [apply extends_gets|]. by intros r new [_ ->].
Qed.

Lemma quiet_emit level msg : every of_call (emit level msg) [].
Proof.
  eapply extends_weaken; [apply emit_adds|]. by intros r new [_ ->].
Qed.


Lemma every_invoke {A} (c : call) (prim : World → outcome A * World) :
  every of_call (invoke c prim) (omap of_call [c]).
Proof.
  eapply extends_weaken; [apply invoke_adds|]. by intros r new ->.
Qed.

Lemma quiet_invoke {A} (c : call) (prim : World → outcome A * World) :
  of_call c = None → every of_call (invoke c prim) [].
Proof.
  intros Hc. eapply extends_weaken; [apply invoke_adds|].
  intros r new ->. unfold reading. simpl. by rewrite Hc.
Qed.

(** A step followed by steps that add nothing to the reading. *)
Lemma every_bind_quiet {A B} (m : async Run A) (k : A → async Run B) L :
  every of_call m L → (∀ a, every of_call (k a) []) → every of_call (Async.and_then m k) L.
Proof.
  intros Hm Hk.
  eapply (extends_bind trace m k _ (λ _ _ new, reading of_call new = []));
    [exact Hm | exact Hk | |].
  - done.
  - intros a new1 r new2 H1 H2. simpl in *.
    by rewrite reading_app, H1, H2, app_nil_r.
Qed.

Lemma yields_bind {A B} (m : async Run A) (k : A → async Run B) L L1 L2 :
  yields of_call m L1 → (∀ a, yields of_call (k a) L2) → L = L1 ++ L2 →
  yields of_call (Async.and_then m k) L.
Proof.
  intros Hm Hk ->.
  eapply (extends_bind trace m k _
            (λ _ r new, reading of_call new `prefix_of` L2 ∧
                        ((∃ b, r = Fulfilled b) → reading of_call new = L2)));
    [exact Hm | exact Hk | |].
  - intros e new [Hpre _]. split; [by apply prefix_app_r | by intros [b ?]].
  - intros a new1 r new2 [_ H1] [Hpre H2]. rewrite reading_app, H1 by eauto.
    split; [by apply prefix_app|]. intros Hr. by rewrite H2.
Qed.

Lemma within_bind {A B} (m : async Run A) (k : A → async Run B) L L1 L2 :
  within of_call m L1 → (∀ a, within of_call (k a) L2) → L = L1 ++ L2 →
  within of_call (Async.and_then m k) L.
Proof.
  intros Hm Hk ->.
  eapply (extends_bind trace m k _ (λ _ _ new, reading of_call new `sublist_of` L2));
    [exact Hm | exact Hk | |].
  - intros e new Hsub. by apply sublist_inserts_r.
  - intros a new1 r new2 H1 H2. rewrite reading_app. by apply sublist_app.
Qed.

Lemma quiet_forEach {A} (f : A → async Run unit) (l : list A) :
  (∀ x, every of_call (f x) []) → every of_call (Async.forEach f l) [].
Proof.
  intros Hf. induction l as [|x l IH]; simpl; [apply quiet_resolve|].
  by apply every_bind_quiet.
Qed.

Lemma yields_forEach {A} (f : A → async Run unit) (l : list A) (g : A → list X) :
  (∀ x, yields of_call (f x) (g x)) → yields of_call (Async.forEach f l) (flat_map g l).
Proof.
  intros Hf. induction l as [|x l IH]; simpl.
  - apply every_yields, quiet_resolve.
  - by apply (yields_bind _ _ _ (g x) (flat_map g l)).
Qed.

Lemma within_forEach {A} (f : A → async Run unit) (l : list A) (g : A → list X) :
  (∀ x, within of_call (f x) (g x)) → within of_call (Async.forEach f l) (flat_map g l).
Proof.
  intros Hf. induction l as [|x l IH]; simpl.
  - apply quiet_within, quiet_resolve.
  - by apply (within_bind _ _ _ (g x) (flat_map g l)).
Qed.

(** The fold runs each item, whatever became of the ones before. *)
Lemma every_Q_chainmap {A B} (f : A → async Run B) (l : list A) (g : A → list X) :
  (∀ x, every of_call (f x) (g x)) → every of_call (PromiseUtil.Q_chainmap l f) (flat_map g l).
Proof.
  intros Hf. eapply extends_weaken; [apply extends_Q_chainmap, Hf|].
  intros r new (_ & news & -> & Hall).
  induction Hall as [|x n l news (r' & Hn) _ IH]; [done|]. simpl in *.
  by rewrite reading_app, Hn, IH.
Qed.

End reading.

Lemma flat_map_singleton {A B} (f : A → B) (l : list A) :
  flat_map (λ x, [f x]) l = f <$> l.
Proof. induction l as [|x l IH]; simpl; by rewrite ?IH. Qed.

Lemma quiet_Q_chainmap {X A B} (of_call : call → option X)
    (f : A → async Run B) (l : list A) :
  (∀ x, every of_call (f x) []) → every of_call (PromiseUtil.Q_chainmap l f) [].
Proof.
  intros Hf. pose proof (every_Q_chainmap of_call f l (λ _, []) Hf) as Hall.
  eapply extends_weaken; [exact Hall|]. intros _ new ->.
  clear Hall Hf. induction l as [|x l IH]; [done|]. simpl. exact IH.
Qed.

Ltac quiet_tac :=
  lazymatch goal with
  | |- every _ (Async.and_then _ _) [] =>
      apply every_bind_quiet; [quiet_tac | intros; quiet_tac]
  | |- every _ (Async.resolve _) [] => apply quiet_resolve
  | |- every _ (Async.gets _) [] => apply quiet_gets
  | |- every _ (emit _ _) [] => apply quiet_emit
  | |- every _ (invoke _ _) [] => apply quiet_invoke; first [reflexivity | solve [auto]]
  | |- every _ (Async.forEach _ _) [] => apply quiet_forEach; intros; quiet_tac
  | |- every _ (PromiseUtil.Q_chainmap _ _) [] => apply quiet_Q_chainmap; intros; quiet_tac
  | |- every _ (if ?b then _ else _) [] => destruct b; quiet_tac
  | |- every _ (match ?x with _ => _ end) [] => destruct x; quiet_tac
  | |- _ => idtac
  end.

Lemma persistTargets_quiet {X} (of_call : call → option X) projectRoot targets acc :
  (∀ name, of_call (RemoveEngine name) = None) →
  every of_call (Rev1.persistTargets projectRoot targets acc) [].
Proof.
  intros Hq. revert acc. induction targets as [|target rest IH]; intros acc; simpl.
  - apply quiet_resolve.
  - apply every_bind_quiet; [|intros; apply IH].
    unfold Rev1.persistTarget, removeEngineFromConfig. quiet_tac.
Qed.

Section names.
Variables (projectRoot : string) (targets : list string) (opts : Opts).

(** *** On disk: the raw targets *)

Lemma deleteFromDisk_yields :
  yields deletion_of (deleteFromDisk projectRoot targets)
    (owed_deletions projectRoot targets).
Proof.
  unfold deleteFromDisk, owed_deletions. apply yields_forEach. intros target.
  apply (yields_bind _ _ _ _
           [RmSync (path_join [projectRoot; "platforms"; target])]
           [RemovePlatformPluginsJson projectRoot target]); [| intros _ | done].
  - apply every_yields. apply (every_invoke deletion_of).
  - apply every_yields. apply (every_invoke deletion_of).
Qed.



(** *** The dependency uninstall: the raw targets *)

Lemma uninstallFromNodeModules_every :
  every package_of (uninstallFromNodeModules projectRoot targets opts)
    (owed_uninstalls targets).
Proof.
  unfold uninstallFromNodeModules, owed_uninstalls. rewrite <- flat_map_singleton.
  apply every_Q_chainmap. intros target. apply (every_invoke package_of).
Qed.



(** *** [config.xml]: the names before the ['@'] *)

Lemma removeEngineFromConfig_within platformName message :
  within engine_of (removeEngineFromConfig projectRoot platformName message)
    [platformName].
Proof.
  unfold removeEngineFromConfig.
  apply (within_bind _ _ _ _ [] [platformName]);
    [apply quiet_within, quiet_gets | intros w | done].
  destruct (JS.includes _ _); [|apply quiet_within, quiet_resolve].
  apply (within_bind _ _ _ _ [] [platformName]);
    [apply quiet_within, quiet_emit | intros _ | done].
  apply yields_within, every_yields. apply (every_invoke engine_of).
Qed.

Lemma persistTargets_within acc :
  within engine_of (Rev1.persistTargets projectRoot targets acc)
    (JS.before_at <$> targets).
Proof.
  revert acc. induction targets as [|target rest IH]; intros acc; simpl.
  - apply quiet_within, quiet_resolve.
  - apply (within_bind _ _ _ _ [JS.before_at target] (JS.before_at <$> rest));
      [| intros acc'; apply IH | done].
    unfold Rev1.persistTarget.
    apply (within_bind _ _ _ _ [JS.before_at target] []);
      [apply removeEngineFromConfig_within | intros _ | done].
    apply quiet_within. quiet_tac.
Qed.

Lemma persist1_engines :
  within engine_of (Rev1.persist projectRoot targets opts) (JS.before_at <$> targets).
Proof.
  unfold Rev1.persist.
  apply (within_bind _ _ _ _ [] (JS.before_at <$> targets)); [| intros pkgJson | done].
  { apply quiet_within. quiet_tac. }
  destruct (opts_save opts); [|apply quiet_within, quiet_resolve].
  apply (within_bind _ _ _ _ (JS.before_at <$> targets) []);
    [apply persistTargets_within | intros acc | by rewrite app_nil_r].
  apply quiet_within. quiet_tac.
Qed.

Lemma persist2_engines :
  within engine_of (Rev2.persist projectRoot targets opts) (JS.before_at <$> targets).
Proof.
  unfold Rev2.persist.
  destruct (opts_save opts); [|apply quiet_within, quiet_resolve].
  apply (within_bind _ _ _ _ [] (JS.before_at <$> targets)); [| intros content | done].
  { apply quiet_within. quiet_tac. }
  apply (within_bind _ _ _ _ [] (JS.before_at <$> targets)); [| intros _ | done].
  { apply quiet_within. quiet_tac. }
  apply (within_bind _ _ _ _ [] (JS.before_at <$> targets)); [| intros _ | done].
  { apply quiet_within. quiet_tac. }
  pose proof (within_forEach engine_of
                (λ platformName,
                   removeEngineFromConfig projectRoot platformName
                     ("Removing platform " +:+ JS.dq +:+ platformName +:+ JS.dq +:+
                      " from config.xml file..."))
                (JS.before_at <$> targets) (λ platformName, [platformName])) as Hall.
  rewrite (flat_map_singleton id), list_fmap_id in Hall.
  apply Hall. intros platformName. apply removeEngineFromConfig_within.
Qed.



(** *** [package.json]: the names before the ['@'] *)

Lemma filter_other_absent (name : string) (l : list string) :
  name ∉ l → filter (λ p, p ≠ name) l = l.
Proof.
  induction l as [|p l IH]; intros Hn; [done|].
  apply not_elem_of_cons in Hn as [Hne Hn].
  rewrite filter_cons, decide_True by done. by rewrite IH.
Qed.

Lemma filter_others_nil (l : list string) : filter (λ p, p ∉ []) l = l.
Proof.
  induction l as [|p l IH]; [done|].
  rewrite filter_cons, decide_True by apply not_elem_of_nil. by rewrite IH.
Qed.

Lemma filter_others_cons (name : string) (names l : list string) :
  filter (λ p, p ∉ names) (filter (λ p, p ≠ name) l) = filter (λ p, p ∉ name :: names) l.
Proof.
  rewrite list_filter_filter. apply list_filter_iff. intros p.
  rewrite not_elem_of_cons. tauto.
Qed.

Lemma invoke_read {A} (c : call) (read : World → outcome A) (s : Run) :
  invoke c (λ w, (read w, w)) s =
  (read (world s),
   mkRun (world s) (trace s ++ [Invoke c; Settle c (failure_of (read (world s)))])).
Proof. unfold invoke. simpl. by rewrite <- app_assoc. Qed.

Lemma persistTarget_listed target acc :
  extends trace (Rev1.persistTarget projectRoot target acc) (λ r new,
    reading saved_of new = [] ∧
    ∀ acc', r = Fulfilled acc' →
            listed_platforms acc'.1 =
            filter (λ p, p ≠ JS.before_at target) <$> listed_platforms acc.1).
Proof.
  unfold Rev1.persistTarget.
  eapply (extends_bind trace _ _ (λ _ new, reading saved_of new = [])
            (λ _ r new,
               reading saved_of new = [] ∧
               ∀ acc', r = Fulfilled acc' →
                       listed_platforms acc'.1 =
                       filter (λ p, p ≠ JS.before_at target) <$> listed_platforms acc.1)).
  - change (every saved_of
              (removeEngineFromConfig projectRoot (JS.before_at target)
                 ("Removing platform " +:+ target +:+ " from config.xml file...")) []).
    unfold removeEngineFromConfig. quiet_tac.
  - intros _. unfold listed_platforms at 2.
    destruct (raw_cordova acc.1 ≫= raw_platforms) as [l|] eqn:Hl.
    + destruct (JS.includes (JS.before_at target) l) eqn:Hin; intros s.
      * eexists [Emit _ _]. split; [done|]. split; [done|]. by intros acc' [= <-].
      * exists []. rewrite app_nil_r. split; [done|]. split; [done|].
        intros acc' [= <-]. unfold listed_platforms. rewrite Hl. simpl.
        rewrite filter_other_absent; [done|].
        by apply bool_decide_eq_false in Hin.
    + intros s. exists []. rewrite app_nil_r. split; [done|]. split; [done|].
      intros acc' [= <-]. unfold listed_platforms. by rewrite Hl.
  - intros e new Hq. by split.
  - intros a new1 r new2 H1 [H2 Hacc]. by rewrite reading_app, H1, H2.
Qed.

Lemma persistTargets_listed acc :
  extends trace (Rev1.persistTargets projectRoot targets acc) (λ r new,
    reading saved_of new = [] ∧
    ∀ acc', r = Fulfilled acc' →
            listed_platforms acc'.1 =
            filter (λ p, p ∉ JS.before_at <$> targets) <$> listed_platforms acc.1).
Proof.
  revert acc. induction targets as [|target rest IH]; intros acc; simpl.
  - intros s. exists []. rewrite app_nil_r. split; [done|]. split; [done|].
    intros acc' [= <-]. destruct (listed_platforms acc.1) as [l|]; [|done].
    simpl. by rewrite filter_others_nil.
  - eapply (extends_bind trace _ _ _
              (λ acc1 r new,
                 reading saved_of new = [] ∧
                 ∀ acc', r = Fulfilled acc' →
                         listed_platforms acc'.1 =
                         filter (λ p, p ∉ JS.before_at <$> rest) <$>
                           listed_platforms acc1.1));
      [apply persistTarget_listed | intros acc1; apply IH | |].
    + intros e new [Hq _]. by split.
    + intros acc1 new1 r new2 [H1 Hacc1] [H2 Hacc2]. rewrite reading_app, H1, H2.
      split; [done|]. intros acc' Hr.
      rewrite (Hacc2 acc' Hr), (Hacc1 acc1 eq_refl).
      destruct (listed_platforms acc.1) as [l|]; [|done].
      simpl. by rewrite filter_others_cons.
Qed.






End names.

End platform_removal.

(** C10 on a target with a version: [android@13.0.0] is deleted and
    uninstalled under that name, and [android] leaves both stores. *)
Lemma versioned_target_is_stripped_for_the_stores :
  let run1 := PlatformRemove.Rev1.remove (H := DemoRemoval.platform_host) "/app"
                (Some ["android@13.0.0"]) (PlatformRemove.mkOpts true)
                (PlatformRemoveSpec.start (H := DemoRemoval.platform_host)
                   DemoRemoval.two_platforms) in
  let run2 := PlatformRemove.Rev2.remove (H := DemoRemoval.platform_host) "/app"
                (Some ["android@13.0.0"]) (PlatformRemove.mkOpts true)
                (PlatformRemoveSpec.start (H := DemoRemoval.platform_host)
                   DemoRemoval.two_platforms) in
  ∀ run, run = run1 ∨ run = run2 →
    run.1 = Fulfilled () ∧
    PlatformRemoveSpec.deletions (PlatformRemove.trace run.2) =
      [PlatformRemove.RmSync "/app/platforms/android@13.0.0";
       PlatformRemove.RemovePlatformPluginsJson "/app" "android@13.0.0"] ∧
    PlatformRemoveSpec.engines_removed (PlatformRemove.trace run.2) = ["android"] ∧
    PlatformRemoveSpec.saved_platforms (PlatformRemove.trace run.2) = [Some ["ios"]] ∧
    PlatformRemoveSpec.uninstalled (PlatformRemove.trace run.2) = ["android@13.0.0"] ∧
    DemoRemoval.engines (PlatformRemove.world run.2) = [mkEngine "ios" None] ∧
    DemoRemoval.listed (PlatformRemove.world run.2) = ["ios"].
Proof. intros run1 run2 run [->| ->]; by vm_compute. Qed.

(** ** Restore: what reconciliation arrives at *)

Section restore_lists.
Import Restore RestoreSpec.
Context `{Host}.

Lemma platformInfo_names (m : Manifest) :
  platform_name <$> platformInfo m = cordova_platforms (cordova m).
Proof.
  unfold platformInfo. rewrite <- list_fmap_compose.
  rewrite <- (list_fmap_id (cordova_platforms (cordova m))) at 2.
  by apply list_fmap_ext.
Qed.


(** X1. Platform restore goes through the platforms of [package.json]
    in their order, followed by the engines of [config.xml] that the
    list did not name when it was read, in the order of [config.xml]; an
    engine that [config.xml] names twice is added twice. *)
Theorem platforms_follow_manifest_then_config (s : Run) :
  let before := cordova_platforms (cordova (package_json (world s))) in
  let after :=
    before ++ (engine_name <$> filter (λ e, engine_name e ∉ before)
                                 (cfg_engines (config_xml (world s)))) in
  cordova_platforms (cordova (pkgJson (reconcilePlatforms s).2)) = after ∧
  ∃ items, (reconcilePlatforms s).1 = Fulfilled items ∧ platform_name <$> items = after.
Proof.
  intros before after.
  destruct (reconcilePlatforms_run s) as (tr & -> & _). cbn [fst snd pkgJson].
  split; [apply migratedPlatforms_platforms|].
  eexists. split; [done|]. rewrite platformInfo_names. apply migratedPlatforms_platforms.
Qed.



(** *** Reconciling again *)

Lemma fold_left_fixed {A B} (f : A → B → A) (l : list B) (a : A) :
  Forall (λ x, f a x = a) l → fold_left f l a = a.
Proof.
  induction 1 as [|x l Hx _ IH]; simpl; [done|]. by rewrite Hx.
Qed.

Lemma has_key_assign (deps devDeps : gmap string string) k :
  JS.has_key k (JS.assign deps devDeps) = true ↔
  is_Some (devDeps !! k) ∨ is_Some (deps !! k).
Proof.
  unfold JS.has_key, JS.assign. rewrite bool_decide_eq_true.
  apply lookup_union_is_Some.
Qed.

(** Updating with the same front matter a second time changes nothing. *)
Lemma update_again (p : Partial) (m m' : Manifest) :
  pkg_name m' = pkg_name (update p m) →
  pkg_version m' = pkg_version (update p m) →
  pkg_displayName m' = pkg_displayName (update p m) →
  set_devDependencies p = None → set_cordova p = None →
  update p m' = m'.
Proof.
  destruct m' as [n v d deps dev c], p as [pn pv pd pdev pc]. cbn.
  intros -> -> -> -> ->. unfold update. cbn. f_equal; by repeat case_match.
Qed.

Lemma migratedPlatforms_again (w : World) :
  migratedPlatforms (mkWorld (config_xml w) (migratedPlatforms w) (paths w)) =
  migratedPlatforms w.
Proof.
  set (m' := migratedPlatforms w).
  set (m0 := update (configToPkgJson (config_xml w)) (package_json w)).
  destruct (migratedPlatforms_kept w) as (Hname & Hversion & HdisplayName & Hdeps & _).
  fold m' m0 in Hname, Hversion, HdisplayName, Hdeps.
  unfold migratedPlatforms at 1. cbn [config_xml package_json].
  rewrite (update_again (configToPkgJson (config_xml w)) (package_json w) m') by done.
  apply fold_left_fixed, Forall_forall. intros e He.
  assert (JS.includes (engine_name e) (cordova_platforms (cordova m')) = true) as Hin.
  { apply bool_decide_eq_true. unfold m'. rewrite migratedPlatforms_platforms.
    destruct (decide (engine_name e ∈ cordova_platforms (cordova (package_json w))))
      as [?|Hnot]; [by apply elem_of_app; left|].
    apply elem_of_app. right. apply list_elem_of_fmap. exists e. split; [done|].
    by apply list_elem_of_filter. }
  unfold migratedEngine. rewrite Hin.
  destruct (JS.when_truthy (engine_spec e)) as [spec|] eqn:Hspec; [|done].
  assert (JS.has_key (platformModule e)
            (JS.assign (dependencies m') (devDependencies m')) = true) as ->; [|done].
  destruct (JS.has_key (platformModule e)
              (JS.assign (dependencies m0) (devDependencies m0))) eqn:Hkey.
  - apply has_key_assign. rewrite Hdeps.
    unfold m', migratedPlatforms. fold m0.
    rewrite (migratedEngines_devDependencies_kept _ _ _ _ _ Hkey).
    by apply has_key_assign in Hkey.
  - destruct (migratedEngines_devDependencies_new (cordova_platforms (cordova m0))
                (JS.assign (dependencies m0) (devDependencies m0))
                (cfg_engines (config_xml w)) m0 e spec He Hspec Hkey)
      as (e' & spec' & _ & _ & _ & Hdev).
    apply has_key_assign. left. unfold m', migratedPlatforms. fold m0. by rewrite Hdev.
Qed.

Lemma migratedPlugins_again (w : World) :
  migratedPlugins (mkWorld (config_xml w) (migratedPlugins w) (paths w)) =
  migratedPlugins w.
Proof.
  unfold migratedPlugins at 1. cbn [config_xml package_json].
  apply migratedPlugins_fixed, Forall_forall. intros plID Hin.
  unfold migratedPlugins. apply migratedPlugins_listed; [done.. |].
  apply Forall_forall. intros. by apply getPlugin_listed.
Qed.

(** X3. Reconciliation is idempotent on the manifest: run again on the
    project that a first run left, it arrives at the working copy that
    the first run arrived at, with the same platforms and the same
    plugins to go through. *)
Theorem reconciling_again_changes_nothing (w : World) :
  (let first := reconcilePlatforms (start w) in
   let again := reconcilePlatforms (start (world first.2)) in
   pkgJson again.2 = pkgJson first.2 ∧ again.1 = first.1 ∧
   world again.2 = world first.2) ∧
  (let first := reconcilePlugins (start w) in
   let again := reconcilePlugins (start (world first.2)) in
   pkgJson again.2 = pkgJson first.2 ∧ again.1 = first.1 ∧
   world again.2 = world first.2).
Proof.
  split.
  - intros first again. subst again first.
    destruct (reconcilePlatforms_run (start w)) as (tr & -> & _).
    cbn [fst snd world pkgJson start].
    match goal with |- context [start ?w1] =>
      destruct (reconcilePlatforms_run (start w1)) as (tr' & -> & _);
      assert (migratedPlatforms w1 = migratedPlatforms w) as Hsame
    end.
    { case_bool_decide; [apply migratedPlatforms_again | done]. }
    cbn [fst snd world pkgJson start]. rewrite Hsame. split_and!; [done..|].
    case_bool_decide as Hfirst; cbn [package_json config_xml paths].
    + by rewrite bool_decide_eq_false_2 by (intros Hne; by apply Hne).
    + by rewrite bool_decide_eq_false_2 by (intros Hne; by apply Hne).
  - intros first again. subst again first.
    destruct (reconcilePlugins_run (start w)) as (tr & -> & _).
    cbn [fst snd world pkgJson start].
    match goal with |- context [start ?w1] =>
      destruct (reconcilePlugins_run (start w1)) as (tr' & -> & _);
      assert (migratedPlugins w1 = migratedPlugins w) as Hsame
    end.
    { case_bool_decide; [apply migratedPlugins_again | done]. }
    cbn [fst snd world pkgJson start]. rewrite Hsame. split_and!; [done..|].
    case_bool_decide as Hfirst; cbn [package_json config_xml paths].
    + by rewrite bool_decide_eq_false_2 by (intros Hne; by apply Hne).
    + by rewrite bool_decide_eq_false_2 by (intros Hne; by apply Hne).
Qed.

End restore_lists.

(** ** Restore: more on the serial chain *)

Section chain_more.
Import Restore RestoreSpec.
Context `{Host} {Item : Type} (L : Links Item).

#[local] Arguments link_cb : simpl never.
#[local] Arguments link_err : simpl never.

Local Abbreviation cb := (link_cb L).
Local Abbreviation err := (link_err L).
Local Abbreviation run := (run cb err).

(** The exit code is set where a warning is emitted and nowhere else. *)
Lemma run_exit_code items r s :
  ∃ tr, trace (run items r s).2 = trace s ++ tr ∧
        exitCode (run items r s).2 =
        match warnings tr with [] => exitCode s | _ => 1 end.
Proof.
  revert r s. induction items as [|item rest IH]; intros r s; simpl.
  - exists []. by rewrite app_nil_r.
  - destruct r as [[]|e].
    + pose proof (cb_cases L item s) as Hc. simpl in Hc.
      destruct (skip L item (world s)); rewrite Hc.
      * destruct (IH (Fulfilled ()) (set_itemName (name_of L item) s)) as (tr & Htr & Hx).
        by exists tr.
      * match goal with |- context [RestoreSpec.run _ _ rest ?r ?s'] =>
          destruct (IH r s') as (tr & Htr & Hx) end.
        simpl in Htr, Hx. eexists (_ :: _ :: _ :: tr).
        split; [by rewrite Htr, <- app_assoc|]. by rewrite Hx.
    + rewrite err_warns.
      match goal with |- context [RestoreSpec.run _ _ rest ?r ?s'] =>
        destruct (IH r s') as (tr & Htr & Hx) end.
      simpl in Htr, Hx. exists (Emit "warn" (warning L (itemName s) e) :: tr).
      split; [by rewrite Htr, <- app_assoc|]. rewrite Hx. simpl. by destruct (warnings tr).
Qed.


End chain_more.

Section restore_more.
Import Restore RestoreSpec.
Context `{Host}.

(** X4. In both restores [package.json] is written, if at all, before
    the first install is called, and nothing writes it once the installs
    have started. *)
Theorem manifest_written_before_installs :
  (∀ targets opts s,
     ∃ tr1 tr2,
       trace (installPlatformsFromConfigXML targets opts s).2 = trace s ++ tr1 ++ tr2 ∧
       invocations tr1 = [] ∧ saves tr2 = 0) ∧
  (∀ args s,
     ∃ tr1 tr2,
       trace (installPluginsFromConfigXML args s).2 = trace s ++ tr1 ++ tr2 ∧
       invocations tr1 = [] ∧ saves tr2 = 0).
Proof.
  split.
  - intros targets opts s. rewrite installPlatforms_split, platform_chain_run.
    destruct (reconcilePlatforms_run (set_itemName EmptyString s)) as (tr & E & Htr).
    rewrite E. cbn [snd].
    match goal with |- context [run _ _ ?items ?r ?s'] =>
      destruct (run_sublist (platform_links targets opts) items r s')
        as (tr2 & _ & Htr2 & _ & _ & Hsaves & _) end.
    cbn [trace] in Htr2. eexists _, tr2.
    split; [by rewrite Htr2, <- app_assoc|]. split; [|done].
    rewrite invocations_app, invocations_emits by done. by case_bool_decide.
  - intros args s. rewrite installPlugins_split, plugin_chain_run.
    destruct (reconcilePlugins_run (set_itemName EmptyString s)) as (tr & E & Htr).
    rewrite E. cbn [snd].
    match goal with |- context [run _ _ ?items ?r ?s'] =>
      destruct (run_sublist (plugin_links args) items r s')
        as (tr2 & _ & Htr2 & _ & _ & Hsaves & _) end.
    cbn [trace] in Htr2. eexists _, tr2.
    split; [by rewrite Htr2, <- app_assoc|]. split; [|done].
    rewrite invocations_app, invocations_emits by done. by case_bool_decide.
Qed.

(** X5. In both chains the exit code is 1 exactly when a warning was
    emitted, and is otherwise what it was: nothing resets it. *)
Theorem exit_code_follows_warnings :
  (∀ targets opts (items : list PlatformInfo) s,
     ∃ tr, trace (platform_chain targets opts items s).2 = trace s ++ tr ∧
           exitCode (platform_chain targets opts items s).2 =
           match warnings tr with [] => exitCode s | _ => 1 end) ∧
  (∀ args (items : list PluginConfig) s,
     ∃ tr, trace (plugin_chain args items s).2 = trace s ++ tr ∧
           exitCode (plugin_chain args items s).2 =
           match warnings tr with [] => exitCode s | _ => 1 end).
Proof.
  split.
  - intros targets opts items s. rewrite platform_chain_run. apply run_exit_code.
  - intros args items s. rewrite plugin_chain_run. apply run_exit_code.
Qed.





End restore_more.

Section restore_more_examples.
Import Restore RestoreSpec.
#[local] Existing Instance Demo.host.


End restore_more_examples.

(** ** Plugin removal: the steps one by one *)

Section plugin_removal_steps.
Import PluginRemove PluginRemoveSpec.
Context `{Host}.

Lemma invoke_equation {A} (c : call) (prim : World → outcome A * World) (s : Run) :
  invoke c prim s =
  ((prim (world s)).1,
   mkRun (prim (world s)).2 (opts s) (shouldRunPrepare s)
     (trace s ++ [Invoke c; Settle c (failure_of (prim (world s)).1)])).
Proof.
  unfold invoke, log, set_world. simpl. destruct (prim (world s)) as [r w]. simpl.
  by rewrite <- app_assoc.
Qed.

Section target.
Variables (projectRoot pluginPath : string) (cfg : ConfigXml).


(** *** Persisting a removal *)

Lemma getPlugin_removed (c : ConfigXml) (target : string) :
  getPlugin
    (mkConfigXml (cfg_packageName c) (cfg_version c) (cfg_name c) (cfg_engines c)
       (filter (λ p, plugin_id p ≠ target) (cfg_plugins c))) target = None.
Proof.
  unfold getPlugin. cbn [cfg_plugins].
  induction (cfg_plugins c) as [|p l IH]; [done|].
  rewrite filter_cons. case_decide as Hp; [|done]. simpl.
  destruct (String.eqb target (plugin_id p)) eqn:E; [|done].
  apply String.eqb_eq in E. congruence.
Qed.

Lemma getPlugin_others (c : ConfigXml) (target id : string) :
  id ≠ target →
  getPlugin
    (mkConfigXml (cfg_packageName c) (cfg_version c) (cfg_name c) (cfg_engines c)
       (filter (λ p, plugin_id p ≠ target) (cfg_plugins c))) id = getPlugin c id.
Proof.
  intros Hne. unfold getPlugin. cbn [cfg_plugins].
  induction (cfg_plugins c) as [|p l IH]; [done|].
  rewrite filter_cons. case_decide as Hp; simpl.
  - by rewrite IH.
  - rewrite IH.
    destruct (String.eqb id (plugin_id p)) eqn:E; [|done].
    apply String.eqb_eq in E. congruence.
Qed.

(** X9. [persistRemovalToCfg] does nothing at all when [config.xml]
    does not exist or has no plugin with the id. Otherwise it announces
    the removal and writes [config.xml] once, settling as the write
    does: without any plugin of that id, and with every other plugin,
    the engines and the front matter as they were read. *)
Theorem config_removal_is_written_once (target : string) (s : Run) :
  let configPath := projectConfig projectRoot in
  let configXml := parseConfig configPath (world s) in
  let r := persistRemovalToCfg projectRoot target s in
  if existsSync configPath (world s) && bool_decide (is_Some (getPlugin configXml target))
  then
    ∃ configXml',
      r.1 = (writeConfig configPath configXml' (world s)).1 ∧
      world r.2 = (writeConfig configPath configXml' (world s)).2 ∧
      trace r.2 =
        trace s ++ [Emit "log" ("Removing plugin " +:+ target +:+
                                " from config.xml file...");
                    Invoke (WriteConfig configXml');
                    Settle (WriteConfig configXml') (failure_of r.1)] ∧
      getPlugin configXml' target = None ∧
      (∀ id, id ≠ target → getPlugin configXml' id = getPlugin configXml id) ∧
      cfg_engines configXml' = cfg_engines configXml ∧
      cfg_packageName configXml' = cfg_packageName configXml ∧
      cfg_version configXml' = cfg_version configXml ∧
      cfg_name configXml' = cfg_name configXml
  else r = (Fulfilled (), s).
Proof.
  intros configPath configXml r.
  destruct r as [res after] eqn:E. subst r. cbn [fst snd].
  unfold persistRemovalToCfg in E. fold configPath in E.
  unfold Async.and_then at 1 in E. cbn [Async.gets] in E. fold configXml in E.
  destruct (existsSync configPath (world s)); [|done]. cbn [andb].
  destruct (getPlugin configXml target) as [p|] eqn:Hp.
  2:{ rewrite bool_decide_eq_false_2; [done | by intros [? ?]]. }
  rewrite bool_decide_eq_true_2 by done.
  eexists. unfold Async.and_then in E. cbn [emit Async.modify] in E.
  rewrite invoke_equation in E. cbn [fst snd world trace log] in E.
  injection E as <- <-. cbn [world trace].
  split_and!; [done | done | by rewrite <- app_assoc | apply getPlugin_removed
               | intros id Hid; by apply getPlugin_others | done..].
Qed.




(** *** What a removal leaves alone *)

Lemma removal_calls_app (tr1 tr2 : list event) :
  calls (tr1 ++ tr2) = calls tr1 ++ calls tr2.
Proof. apply omap_app. Qed.

Lemma touches_refl allowed (s : Run) : touches allowed s s.
Proof. split; [done|]. exists []. rewrite app_nil_r. split; [done|]. by constructor. Qed.

Lemma touches_trans allowed (s1 s2 s3 : Run) :
  touches allowed s1 s2 → touches allowed s2 s3 → touches allowed s1 s3.
Proof.
  intros (Ho1 & new1 & E1 & H1) (Ho2 & new2 & E2 & H2).
  split; [congruence|]. exists (new1 ++ new2).
  split; [by rewrite E2, E1, app_assoc|].
  intros Hsave. rewrite removal_calls_app. apply Forall_app. split; [by apply H1|].
  apply H2. by rewrite Ho1.
Qed.

(** While saving is asked for, any call is let through. *)
Lemma touches_saving allowed allowed' (s s' : Run) :
  opts_save (opts s) = true → touches allowed' s s' → touches allowed s s'.
Proof.
  intros Hsave (Ho & new & E & _). split; [done|]. exists new. split; [done|].
  intros Hno. congruence.
Qed.

Lemma keeps_invoke {A} allowed (c : call) (prim : World → outcome A * World) :
  allowed c = true → keeps (touches allowed) (invoke c prim).
Proof.
  intros Hc s. rewrite invoke_equation. split; [done|].
  eexists. split; [done|]. intros _. by repeat constructor.
Qed.

Lemma keeps_emit allowed level msg : keeps (touches allowed) (emit level msg).
Proof.
  intros s. split; [done|]. exists [Emit level msg]. split; [done|]. by constructor.
Qed.

Lemma keeps_raise_flag allowed :
  keeps (touches allowed) (Async.modify (set_shouldRunPrepare true)).
Proof.
  intros s. split; [done|]. exists []. simpl. rewrite app_nil_r. split; [done|].
  by constructor.
Qed.

Ltac keeps_tac :=
  lazymatch goal with
  | |- keeps _ (Async.and_then _ _) =>
      apply keeps_bind; [apply touches_trans | keeps_tac | intros; keeps_tac]
  | |- keeps _ (Async.resolve _) => apply keeps_resolve, touches_refl
  | |- keeps _ (Async.reject _) => apply keeps_reject, touches_refl
  | |- keeps _ (Async.gets _) => apply keeps_gets, touches_refl
  | |- keeps _ (emit _ _) => apply keeps_emit
  | |- keeps _ (Async.modify (set_shouldRunPrepare true)) => apply keeps_raise_flag
  | |- keeps _ (invoke _ _) => apply keeps_invoke; reflexivity
  | |- keeps _ (if ?b then _ else _) => destruct b; keeps_tac
  | |- keeps _ (match ?x with _ => _ end) => destruct x; keeps_tac
  | |- _ => idtac
  end.

Lemma removePluginFromPlatform_keeps target platform :
  keeps (touches (λ c, negb (store_call c)))
    (removePluginFromPlatform projectRoot pluginPath cfg target platform).
Proof. unfold removePluginFromPlatform. keeps_tac. Qed.

Lemma persistRemovalToCfg_keeps target :
  keeps (touches (λ _, true)) (persistRemovalToCfg projectRoot target).
Proof. unfold persistRemovalToCfg. keeps_tac. Qed.

Lemma persistRemovalToPkg_keeps target :
  keeps (touches (λ _, true)) (persistRemovalToPkg projectRoot target).
Proof. unfold persistRemovalToPkg. keeps_tac. Qed.

Lemma removePlugin_keeps plugins platformList target :
  keeps (touches (λ c, negb (store_call c)))
    (removePlugin projectRoot pluginPath plugins platformList cfg target).
Proof.
  unfold removePlugin.
  apply keeps_bind; [apply touches_trans | keeps_tac | intros id].
  apply keeps_bind; [apply touches_trans | | intros _].
  { apply keeps_Q_chainmap; [apply touches_refl | apply touches_trans |].
    intros platform. apply removePluginFromPlatform_keeps. }
  apply keeps_bind; [apply touches_trans | keeps_tac | intros o].
  apply keeps_bind; [apply touches_trans | keeps_tac | intros _].
  apply keeps_bind; [apply touches_trans | | intros _; keeps_tac].
  intros s. unfold Async.and_then at 1. cbn [Async.gets].
  destruct (opts_save (opts s)) eqn:Hsave; [|apply touches_refl].
  apply (touches_saving _ (λ _, true)); [done|].
  apply keeps_bind; [apply touches_trans | apply persistRemovalToCfg_keeps |].
  intros _. apply persistRemovalToPkg_keeps.
Qed.


End target.

(** *** The whole command *)

Lemma remove_middle_keeps projectRoot pluginPath plugins platformList c targets :
  keeps (touches (λ _, true))
    (PromiseUtil.Q_chainmap targets
       (removePlugin projectRoot pluginPath plugins platformList c)).
Proof.
  apply keeps_Q_chainmap; [apply touches_refl | apply touches_trans |].
  intros target s. destruct (removePlugin_keeps projectRoot pluginPath c plugins
                               platformList target s) as (Ho & new & E & _).
  split; [done|]. exists new. split; [done|]. intros _.
  apply Forall_forall. by intros.
Qed.

Lemma remove_targets_gate projectRoot (targets targets' : list string) (s : Run) :
  targets ≠ [] → targets' ≠ [] →
  remove projectRoot (Some targets) s = remove projectRoot (Some targets') s.
Proof.
  intros Hne Hne'. unfold remove.
  rewrite !bool_decide_eq_false_2; [done | |].
  - by destruct targets'.
  - by destruct targets.
Qed.

(** X12. [remove] rejects with the usage message, and touches nothing,
    when [targets] is missing or empty; beyond that test it does not
    look at [targets]: the plugins it removes are those of
    [opts.plugins]. It fires [before_plugin_rm] first; when that hook is
    rejected nothing else is called and the command is rejected with the
    hook's error. A command that is fulfilled has fired
    [after_plugin_rm] last. *)
Theorem removal_is_bracketed_by_hooks (projectRoot : string) (s : Run) :
  let installed := findPlugins (path_join [projectRoot; "plugins"]) (world s) in
  remove projectRoot None s = (Rejected no_plugin_specified, s) ∧
  remove projectRoot (Some []) s = (Rejected no_plugin_specified, s) ∧
  ∀ target targets,
    let r := remove projectRoot (Some (target :: targets)) s in
    (∀ targets', targets' ≠ [] → remove projectRoot (Some targets') s = r) ∧
    (∀ e w,
       fire "before_plugin_rm" (set_opts_cordova installed (opts s)) (world s) =
         (Rejected e, w) →
       r.1 = Rejected e ∧ world r.2 = w ∧
       trace r.2 = trace s ++ [Invoke (Fire "before_plugin_rm");
                               Settle (Fire "before_plugin_rm") (Some e)]) ∧
    (r.1 = Fulfilled () →
     ∃ mid, trace r.2 =
            trace s ++ [Invoke (Fire "before_plugin_rm");
                        Settle (Fire "before_plugin_rm") None] ++ mid ++
                       [Invoke (Fire "after_plugin_rm");
                        Settle (Fire "after_plugin_rm") None]).
Proof.
  intros installed. split_and!; [done | done |].
  intros target targets r. split.
  { intros targets' Hne. by apply remove_targets_gate. }
  destruct r as [res fin] eqn:E. subst r. cbn [fst snd].
  unfold remove in E. rewrite bool_decide_eq_false_2 in E by done.
  cbn [default from_option id] in E.
  unfold Async.and_then at 1 in E. cbn [Async.gets] in E.
  unfold Async.and_then at 1 in E. cbn [Async.modify] in E.
  unfold Async.and_then at 1 in E. cbn [Async.modify] in E.
  unfold Async.and_then at 1 in E. cbn [Async.gets] in E.
  unfold Async.and_then at 1 in E. rewrite invoke_equation in E.
  cbn [world opts shouldRunPrepare trace set_opts set_shouldRunPrepare] in E.
  fold installed in E.
  destruct (fire "before_plugin_rm" (set_opts_cordova installed (opts s)) (world s))
    as [[[]|e0] w0] eqn:Hfire; cbn [fst snd failure_of] in E.
  2:{ injection E as <- <-. split; [|done]. by intros e w [= <- <-]. }
  split; [by intros e w [=]|]. intros ->.
  unfold Async.and_then at 1 in E. cbn [Async.gets opts] in E.
  unfold Async.and_then at 1 in E.
  match type of E with
    context [PromiseUtil.Q_chainmap ?l (removePlugin ?a ?b ?c ?d ?e) ?s2] =>
    pose proof (remove_middle_keeps a b c d e l s2) as (_ & new3 & E3 & _);
    destruct (PromiseUtil.Q_chainmap l (removePlugin a b c d e) s2) as [[rs|e3] s3];
      [|done]
  end.
  cbn [snd trace] in E3.
  unfold Async.and_then at 1 in E.
  match type of E with context [Async.and_then (Async.gets shouldRunPrepare) ?k s3] =>
    assert (keeps (touches (λ _, true)) (Async.and_then (Async.gets shouldRunPrepare) k))
      as Hprep
      by (apply keeps_bind;
            [apply touches_trans | apply keeps_gets, touches_refl | intros b];
          destruct b; [|apply keeps_resolve, touches_refl];
          apply keeps_bind;
            [apply touches_trans | apply keeps_gets, touches_refl
            | intros o; by apply keeps_invoke]);
    destruct (Hprep s3) as (_ & new4 & E4 & _);
    destruct (Async.and_then (Async.gets shouldRunPrepare) k s3) as [[[]|e4] s4]; [|done]
  end.
  cbn [snd] in E4.
  unfold Async.and_then at 1 in E. cbn [Async.gets] in E.
  unfold Async.and_then at 1 in E. cbn [Async.modify] in E.
  unfold Async.and_then at 1 in E. cbn [Async.gets] in E.
  rewrite invoke_equation in E. cbn [world opts shouldRunPrepare trace set_opts] in E.
  injection E as Hres <-. cbn [trace]. rewrite Hres. cbn [failure_of].
  exists (new3 ++ new4). rewrite E4, E3. by rewrite <- !app_assoc.
Qed.

End plugin_removal_steps.

(** ** Plugin removal: what a target resolves to *)

Section plugin_id_more.

(** X13. Whatever [validatePluginId] returns is an installed id: the
    target itself, or the target with the prefix in front when the
    target is not installed; validating the returned id again returns
    it unchanged. It returns nothing only for a target that is not
    installed. *)
Theorem validatePluginId_returns_installed (target : string) (installed : list string) :
  match PluginId.validatePluginId target installed with
  | Some id =>
      id ∈ installed ∧
      (id = target ∨ (id = PluginId.prefix +:+ target ∧ target ∉ installed)) ∧
      PluginId.validatePluginId id installed = Some id
  | None => target ∉ installed
  end.
Proof.
  assert (∀ id, id ∈ installed → PluginId.validatePluginId id installed = Some id)
    as Hfix.
  { intros id Hid. rewrite validatePluginId_unfold. unfold JS.includes.
    by rewrite bool_decide_eq_true_2. }
  destruct (PluginId.validatePluginId target installed) as [id|] eqn:E;
    rewrite validatePluginId_unfold in E; unfold JS.includes at 1 in E;
    case_bool_decide as Hin.
  - injection E as <-. split_and!; [done | by left | by apply Hfix].
  - destruct (JS.str_includes PluginId.prefix target); [done|].
    rewrite validatePluginId_prefixed in E. unfold JS.includes in E.
    case_bool_decide as Hpre; [|done]. injection E as <-.
    split_and!; [done | by right | by apply Hfix].
  - done.
  - done.
Qed.

End plugin_id_more.

(** ** Platform removal: the guard, the hooks and the stores *)

Section platform_removal_more.
Import PlatformRemove PlatformRemoveSpec.
Context `{Host}.

Lemma platform_invoke_equation {A} (c : call) (prim : World → outcome A * World)
    (s : Run) :
  invoke c prim s =
  ((prim (world s)).1,
   mkRun (prim (world s)).2
     (trace s ++ [Invoke c; Settle c (failure_of (prim (world s)).1)])).
Proof.
  unfold invoke, log. simpl. destruct (prim (world s)) as [r w]. simpl.
  by rewrite <- app_assoc.
Qed.

(** A step that only adds to the trace, followed by steps whose last
    call, when they are fulfilled, is [c]. *)
Lemma ends_bind {A B} (m : async Run A) (k : A → async Run B) (c : call) :
  extends trace m (λ _ _, True) →
  (∀ a, extends trace (k a)
          (λ r new, (∃ b, r = Fulfilled b) →
                    ∃ mid, new = mid ++ [Invoke c; Settle c None])) →
  extends trace (Async.and_then m k)
    (λ r new, (∃ b, r = Fulfilled b) → ∃ mid, new = mid ++ [Invoke c; Settle c None]).
Proof.
  intros Hm Hk.
  eapply (extends_bind trace m k _
            (λ _ r new, (∃ b, r = Fulfilled b) →
                        ∃ mid, new = mid ++ [Invoke c; Settle c None]));
    [exact Hm | exact Hk | |].
  - by intros e new _ [b ?].
  - intros a new1 r new2 _ Hlast Hr. destruct (Hlast Hr) as [mid ->].
    exists (new1 ++ mid). by rewrite app_assoc.
Qed.

Lemma ends_invoke {A} (c : call) (prim : World → outcome A * World) :
  extends trace (invoke c prim)
    (λ r new, (∃ b, r = Fulfilled b) → ∃ mid, new = mid ++ [Invoke c; Settle c None]).
Proof.
  eapply extends_weaken; [apply invoke_adds|].
  intros r new -> [b ->]. by exists [].
Qed.

Lemma adds {X A} (of_call : call → option X) (m : async Run A) L :
  within of_call m L → extends trace m (λ _ _, True).
Proof. intros Hm. eapply extends_weaken; [exact Hm|]. done. Qed.

Section command.
Variables (projectRoot : string) (opts : Opts).

Lemma deleteFromDisk_adds targets :
  extends trace (deleteFromDisk projectRoot targets) (λ _ _, True).
Proof.
  apply (adds deletion_of _ (owed_deletions projectRoot targets)).
  apply yields_within, deleteFromDisk_yields.
Qed.

Lemma persist1_adds targets :
  extends trace (Rev1.persist projectRoot targets opts) (λ _ _, True).
Proof. apply (adds engine_of _ (JS.before_at <$> targets)), persist1_engines. Qed.

Lemma persist2_adds targets :
  extends trace (Rev2.persist projectRoot targets opts) (λ _ _, True).
Proof. apply (adds engine_of _ (JS.before_at <$> targets)), persist2_engines. Qed.

Lemma announce_adds targets : extends trace (announce targets) (λ _ _, True).
Proof.
  apply (adds engine_of _ []), quiet_within, quiet_forEach. intros. apply quiet_emit.
Qed.

Lemma uninstallFromNodeModules_adds targets :
  extends trace (uninstallFromNodeModules projectRoot targets opts) (λ _ _, True).
Proof.
  apply (adds package_of _ (owed_uninstalls targets)).
  apply yields_within, every_yields, uninstallFromNodeModules_every.
Qed.

Lemma remove1_ends target targets :
  extends trace (Rev1.remove projectRoot (Some (target :: targets)) opts)
    (λ r new, (∃ b, r = Fulfilled b) →
              ∃ mid, new = [Invoke (Fire "before_platform_rm");
                            Settle (Fire "before_platform_rm") None] ++ mid ++
                           [Invoke (Fire "after_platform_rm");
                            Settle (Fire "after_platform_rm") None]).
Proof.
  unfold Rev1.remove. rewrite bool_decide_eq_false_2 by done.
  cbn [default from_option id].
  eapply (extends_bind trace _ _
            (λ r new, new = [Invoke (Fire "before_platform_rm");
                             Settle (Fire "before_platform_rm") (failure_of r)])
            (λ _ r new, (∃ b, r = Fulfilled b) →
                        ∃ mid, new = mid ++ [Invoke (Fire "after_platform_rm");
                                             Settle (Fire "after_platform_rm") None])).
  - apply invoke_adds.
  - intros _.
    apply ends_bind; [apply deleteFromDisk_adds | intros _].
    apply ends_bind; [apply persist1_adds | intros _].
    apply ends_bind; [apply announce_adds | intros _].
    apply ends_bind; [apply uninstallFromNodeModules_adds | intros _].
    apply ends_invoke.
  - by intros e new _ [b ?].
  - intros a new1 r new2 -> Hlast Hr. destruct (Hlast Hr) as [mid ->]. by exists mid.
Qed.

Lemma remove2_ends target targets :
  extends trace (Rev2.remove projectRoot (Some (target :: targets)) opts)
    (λ r new, (∃ b, r = Fulfilled b) →
              ∃ mid, new = [Invoke (Fire "before_platform_rm");
                            Settle (Fire "before_platform_rm") None] ++ mid ++
                           [Invoke (Fire "after_platform_rm");
                            Settle (Fire "after_platform_rm") None]).
Proof.
  unfold Rev2.remove. rewrite bool_decide_eq_false_2 by done.
  cbn [default from_option id].
  eapply (extends_bind trace _ _
            (λ r new, new = [Invoke (Fire "before_platform_rm");
                             Settle (Fire "before_platform_rm") (failure_of r)])
            (λ _ r new, (∃ b, r = Fulfilled b) →
                        ∃ mid, new = mid ++ [Invoke (Fire "after_platform_rm");
                                             Settle (Fire "after_platform_rm") None])).
  - apply invoke_adds.
  - intros _.
    apply ends_bind; [apply deleteFromDisk_adds | intros _].
    apply ends_bind; [apply persist2_adds | intros _].
    apply ends_bind; [apply announce_adds | intros _].
    apply ends_bind; [apply uninstallFromNodeModules_adds | intros _].
    apply ends_invoke.
  - by intros e new _ [b ?].
  - intros a new1 r new2 -> Hlast Hr. destruct (Hlast Hr) as [mid ->]. by exists mid.
Qed.

(** X14. Both revisions of platform removal reject with the usage
    message, and touch nothing, when [targets] is missing or empty.
    Otherwise they fire [before_platform_rm] first; when that hook is
    rejected nothing is deleted or called and the command is rejected
    with the hook's error. A command that is fulfilled has fired
    [after_platform_rm] last. *)
Theorem platform_removal_is_bracketed_by_hooks (s : Run) :
  Forall (λ remove : string → option (list string) → Opts → async Run unit,
    remove projectRoot None opts s = (Rejected no_platform_specified, s) ∧
    remove projectRoot (Some []) opts s = (Rejected no_platform_specified, s) ∧
    ∀ target targets,
      let r := remove projectRoot (Some (target :: targets)) opts s in
      (∀ e w,
         fire "before_platform_rm" opts (world s) = (Rejected e, w) →
         r = (Rejected e,
              mkRun w (trace s ++ [Invoke (Fire "before_platform_rm");
                                   Settle (Fire "before_platform_rm") (Some e)]))) ∧
      (r.1 = Fulfilled () →
       ∃ mid, trace r.2 =
              trace s ++ [Invoke (Fire "before_platform_rm");
                          Settle (Fire "before_platform_rm") None] ++ mid ++
                         [Invoke (Fire "after_platform_rm");
                          Settle (Fire "after_platform_rm") None]))
    [Rev1.remove; Rev2.remove].
Proof.
  repeat apply Forall_cons_2; [| |apply Forall_nil_2];
    (split_and!; [done | done |]); intros target targets r; split.
  - intros e w Hfire. subst r. unfold Rev1.remove.
    rewrite bool_decide_eq_false_2 by done. unfold Async.and_then at 1.
    rewrite platform_invoke_equation, Hfire. done.
  - intros Hr. destruct (remove1_ends target targets s) as (new & E & Hends).
    fold r in E, Hends. destruct Hends as [mid ->]; [by exists ()|]. by exists mid.
  - intros e w Hfire. subst r. unfold Rev2.remove.
    rewrite bool_decide_eq_false_2 by done. unfold Async.and_then at 1.
    rewrite platform_invoke_equation, Hfire. done.
  - intros Hr. destruct (remove2_ends target targets s) as (new & E & Hends).
    fold r in E, Hends. destruct Hends as [mid ->]; [by exists ()|]. by exists mid.
Qed.

End command.

Section stores.
Variables (projectRoot : string) (targets : list string).

Lemma persist1_quiet_without_save {X} (of_call : call → option X) :
  of_call LoadPackageJson = None →
  every of_call (Rev1.persist projectRoot targets (mkOpts false)) [].
Proof.
  intros Hload. unfold Rev1.persist. cbn [opts_save].
  apply every_bind_quiet; [by apply quiet_invoke | intros; apply quiet_resolve].
Qed.

Lemma remove_quiet_without_save {X} (of_call : call → option X)
    (persist : async Run unit) :
  (∀ hook, of_call (Fire hook) = None) →
  (∀ path, of_call (RmSync path) = None) →
  (∀ root target, of_call (RemovePlatformPluginsJson root target) = None) →
  (∀ name root, of_call (NpmUninstall name root) = None) →
  every of_call persist [] →
  every of_call
    (invoke (Fire "before_platform_rm") (fire "before_platform_rm" (mkOpts false)) ;;
     deleteFromDisk projectRoot targets ;;
     persist ;;
     announce targets ;;
     uninstallFromNodeModules projectRoot targets (mkOpts false) ;;
     invoke (Fire "after_platform_rm") (fire "after_platform_rm" (mkOpts false)))%async
    [].
Proof.
  intros Hfire Hrm Hjson Hnpm Hpersist.
  apply every_bind_quiet; [by apply quiet_invoke | intros _].
  apply every_bind_quiet; [| intros _].
  { apply quiet_forEach. intros target.
    apply every_bind_quiet; [by apply quiet_invoke | intros _].
    by apply quiet_invoke. }
  apply every_bind_quiet; [done | intros _].
  apply every_bind_quiet; [| intros _].
  { apply quiet_forEach. intros. apply quiet_emit. }
  apply every_bind_quiet; [| intros _; by apply quiet_invoke].
  apply quiet_Q_chainmap. intros target. by apply quiet_invoke.
Qed.

(** X15. Without [opts.save] neither revision touches [config.xml] or
    writes [package.json]. The second revision does not read
    [package.json] either: its persistence step does nothing. The first
    revision reads it all the same, so that a [package.json] that cannot
    be read rejects the removal there even though nothing was to be
    saved. *)
Theorem platform_removal_without_save (s : Run) :
  let opts := mkOpts false in
  Rev2.persist projectRoot targets opts s = (Fulfilled (), s) ∧
  Rev1.persist projectRoot targets opts s =
    (match PackageJson_load projectRoot (world s) with
     | Fulfilled _ => Fulfilled ()
     | Rejected e => Rejected e
     end,
     mkRun (world s)
       (trace s ++ [Invoke LoadPackageJson;
                    Settle LoadPackageJson
                      (failure_of (PackageJson_load projectRoot (world s)))])) ∧
  Forall (λ remove : string → option (list string) → Opts → async Run unit,
    ∃ new, trace (remove projectRoot (Some targets) opts s).2 = trace s ++ new ∧
           engines_removed new = [] ∧ saved_platforms new = [])
    [Rev1.remove; Rev2.remove].
Proof.
  intros opts. split_and!.
  - done.
  - unfold Rev1.persist, Async.and_then. rewrite invoke_read. cbn [opts_save opts].
    by destruct (PackageJson_load projectRoot (world s)).
  - assert (∀ (remove : string → option (list string) → Opts → async Run unit)
              (persist : async Run unit),
              (∀ X (of_call : call → option X),
                 of_call LoadPackageJson = None → every of_call persist []) →
              (∀ target rest, targets = target :: rest →
                 remove projectRoot (Some targets) opts =
                 (invoke (Fire "before_platform_rm") (fire "before_platform_rm" opts) ;;
                  deleteFromDisk projectRoot targets ;;
                  persist ;;
                  announce targets ;;
                  uninstallFromNodeModules projectRoot targets opts ;;
                  invoke (Fire "after_platform_rm")
                    (fire "after_platform_rm" opts))%async) →
              remove projectRoot (Some []) opts s = (Rejected no_platform_specified, s) →
              ∃ new, trace (remove projectRoot (Some targets) opts s).2 = trace s ++ new ∧
                     engines_removed new = [] ∧ saved_platforms new = []) as Hboth.
    { intros remove persist Hpersist Hbody Hempty.
      destruct targets as [|target rest] eqn:Ht.
      { rewrite Hempty. exists []. by rewrite app_nil_r. }
      rewrite (Hbody target rest eq_refl). rewrite <- Ht.
      assert (every engine_of persist []) as Hp by by apply Hpersist.
      assert (every saved_of persist []) as Hp' by by apply Hpersist.
      destruct (remove_quiet_without_save engine_of persist
                  (λ _, eq_refl) (λ _, eq_refl) (λ _ _, eq_refl) (λ _ _, eq_refl) Hp s)
        as (new & E & Hengines).
      destruct (remove_quiet_without_save saved_of persist
                  (λ _, eq_refl) (λ _, eq_refl) (λ _ _, eq_refl) (λ _ _, eq_refl) Hp' s)
        as (new' & E' & Hsaved).
      rewrite E in E'. apply app_inv_head in E' as <-. by exists new. }
    repeat apply Forall_cons_2; [| | apply Forall_nil_2].
    + apply (Hboth Rev1.remove (Rev1.persist projectRoot targets opts)); [| |done].
      * intros X of_call. apply persist1_quiet_without_save.
      * intros target rest ->. unfold Rev1.remove.
        by rewrite bool_decide_eq_false_2 by done.
    + apply (Hboth Rev2.remove (Rev2.persist projectRoot targets opts)); [| |done].
      * intros X of_call _. unfold Rev2.persist. cbn [opts_save opts].
        apply quiet_resolve.
      * intros target rest ->. unfold Rev2.remove.
        by rewrite bool_decide_eq_false_2 by done.
Qed.

(** *** With [opts.save] *)

Lemma persistTarget_flag target acc (s : Run) acc' :
  (Rev1.persistTarget projectRoot target acc s).1 = Fulfilled acc' →
  acc'.2 = true →
  acc.2 = true ∨ ∃ l, listed_platforms acc.1 = Some l ∧ JS.before_at target ∈ l.
Proof.
  unfold Rev1.persistTarget. unfold Async.and_then at 1.
  destruct (removeEngineFromConfig _ _ _ s) as [[[]|e] s1]; [|done].
  unfold listed_platforms.
  destruct (raw_cordova acc.1 ≫= raw_platforms) as [l|] eqn:Hl.
  - destruct (JS.includes (JS.before_at target) l) eqn:Hin.
    + intros _ _. right. exists l. split; [done|]. by apply bool_decide_eq_true in Hin.
    + intros [= <-] ?. by left.
  - intros [= <-] ?. by left.
Qed.

Lemma persistTargets_flag acc (s : Run) acc' :
  (Rev1.persistTargets projectRoot targets acc s).1 = Fulfilled acc' →
  acc'.2 = true →
  acc.2 = true ∨
  ∃ l target, listed_platforms acc.1 = Some l ∧ target ∈ targets ∧
              JS.before_at target ∈ l.
Proof.
  revert acc s. induction targets as [|target rest IH]; intros acc s; simpl.
  - intros [= <-] ?. by left.
  - unfold Async.and_then.
    pose proof (persistTarget_flag target acc s) as Hflag.
    destruct (persistTarget_listed projectRoot target acc s) as (new & _ & _ & Hlisted).
    destruct (Rev1.persistTarget projectRoot target acc s) as [[acc1|e] s1]; [|done].
    cbn [fst] in Hflag, Hlisted. intros Hrest Htrue.
    destruct (IH acc1 s1 Hrest Htrue) as [Hacc1|(l1 & target' & Hl1 & Hin & Hname)].
    + destruct (Hflag acc1 eq_refl Hacc1) as [?|(l & Hl & Hname)]; [by left|].
      right. exists l, target. split_and!; [done | by left | done].
    + right. rewrite (Hlisted acc1 eq_refl) in Hl1.
      destruct (listed_platforms acc.1) as [l|]; [|done].
      injection Hl1 as <-. apply list_elem_of_filter in Hname as [_ Hname].
      exists l, target'. split_and!; [done | by right | done].
Qed.

(** X16. With [opts.save] the second revision writes [package.json]
    once whenever it could read it, whether or not a target was listed
    in it. The first revision writes it at most once, after it has gone
    through every target, and only when the platform list named one of
    the targets. What either writes is the list that was read without
    the names before the ['@'] of the targets. *)
Theorem platform_removal_with_save (s : Run) :
  let opts := mkOpts true in
  let names := JS.before_at <$> targets in
  (∃ new, trace (Rev2.persist projectRoot targets opts s).2 = trace s ++ new ∧
          saved_platforms new =
          match loadPackageJson projectRoot (world s) with
          | Fulfilled content =>
              [Some (filter (λ p, p ∉ names) (cordova_platforms (cordova content)))]
          | Rejected _ => []
          end) ∧
  (∃ new, trace (Rev1.persist projectRoot targets opts s).2 = trace s ++ new ∧
          (saved_platforms new = [] ∨
           ∃ pkgJson l target,
             PackageJson_load projectRoot (world s) = Fulfilled pkgJson ∧
             listed_platforms pkgJson = Some l ∧
             target ∈ targets ∧ JS.before_at target ∈ l ∧
             saved_platforms new = [Some (filter (λ p, p ∉ names) l)])).
Proof.
  intros opts names. split.
  - unfold Rev2.persist. cbn [opts_save opts].
    unfold Async.and_then at 1. rewrite invoke_read.
    destruct (loadPackageJson projectRoot (world s)) as [content|e] eqn:Hload;
      [|by eexists].
    set (s1 := mkRun _ _). set (rest := Async.and_then _ _).
    assert (every saved_of rest
              [Some (filter (λ platform, JS.includes platform names = false)
                       (cordova_platforms (cordova content)))]) as Hrest.
    { unfold rest. apply every_bind_quiet; [apply (every_invoke saved_of)|].
      intros _. apply every_bind_quiet; [apply quiet_emit | intros _].
      apply quiet_forEach. intros name. unfold removeEngineFromConfig.
      apply every_bind_quiet; [apply quiet_gets | intros w].
      destruct (JS.includes _ _); [|apply quiet_resolve].
      apply every_bind_quiet; [apply quiet_emit | intros _]. by apply quiet_invoke. }
    destruct (Hrest s1) as (new2 & E2 & Hsaved).
    eexists. split; [rewrite E2; unfold s1; simpl; by rewrite <- app_assoc|].
    unfold saved_platforms. rewrite reading_app, Hsaved. simpl. do 2 f_equal.
    apply list_filter_iff. intros p. unfold JS.includes.
    by rewrite bool_decide_eq_false.
  - unfold Rev1.persist, Async.and_then. rewrite invoke_read. cbn [opts_save opts].
    destruct (PackageJson_load projectRoot (world s)) as [pkgJson|e] eqn:Hload.
    2:{ eexists. split; [done|]. by left. }
    set (s1 := mkRun _ _).
    destruct (persistTargets_listed projectRoot targets (pkgJson, false) s1)
      as (new2 & E2 & Hq & Hacc).
    pose proof (persistTargets_flag (pkgJson, false) s1) as Hflag.
    destruct (Rev1.persistTargets projectRoot targets (pkgJson, false) s1)
      as [[acc|e] s2]; simpl in E2, Hq, Hacc, Hflag.
    + destruct acc.2 eqn:Hsave.
      * destruct (invoke_adds (SaveRaw acc.1) (PackageJson_save projectRoot acc.1) s2)
          as (new3 & E3 & ->).
        eexists. split; [rewrite E3, E2; unfold s1; simpl; by rewrite <- !app_assoc|].
        right. destruct (Hflag acc eq_refl Hsave) as [?|(l & target & Hl & Hin & Hname)];
          [done|].
        exists pkgJson, l, target. split_and!; [done..|].
        unfold saved_platforms. rewrite !reading_app, Hq.
        change (reading saved_of [Invoke (SaveRaw acc.1); Settle (SaveRaw acc.1) _])
          with [listed_platforms acc.1].
        cbn [reading calls omap app]. simpl.
        fold (listed_platforms acc.1). fold (listed_platforms pkgJson).
        by rewrite (Hacc acc eq_refl), Hl.
      * eexists. split; [simpl; rewrite E2; unfold s1; simpl; by rewrite <- app_assoc|].
        left. unfold saved_platforms. rewrite reading_app, Hq. by simpl.
    + eexists. split; [simpl; rewrite E2; unfold s1; simpl; by rewrite <- app_assoc|].
      left. unfold saved_platforms. rewrite reading_app, Hq. by simpl.
Qed.

End stores.

(** ** The name before the ['@'] *)

Lemma no_at_cons (c : ascii) (s : string) :
  JS.str_includes "@" (String c s) = false ↔
  Ascii.eqb c "@"%char = false ∧ JS.str_includes "@" s = false.
Proof.
  unfold JS.str_includes.
  change (String.index 0 "@" (String c s))
    with (if String.prefix "@" (String c s) then Some 0
          else match String.index 0 "@" s with
               | Some n => Some (S n)
               | None => None
               end).
  cbn [String.prefix]. destruct (Ascii.ascii_dec "@" c) as [<-|Hne].
  - rewrite Ascii.eqb_refl. destruct s; split; (done || by intros [? ?]).
  - assert (Ascii.eqb c "@"%char = false) as ->.
    { apply Ascii.eqb_neq. congruence. }
    destruct (String.index 0 "@" s); split; (done || by intros [? ?]).
Qed.

(** X17. The name that the two stores are searched for is the target
    up to its first ['@']: it never contains an ['@'], taking it again
    changes nothing, a target without ['@'] is its own name, and a
    target of the form [name@version] gives [name]. *)
Theorem before_at_strips_the_version :
  (∀ target, JS.str_includes "@" (JS.before_at target) = false) ∧
  (∀ target, JS.before_at (JS.before_at target) = JS.before_at target) ∧
  (∀ name, JS.str_includes "@" name = false → JS.before_at name = name) ∧
  (∀ name version,
     JS.str_includes "@" name = false →
     JS.before_at (name +:+ "@" +:+ version) = name).
Proof.
  assert (∀ name, JS.str_includes "@" name = false → JS.before_at name = name) as Hid.
  { induction name as [|c name IH]; [done|]. intros [Hc Hname]%no_at_cons.
    simpl. rewrite Hc. by rewrite IH. }
  assert (∀ target, JS.str_includes "@" (JS.before_at target) = false) as Hno.
  { induction target as [|c target IH]; [done|]. simpl.
    destruct (Ascii.eqb c "@"%char) eqn:Hc; [done|]. by apply no_at_cons. }
  split_and!; [done | intros; by apply Hid | done |].
  induction name as [|c name IH]; intros version; [done|].
  intros [Hc Hname]%no_at_cons. simpl. rewrite Hc. by rewrite IH.
Qed.

(** X17 on [android@13.0.0]. *)
Lemma android_version_is_stripped : JS.before_at "android@13.0.0" = "android".
Proof.
  destruct before_at_strips_the_version as (_ & _ & _ & Hstrip).
  apply (Hstrip "android" "13.0.0"). reflexivity.
Defined.

End platform_removal_more.

(** ** Removal on the example projects, once more *)

Section removal_more_examples.
Import DemoRemoval.


(** X12 on the same project: the two hooks are the first and the last
    call. *)
Lemma healthy_removal_is_bracketed :
  ∃ mid,
    PluginRemove.trace
      (PluginRemove.remove (H := plugin_host) "/app" (Some ["foo"])
         (PluginRemoveSpec.start (H := plugin_host) healthy saving)).2 =
    [] ++ [PluginRemove.Invoke (PluginRemove.Fire "before_plugin_rm");
           PluginRemove.Settle (PluginRemove.Fire "before_plugin_rm") None] ++ mid ++
          [PluginRemove.Invoke (PluginRemove.Fire "after_plugin_rm");
           PluginRemove.Settle (PluginRemove.Fire "after_plugin_rm") None].
Proof.
  destruct (removal_is_bracketed_by_hooks (H := plugin_host) "/app"
              (PluginRemoveSpec.start (H := plugin_host) healthy saving))
    as (_ & _ & Hhooks).
  destruct (Hhooks "foo" []) as (_ & _ & Hlast). apply Hlast. reflexivity.
Defined.

(** X14 on a platform removal that is fulfilled. *)
Lemma platform_removal_is_bracketed :
  ∃ mid,
    PlatformRemove.trace
      (PlatformRemove.Rev2.remove (H := platform_host) "/app" (Some ["android@13.0.0"])
         (PlatformRemove.mkOpts true)
         (PlatformRemoveSpec.start (H := platform_host) two_platforms)).2 =
    [] ++ [PlatformRemove.Invoke (PlatformRemove.Fire "before_platform_rm");
           PlatformRemove.Settle (PlatformRemove.Fire "before_platform_rm") None] ++
          mid ++
          [PlatformRemove.Invoke (PlatformRemove.Fire "after_platform_rm");
           PlatformRemove.Settle (PlatformRemove.Fire "after_platform_rm") None].
Proof.
  pose proof (platform_removal_is_bracketed_by_hooks (H := platform_host) "/app"
                (PlatformRemove.mkOpts true)
                (PlatformRemoveSpec.start (H := platform_host) two_platforms)) as Hboth.
  apply Forall_cons_1 in Hboth as [_ Hboth]. apply Forall_cons_1 in Hboth as [Hrev2 _].
  destruct Hrev2 as (_ & _ & Hhooks).
  destruct (Hhooks "android@13.0.0" []) as (_ & Hlast). apply Hlast. reflexivity.
Defined.

End removal_more_examples.

(** ** Platform removal: the order of its phases *)

Section extends_more.
Context {S E : Type} (tr : S → list E).

Lemma extends_conj {A} (m : async S A) (P Q : outcome A → list E → Prop) :
  extends tr m P → extends tr m Q → extends tr m (λ r new, P r new ∧ Q r new).
Proof.
  intros HP HQ s. destruct (HP s) as (new & E1 & H1). destruct (HQ s) as (new' & E2 & H2).
  rewrite E1 in E2. apply app_inv_head in E2 as <-. eauto.
Qed.

(** Two phases one after the other. *)
Lemma extends_phases {A B} (m : async S A) (k : A → async S B)
    (P1 P2 : list E → Prop) :
  P2 [] →
  extends tr m (λ _ new, P1 new) → (∀ a, extends tr (k a) (λ _ new, P2 new)) →
  extends tr (Async.and_then m k)
    (λ _ new, ∃ new1 new2, new = new1 ++ new2 ∧ P1 new1 ∧ P2 new2).
Proof.
  intros Hnil Hm Hk.
  eapply (extends_bind tr m k _ (λ _ _ new, P2 new)); [exact Hm | exact Hk | |].
  - intros e new H1. exists new, []. by rewrite app_nil_r.
  - intros a new1 r new2 H1 H2. by exists new1, new2.
Qed.

End extends_more.

Section platform_phases.
Import PlatformRemove PlatformRemoveSpec.
Context `{Host}.
Variables (projectRoot : string) (targets : list string) (opts : Opts).

(** The three phases, by what they do not call. *)
Local Abbreviation on_disk new :=
  (engines_removed new = [] ∧ saved_platforms new = [] ∧ uninstalled new = []).
Local Abbreviation in_stores new := (deletions new = [] ∧ uninstalled new = []).
Local Abbreviation in_node_modules new :=
  (deletions new = [] ∧ engines_removed new = [] ∧ saved_platforms new = []).

Lemma quiet_three {A} {X Y Z} (f : call → option X) (g : call → option Y)
    (h : call → option Z) (m : async Run A) :
  every f m [] → every g m [] → every h m [] →
  extends trace m (λ _ new, reading f new = [] ∧ reading g new = [] ∧ reading h new = []).
Proof.
  intros Hf Hg Hh.
  eapply extends_weaken; [exact (extends_conj trace m _ _ Hf (extends_conj trace m _ _ Hg Hh))|].
  done.
Qed.

Lemma before_and_delete_on_disk :
  extends trace
    (invoke (Fire "before_platform_rm") (fire "before_platform_rm" opts) ;;
     deleteFromDisk projectRoot targets)%async
    (λ _ new, on_disk new).
Proof.
  apply quiet_three; (apply every_bind_quiet; [by apply quiet_invoke | intros _];
    apply quiet_forEach; intros target;
    apply every_bind_quiet; [by apply quiet_invoke | intros _]; by apply quiet_invoke).
Qed.

Lemma tail_in_node_modules :
  extends trace
    (announce targets ;;
     uninstallFromNodeModules projectRoot targets opts ;;
     invoke (Fire "after_platform_rm") (fire "after_platform_rm" opts))%async
    (λ _ new, in_node_modules new).
Proof.
  apply quiet_three;
    (apply every_bind_quiet; [apply quiet_forEach; intros; apply quiet_emit | intros _];
     apply every_bind_quiet; [| intros _; by apply quiet_invoke];
     apply quiet_Q_chainmap; intros target; by apply quiet_invoke).
Qed.

Lemma persist1_in_stores :
  extends trace (Rev1.persist projectRoot targets opts) (λ _ new, in_stores new).
Proof.
  apply extends_conj.
  - change (every deletion_of (Rev1.persist projectRoot targets opts) []).
    unfold Rev1.persist.
    apply every_bind_quiet; [by apply quiet_invoke | intros pkgJson].
    destruct (opts_save opts); [|apply quiet_resolve].
    apply every_bind_quiet; [by apply persistTargets_quiet | intros acc].
    destruct acc.2; [by apply quiet_invoke | apply quiet_resolve].
  - change (every package_of (Rev1.persist projectRoot targets opts) []).
    unfold Rev1.persist.
    apply every_bind_quiet; [by apply quiet_invoke | intros pkgJson].
    destruct (opts_save opts); [|apply quiet_resolve].
    apply every_bind_quiet; [by apply persistTargets_quiet | intros acc].
    destruct acc.2; [by apply quiet_invoke | apply quiet_resolve].
Qed.

Lemma removeEngineFromConfig_quiet {X} (of_call : call → option X) name message :
  (∀ name, of_call (RemoveEngine name) = None) →
  every of_call (removeEngineFromConfig projectRoot name message) [].
Proof.
  intros Hq. unfold removeEngineFromConfig.
  apply every_bind_quiet; [apply quiet_gets | intros w].
  destruct (JS.includes _ _); [|apply quiet_resolve].
  apply every_bind_quiet; [apply quiet_emit | intros _]. by apply quiet_invoke.
Qed.

Lemma persist2_in_stores :
  extends trace (Rev2.persist projectRoot targets opts) (λ _ new, in_stores new).
Proof.
  apply extends_conj.
  - change (every deletion_of (Rev2.persist projectRoot targets opts) []).
    unfold Rev2.persist. destruct (opts_save opts); [|apply quiet_resolve].
    apply every_bind_quiet; [by apply quiet_invoke | intros content].
    apply every_bind_quiet; [by apply quiet_invoke | intros _].
    apply every_bind_quiet; [apply quiet_emit | intros _].
    apply quiet_forEach. intros name. by apply removeEngineFromConfig_quiet.
  - change (every package_of (Rev2.persist projectRoot targets opts) []).
    unfold Rev2.persist. destruct (opts_save opts); [|apply quiet_resolve].
    apply every_bind_quiet; [by apply quiet_invoke | intros content].
    apply every_bind_quiet; [by apply quiet_invoke | intros _].
    apply every_bind_quiet; [apply quiet_emit | intros _].
    apply quiet_forEach. intros name. by apply removeEngineFromConfig_quiet.
Qed.

(** The body of [remove] with the first two steps taken together. *)
Lemma phases (persist : async Run unit) (s : Run) :
  extends trace persist (λ _ new, in_stores new) →
  ∃ new1 new2 new3,
    trace ((invoke (Fire "before_platform_rm") (fire "before_platform_rm" opts) ;;
            deleteFromDisk projectRoot targets ;;
            persist ;;
            announce targets ;;
            uninstallFromNodeModules projectRoot targets opts ;;
            invoke (Fire "after_platform_rm") (fire "after_platform_rm" opts))%async s).2 =
      trace s ++ new1 ++ new2 ++ new3 ∧
    on_disk new1 ∧ in_stores new2 ∧ in_node_modules new3.
Proof.
  intros Hpersist.
  pose proof (extends_phases trace persist _ _ _ (conj eq_refl (conj eq_refl eq_refl))
                Hpersist (λ _, tail_in_node_modules)) as Hrest.
  pose proof (extends_phases trace _ _ _ _
                (ex_intro _ [] (ex_intro _ [] (conj eq_refl
                   (conj (conj eq_refl eq_refl) (conj eq_refl (conj eq_refl eq_refl))))))
                before_and_delete_on_disk (λ _, Hrest) s)
    as (new & E & new1 & rest & -> & H1 & new2 & new3 & -> & H2 & H3).
  exists new1, new2, new3. split; [|done].
  rewrite <- E. unfold Async.and_then.
  by destruct (invoke (Fire "before_platform_rm") _ s) as [[[]|e] s1].
Qed.

(** X18. In both revisions the removal goes through three phases in
    this order: the deletions on disk, then the two stores, then the
    dependency uninstalls. No engine is removed, nothing is saved and
    nothing is uninstalled before the deletions are over, and nothing is
    deleted or written once the uninstalls have started. *)
Theorem platform_removal_phases (s : Run) :
  Forall (λ remove : string → option (list string) → Opts → async Run unit,
    ∃ new1 new2 new3,
      trace (remove projectRoot (Some targets) opts s).2 = trace s ++ new1 ++ new2 ++ new3 ∧
      (engines_removed new1 = [] ∧ saved_platforms new1 = [] ∧ uninstalled new1 = []) ∧
      (deletions new2 = [] ∧ uninstalled new2 = []) ∧
      (deletions new3 = [] ∧ engines_removed new3 = [] ∧ saved_platforms new3 = []))
    [Rev1.remove; Rev2.remove].
Proof.
  repeat apply Forall_cons_2; [| | apply Forall_nil_2].
  - unfold Rev1.remove. case_bool_decide.
    + exists [], [], []. by rewrite app_nil_r.
    + cbn [default from_option id]. apply phases, persist1_in_stores.
  - unfold Rev2.remove. case_bool_decide.
    + exists [], [], []. by rewrite app_nil_r.
    + cbn [default from_option id]. apply phases, persist2_in_stores.
Qed.

End platform_phases.

(** ** Plugin removal: the stores come after the uninstall *)

Section plugin_removal_order.
Import PluginRemove PluginRemoveSpec.
Context `{Host}.

(** [m] makes no call that reads or writes a store. *)
Local Abbreviation no_store m :=
  (extends trace m (λ _ new, Forall (λ c, store_call c = false) (calls new))).

Lemma no_store_resolve {A} (a : A) : no_store (Async.resolve a).
Proof.
  eapply extends_weaken; [apply extends_resolve|]. intros r new [_ ->]. by constructor.
Qed.

Lemma no_store_gets {A} (f : Run → A) : no_store (Async.gets f).
Proof.
  eapply extends_weaken; [apply extends_gets|]. intros r new [_ ->]. by constructor.
Qed.

Lemma no_store_emit level msg : no_store (emit level msg).
Proof.
  eapply extends_weaken; [apply extends_emit|]. intros r new [_ ->]. by constructor.
Qed.

Lemma no_store_raise_flag : no_store (Async.modify (set_shouldRunPrepare true)).
Proof.
  eapply extends_weaken; [by apply extends_modify|]. intros r new [_ ->]. by constructor.
Qed.

Lemma no_store_invoke {A} (c : call) (prim : World → outcome A * World) :
  store_call c = false → no_store (invoke c prim).
Proof.
  intros Hc. eapply extends_weaken; [apply extends_invoke|].
  intros r new ->. by repeat constructor.
Qed.

Lemma no_store_bind {A B} (m : async Run A) (k : A → async Run B) :
  no_store m → (∀ a, no_store (k a)) → no_store (Async.and_then m k).
Proof.
  intros Hm Hk.
  eapply (extends_bind trace m k _
            (λ _ _ new, Forall (λ c, store_call c = false) (calls new)));
    [exact Hm | exact Hk | |].
  - done.
  - intros a new1 r new2 H1 H2. rewrite removal_calls_app. by apply Forall_app.
Qed.

Lemma no_store_Q_chainmap {A} (f : string → async Run A) (l : list string) :
  (∀ x, no_store (f x)) → no_store (PromiseUtil.Q_chainmap l f).
Proof.
  intros Hf. eapply extends_weaken; [apply extends_Q_chainmap, Hf|].
  intros r new (_ & news & -> & Hall).
  induction Hall as [|x n l news (r' & Hn) _ IH]; simpl; [by constructor|].
  rewrite removal_calls_app. by apply Forall_app.
Qed.

Section target.
Variables (projectRoot pluginPath : string) (plugins platformList : list string)
          (cfg : ConfigXml).

Lemma removePluginFromPlatform_no_store target platform :
  no_store (removePluginFromPlatform projectRoot pluginPath cfg target platform).
Proof.
  unfold removePluginFromPlatform.
  apply no_store_bind; [by apply no_store_invoke | intros pluginInfo].
  apply no_store_bind; [apply no_store_emit | intros _].
  apply no_store_bind; [apply no_store_gets | intros o].
  apply no_store_bind; [by apply no_store_invoke | intros variables].
  apply no_store_bind; [by apply no_store_invoke | intros didPrepare].
  destruct didPrepare; [apply no_store_resolve | apply no_store_raise_flag].
Qed.

(** What follows the package-level uninstall only adds to the trace. *)
Lemma after_uninstall_adds target (s : Run) :
  ∃ new,
    trace (((o <- Async.gets opts ;;
             if opts_save o then
               persistRemovalToCfg projectRoot target ;;
               persistRemovalToPkg projectRoot target
             else Async.resolve ()) ;;
            emit "verbose" ("Removing plugin " +:+ target +:+ " from fetch.json") ;;
            invoke (RemoveFetchMetadata pluginPath target)
              (remove_fetch_metadata pluginPath target))%async s).2 = trace s ++ new.
Proof.
  match goal with |- context [trace (?m s).2] =>
    assert (keeps (touches (λ _, true)) m) as Hkeeps end.
  { apply keeps_bind; [apply touches_trans | | intros _].
    - apply keeps_bind; [apply touches_trans | apply keeps_gets, touches_refl | intros o].
      destruct (opts_save o); [|apply keeps_resolve, touches_refl].
      apply keeps_bind; [apply touches_trans | apply persistRemovalToCfg_keeps |].
      intros _. apply persistRemovalToPkg_keeps.
    - apply keeps_bind; [apply touches_trans | apply keeps_emit | intros _].
      by apply keeps_invoke. }
  destruct (Hkeeps s) as (_ & new & E & _). by exists new.
Qed.

(** X19. [removePlugin] touches [config.xml] and [package.json] only
    after the package-level uninstall has been fulfilled: everything it
    does splits into a first part without any call that reads or writes
    a store, and a rest that is empty unless the first part ends with
    that uninstall settling without failure. A plugin whose
    package-level uninstall fails stays declared in both stores. *)
Theorem stores_follow_the_uninstall (target : string) (s : Run) :
  ∃ new1 new2,
    trace (removePlugin projectRoot pluginPath plugins platformList cfg target s).2 =
      trace s ++ new1 ++ new2 ∧
    Forall (λ c, store_call c = false) (calls new1) ∧
    (new2 ≠ [] →
     ∃ id front,
       JS.when_truthy (PluginId.validatePluginId target plugins) = Some id ∧
       new1 = front ++ [Invoke (UninstallPlugin id pluginPath);
                        Settle (UninstallPlugin id pluginPath) None]).
Proof.
  unfold removePlugin. unfold Async.and_then at 1.
  destruct (JS.when_truthy (PluginId.validatePluginId target plugins)) as [id|] eqn:Hid.
  2:{ exists [], []. rewrite app_nil_r. cbn. by split_and!; [|constructor|]. }
  cbn [Async.resolve]. unfold Async.and_then at 1.
  destruct (no_store_Q_chainmap
              (removePluginFromPlatform projectRoot pluginPath cfg id) platformList
              (removePluginFromPlatform_no_store id) s) as (n1 & E1 & Hn1).
  destruct (PromiseUtil.Q_chainmap platformList _ s) as [[rs|e] s1]; cbn [snd] in E1.
  2:{ exists n1, []. rewrite app_nil_r. by split_and!. }
  unfold Async.and_then at 1. cbn [Async.gets]. unfold Async.and_then at 1.
  rewrite invoke_equation. cbn [fst snd].
  destruct (uninstallPlugin id pluginPath (opts s1) (world s1)) as [[[]|e] w2];
    cbn [fst snd failure_of].
  2:{ eexists (n1 ++ [_; _]), []. rewrite app_nil_r. cbn [trace]. rewrite E1.
      split_and!; [by rewrite <- app_assoc | | done].
      rewrite removal_calls_app. apply Forall_app. split; [done|]. by repeat constructor. }
  match goal with |- context [trace (?rest ?s2).2] =>
    destruct (after_uninstall_adds id s2) as (n3 & E3) end.
  eexists (n1 ++ [_; _]), n3. split_and!.
  - rewrite E3. cbn [trace]. by rewrite E1, <- !app_assoc.
  - rewrite removal_calls_app. apply Forall_app. split; [done|]. by repeat constructor.
  - intros _. by exists id, n1.
Qed.

End target.
End plugin_removal_order.
